(** * aionFS dev server: the JSON-backed store and the HTTP handlers

    A shallow embedding of [internal/store/store.go],
    [internal/httpapi/server.go], [internal/auth/static.go] and
    [cmd/aionfs-devd/main.go].  Go maps are finite maps keyed by
    strings, Go slices are lists, a nil pointer is [None].  Wall-clock
    time, fresh UUIDs and the outcome of file-system calls are inputs of
    the operations that consume them. *)

From Stdlib Require Import ZArith.
From stdpp Require Import gmap strings list fin_maps.

Local Open Scope string_scope.
Local Open Scope list_scope.
Local Open Scope Z_scope.

(** ** Package store *)
Module Store.

(** [time.Time], always in UTC here ([time.Now().UTC()]): the number of
    nanoseconds since the zero instant, January 1 of year 1, 00:00:00. *)
Definition Time : Type := Z.

Definition IsZero (t : Time) : bool := bool_decide (t = 0).

Record MountInfo := {
  Mode : string;
  HostPath : string;
  State : string
}.

Record Session := {
  SessionID : string;
  Principal : string;
  ConsumerEndpoint : string;
  AttachedAt : Time
}.

Record Volume := {
  VolumeID : string;
  OwnerPrincipal : string;
  Class : string;
  QuotaBytes : Z;
  PolicyProfile : string;
  ExportMode : string;
  MountHandle : MountInfo;
  AttachState : string;
  AttachSession : option Session;
  CreatedAt : Time;
  UpdatedAt : Time
}.

Record Snapshot := {
  SnapshotID : string;
  snap_VolumeID : string;
  snap_CreatedAt : Time;
  snap_Note : string
}.

Record Checkpoint := {
  ManifestID : string;
  SnapshotIDs : list string;
  cp_CreatedAt : Time;
  cp_Note : string
}.

(** Zero values of the structs ([Volume{}] and so on). *)
Definition zeroMountInfo : MountInfo := {| Mode := ""; HostPath := ""; State := "" |}.
Definition zeroSession : Session :=
  {| SessionID := ""; Principal := ""; ConsumerEndpoint := ""; AttachedAt := 0 |}.
Definition zeroVolume : Volume :=
  {| VolumeID := ""; OwnerPrincipal := ""; Class := ""; QuotaBytes := 0;
     PolicyProfile := ""; ExportMode := ""; MountHandle := zeroMountInfo;
     AttachState := ""; AttachSession := None; CreatedAt := 0; UpdatedAt := 0 |}.
Definition zeroSnapshot : Snapshot :=
  {| SnapshotID := ""; snap_VolumeID := ""; snap_CreatedAt := 0; snap_Note := "" |}.
Definition zeroCheckpoint : Checkpoint :=
  {| ManifestID := ""; SnapshotIDs := []; cp_CreatedAt := 0; cp_Note := "" |}.

(** Field assignments ([v.Field = x]). *)
Definition set_Mode (x : string) (m : MountInfo) : MountInfo :=
  let '(Build_MountInfo _ b c) := m in Build_MountInfo x b c.
Definition set_HostPath (x : string) (m : MountInfo) : MountInfo :=
  let '(Build_MountInfo a _ c) := m in Build_MountInfo a x c.
Definition set_State (x : string) (m : MountInfo) : MountInfo :=
  let '(Build_MountInfo a b _) := m in Build_MountInfo a b x.

Definition set_SessionID (x : string) (s : Session) : Session :=
  let '(Build_Session _ b c d) := s in Build_Session x b c d.
Definition set_Principal (x : string) (s : Session) : Session :=
  let '(Build_Session a _ c d) := s in Build_Session a x c d.
Definition set_ConsumerEndpoint (x : string) (s : Session) : Session :=
  let '(Build_Session a b _ d) := s in Build_Session a b x d.
Definition set_AttachedAt (x : Time) (s : Session) : Session :=
  let '(Build_Session a b c _) := s in Build_Session a b c x.

Definition set_VolumeID (x : string) (v : Volume) : Volume :=
  let '(Build_Volume _ b c d e f g h i j k) := v in Build_Volume x b c d e f g h i j k.
Definition set_OwnerPrincipal (x : string) (v : Volume) : Volume :=
  let '(Build_Volume a _ c d e f g h i j k) := v in Build_Volume a x c d e f g h i j k.
Definition set_Class (x : string) (v : Volume) : Volume :=
  let '(Build_Volume a b _ d e f g h i j k) := v in Build_Volume a b x d e f g h i j k.
Definition set_QuotaBytes (x : Z) (v : Volume) : Volume :=
  let '(Build_Volume a b c _ e f g h i j k) := v in Build_Volume a b c x e f g h i j k.
Definition set_PolicyProfile (x : string) (v : Volume) : Volume :=
  let '(Build_Volume a b c d _ f g h i j k) := v in Build_Volume a b c d x f g h i j k.
Definition set_ExportMode (x : string) (v : Volume) : Volume :=
  let '(Build_Volume a b c d e _ g h i j k) := v in Build_Volume a b c d e x g h i j k.
Definition set_MountHandle (x : MountInfo) (v : Volume) : Volume :=
  let '(Build_Volume a b c d e f _ h i j k) := v in Build_Volume a b c d e f x h i j k.
Definition set_AttachState (x : string) (v : Volume) : Volume :=
  let '(Build_Volume a b c d e f g _ i j k) := v in Build_Volume a b c d e f g x i j k.
Definition set_AttachSession (x : option Session) (v : Volume) : Volume :=
  let '(Build_Volume a b c d e f g h _ j k) := v in Build_Volume a b c d e f g h x j k.
Definition set_CreatedAt (x : Time) (v : Volume) : Volume :=
  let '(Build_Volume a b c d e f g h i _ k) := v in Build_Volume a b c d e f g h i x k.
Definition set_UpdatedAt (x : Time) (v : Volume) : Volume :=
  let '(Build_Volume a b c d e f g h i j _) := v in Build_Volume a b c d e f g h i j x.

Definition set_SnapshotID (x : string) (s : Snapshot) : Snapshot :=
  let '(Build_Snapshot _ b c d) := s in Build_Snapshot x b c d.
Definition set_snap_VolumeID (x : string) (s : Snapshot) : Snapshot :=
  let '(Build_Snapshot a _ c d) := s in Build_Snapshot a x c d.
Definition set_snap_CreatedAt (x : Time) (s : Snapshot) : Snapshot :=
  let '(Build_Snapshot a b _ d) := s in Build_Snapshot a b x d.
Definition set_snap_Note (x : string) (s : Snapshot) : Snapshot :=
  let '(Build_Snapshot a b c _) := s in Build_Snapshot a b c x.

Definition set_ManifestID (x : string) (c : Checkpoint) : Checkpoint :=
  let '(Build_Checkpoint _ b c d) := c in Build_Checkpoint x b c d.
Definition set_SnapshotIDs (x : list string) (c : Checkpoint) : Checkpoint :=
  let '(Build_Checkpoint a _ c d) := c in Build_Checkpoint a x c d.
Definition set_cp_CreatedAt (x : Time) (c : Checkpoint) : Checkpoint :=
  let '(Build_Checkpoint a b _ d) := c in Build_Checkpoint a b x d.
Definition set_cp_Note (x : string) (c : Checkpoint) : Checkpoint :=
  let '(Build_Checkpoint a b c _) := c in Build_Checkpoint a b c x.

(** *** The JSON documents of encoding/json, as trees

    The text layer (indentation, escaping, key order) is left out: a
    document is the tree the encoder writes and the decoder reads.  A
    JSON string that [time.Time] unmarshals from is the leaf [JTime],
    with its text and the instant that is read from it; every other JSON
    string is [JStr].  Numbers are integer literals.  Strings are taken
    to be valid UTF-8 (the encoder replaces other bytes) and instants to
    lie in the years 0 to 9999, which the encoder accepts, as all those
    are that the handlers store. *)
Local Unset Elimination Schemes.
Inductive json :=
  | JNull
  | JBool (b : bool)
  | JNum (n : Z)
  | JStr (s : string)
  | JTime (text : string) (t : Time)
  | JArr (elems : list json)
  | JObj (fields : list (string * json)).
Local Set Elimination Schemes.

(** What [os.Open(s.path)] and the JSON decoder find on disk.  The
    decoder is asked for one value: it stops at the end of the first JSON
    value and does not look at what follows. *)
Inductive StateFile :=
  | FileAbsent                      (* os.ErrNotExist *)
  | FileUnreadable (msg : string)   (* any other error of os.Open *)
  | FileGarbage                     (* bytes that do not start with a JSON value *)
  | FileJSON (doc : json)           (* one JSON value, white space around it *)
  | FileJSONThen (doc : json) (rest : string)
      (* a JSON value followed by the bytes [rest], which are not all white space *).

Inductive error :=
  | ErrVolumeNotFound
  | ErrOther (msg : string).

Inductive result (A : Type) :=
  | Ok (a : A)
  | Err (e : error).
Arguments Ok {A} a.
Arguments Err {A} e.

(** [fileState]: the maps may be nil after decoding. *)
Record fileState := {
  fs_Volumes : option (gmap string Volume);
  fs_Snapshots : option (gmap string (list Snapshot));
  fs_Checkpoints : option (gmap string Checkpoint)
}.

(** [FileStore]: the three maps (never nil) and the file at [s.path]. *)
Record FileStore := {
  volumes : gmap string Volume;
  snaps : gmap string (list Snapshot);
  cp : gmap string Checkpoint;
  file : StateFile
}.

Definition set_volumes (x : gmap string Volume) (s : FileStore) : FileStore :=
  {| volumes := x; snaps := snaps s; cp := cp s; file := file s |}.
Definition set_snaps (x : gmap string (list Snapshot)) (s : FileStore) : FileStore :=
  {| volumes := volumes s; snaps := x; cp := cp s; file := file s |}.
Definition set_cp (x : gmap string Checkpoint) (s : FileStore) : FileStore :=
  {| volumes := volumes s; snaps := snaps s; cp := x; file := file s |}.
Definition set_file (x : StateFile) (s : FileStore) : FileStore :=
  {| volumes := volumes s; snaps := snaps s; cp := cp s; file := x |}.

(** *** Encoding, following the struct tags *)

(** [time.Time] marshals to its RFC 3339 text with nanoseconds: the
    date and the time of day in UTC, the fraction of the second without
    its trailing zeros (nothing when it is zero), and [Z]. *)
Definition digit (n : Z) : Ascii.ascii := Ascii.ascii_of_N (48 + Z.to_N (n mod 10)).

Fixpoint digits (width : nat) (n : Z) : string :=
  match width with
  | O => ""
  | S width => digits width (n / 10) +:+ String (digit n) ""
  end.

(** The [width] digits of [n] without the zeros at their end. *)
Fixpoint trimZeros (width : nat) (n : Z) : string :=
  match width with
  | O => ""
  | S width' => if n mod 10 =? 0 then trimZeros width' (n / 10) else digits width n
  end.

Definition RFC3339Nano (t : Time) : string :=
  let secs := t / 1000000000 in
  let nanos := t mod 1000000000 in
  let days := secs / 86400 in
  let rem := secs mod 86400 in
  (* the date of the day [days] after 1 January of the year 1, counted in
     the calendar from 1 March of the year 0 in cycles of 400 years *)
  let z := days + 306 in
  let era := z / 146097 in
  let doe := z mod 146097 in
  let yoe := (doe - doe / 1460 + doe / 36524 - doe / 146096) / 365 in
  let doy := doe - (365 * yoe + yoe / 4 - yoe / 100) in
  let mp := (5 * doy + 2) / 153 in
  let day := doy - (153 * mp + 2) / 5 + 1 in
  let month := if mp <? 10 then mp + 3 else mp - 9 in
  let year := yoe + era * 400 + (if month <=? 2 then 1 else 0) in
  digits 4 year +:+ "-" +:+ digits 2 month +:+ "-" +:+ digits 2 day +:+ "T"
  +:+ digits 2 (rem / 3600) +:+ ":" +:+ digits 2 (rem mod 3600 / 60) +:+ ":"
  +:+ digits 2 (rem mod 60)
  +:+ (if nanos =? 0 then "" else "." +:+ trimZeros 9 nanos) +:+ "Z".

Definition enc_time (t : Time) : json := JTime (RFC3339Nano t) t.

Definition enc_MountInfo (m : MountInfo) : json :=
  JObj [("mode", JStr (Mode m)); ("host_path", JStr (HostPath m));
        ("state", JStr (State m))].

Definition enc_Session (s : Session) : json :=
  JObj [("session_id", JStr (SessionID s)); ("principal", JStr (Principal s));
        ("consumer_endpoint", JStr (ConsumerEndpoint s));
        ("attached_at", enc_time (AttachedAt s))].

(** A string field is written as [JStr] whatever its text: only
    [dec_string] reads it back, which takes the text of either leaf.
    [attach_session] is tagged [omitempty]: a nil pointer is left out. *)
Definition enc_Volume (v : Volume) : json :=
  JObj ([("volume_id", JStr (VolumeID v));
         ("owner_principal", JStr (OwnerPrincipal v));
         ("class", JStr (Class v));
         ("quota_bytes", JNum (QuotaBytes v));
         ("policy_profile", JStr (PolicyProfile v));
         ("export_mode", JStr (ExportMode v));
         ("mount_handle", enc_MountInfo (MountHandle v));
         ("attach_state", JStr (AttachState v))]
        ++ match AttachSession v with
           | Some s => [("attach_session", enc_Session s)]
           | None => []
           end
        ++ [("created_at", enc_time (CreatedAt v));
            ("updated_at", enc_time (UpdatedAt v))]).

(** [note] is tagged [omitempty]: the empty string is left out. *)
Definition enc_Snapshot (s : Snapshot) : json :=
  JObj ([("snapshot_id", JStr (SnapshotID s));
         ("volume_id", JStr (snap_VolumeID s));
         ("created_at", enc_time (snap_CreatedAt s))]
        ++ (if String.eqb (snap_Note s) "" then [] else [("note", JStr (snap_Note s))])).

(** A slice is written as an array (a nil slice as [null], which the
    decoder reads back as the empty sequence too). *)
Definition enc_Checkpoint (c : Checkpoint) : json :=
  JObj ([("manifest_id", JStr (ManifestID c));
         ("snapshot_ids", JArr (JStr <$> SnapshotIDs c));
         ("created_at", enc_time (cp_CreatedAt c))]
        ++ (if String.eqb (cp_Note c) "" then [] else [("note", JStr (cp_Note c))])).

(** A map is written as an object with one member per key (the encoder
    sorts the keys; the decoder does not depend on the order). *)
Definition enc_map {A} (enc : A → json) (m : gmap string A) : json :=
  JObj ((λ kv, (kv.1, enc kv.2)) <$> map_to_list m).

Definition enc_fileState (vs : gmap string Volume)
    (ss : gmap string (list Snapshot)) (cs : gmap string Checkpoint) : json :=
  JObj [("volumes", enc_map enc_Volume vs);
        ("snapshots", enc_map (λ l, JArr (enc_Snapshot <$> l)) ss);
        ("checkpoints", enc_map enc_Checkpoint cs)].

(** *** Decoding

    The decoder walks the members of an object in order and stores each
    one into the field whose tag is the key, or differs from the key only
    by the case of letters; other keys are skipped.  [null] leaves a
    string, a number, an instant and a struct as they are and makes a
    pointer, a map and a slice nil; a value of the wrong JSON kind is an
    error. *)

(** The folded form of a key: letters in upper case.  Two runes outside
    ASCII fold to ASCII letters, U+017F to [S] and U+212A to [K]; every
    other byte above 127 belongs to a rune that folds to a rune outside
    ASCII and is left as it is, which is enough to compare with the tags
    of this package, all ASCII. *)
Definition upper (c : Ascii.ascii) : Ascii.ascii :=
  let n := Ascii.N_of_ascii c in
  if ((97 <=? n) && (n <=? 122))%N then Ascii.ascii_of_N (n - 32) else c.

Fixpoint foldName (s : string) : string :=
  match s with
  | EmptyString => EmptyString
  | String a s1 =>
      let plain := String (upper a) (foldName s1) in
      match s1 with
      | String b s2 =>
          if ((Ascii.N_of_ascii a =? 197) && (Ascii.N_of_ascii b =? 191))%N
          then String (Ascii.ascii_of_N 83) (foldName s2)
          else
            match s2 with
            | String c s3 =>
                if ((Ascii.N_of_ascii a =? 226) && (Ascii.N_of_ascii b =? 132)
                    && (Ascii.N_of_ascii c =? 170))%N
                then String (Ascii.ascii_of_N 75) (foldName s3)
                else plain
            | EmptyString => plain
            end
      | EmptyString => plain
      end
  end.

(** The key [k] selects the field tagged [tag]: the tags of one struct
    differ also when folded, so the exact match that the decoder prefers
    and the folded match pick the same field. *)
Definition keyIs (k tag : string) : bool := String.eqb (foldName k) (foldName tag).

Fixpoint foldM {A B} (f : A → B → option A) (a : A) (l : list B) : option A :=
  match l with
  | [] => Some a
  | b :: l => a' ← f a b; foldM f a' l
  end.

Definition dec_string (cur : string) (j : json) : option string :=
  match j with
  | JNull => Some cur
  | JStr s => Some s
  | JTime text _ => Some text
  | _ => None
  end.

Definition dec_int64 (cur : Z) (j : json) : option Z :=
  match j with
  | JNull => Some cur
  | JNum n => if bool_decide (- 2 ^ 63 ≤ n < 2 ^ 63) then Some n else None
  | _ => None
  end.

Definition dec_time (cur : Time) (j : json) : option Time :=
  match j with
  | JNull => Some cur
  | JTime _ t => Some t
  | _ => None
  end.

Definition dec_struct {A} (member : A → string * json → option A)
    (cur : A) (j : json) : option A :=
  match j with
  | JNull => Some cur
  | JObj fields => foldM member cur fields
  | _ => None
  end.

Definition member_MountInfo (m : MountInfo) (kv : string * json) : option MountInfo :=
  let '(k, j) := kv in
  if keyIs k "mode" then x ← dec_string (Mode m) j; Some (set_Mode x m)
  else if keyIs k "host_path" then x ← dec_string (HostPath m) j; Some (set_HostPath x m)
  else if keyIs k "state" then x ← dec_string (State m) j; Some (set_State x m)
  else Some m.

Definition dec_MountInfo : MountInfo → json → option MountInfo :=
  dec_struct member_MountInfo.

Definition member_Session (s : Session) (kv : string * json) : option Session :=
  let '(k, j) := kv in
  if keyIs k "session_id" then x ← dec_string (SessionID s) j; Some (set_SessionID x s)
  else if keyIs k "principal" then x ← dec_string (Principal s) j; Some (set_Principal x s)
  else if keyIs k "consumer_endpoint" then
    x ← dec_string (ConsumerEndpoint s) j; Some (set_ConsumerEndpoint x s)
  else if keyIs k "attached_at" then x ← dec_time (AttachedAt s) j; Some (set_AttachedAt x s)
  else Some s.

(** A pointer field: [null] makes it nil, an object is decoded into the
    pointee, allocated when the pointer was nil. *)
Definition dec_SessionPtr (cur : option Session) (j : json) : option (option Session) :=
  match j with
  | JNull => Some None
  | JObj fields => Some <$> foldM member_Session (default zeroSession cur) fields
  | _ => None
  end.

Definition member_Volume (v : Volume) (kv : string * json) : option Volume :=
  let '(k, j) := kv in
  if keyIs k "volume_id" then x ← dec_string (VolumeID v) j; Some (set_VolumeID x v)
  else if keyIs k "owner_principal" then
    x ← dec_string (OwnerPrincipal v) j; Some (set_OwnerPrincipal x v)
  else if keyIs k "class" then x ← dec_string (Class v) j; Some (set_Class x v)
  else if keyIs k "quota_bytes" then x ← dec_int64 (QuotaBytes v) j; Some (set_QuotaBytes x v)
  else if keyIs k "policy_profile" then
    x ← dec_string (PolicyProfile v) j; Some (set_PolicyProfile x v)
  else if keyIs k "export_mode" then x ← dec_string (ExportMode v) j; Some (set_ExportMode x v)
  else if keyIs k "mount_handle" then
    x ← dec_MountInfo (MountHandle v) j; Some (set_MountHandle x v)
  else if keyIs k "attach_state" then x ← dec_string (AttachState v) j; Some (set_AttachState x v)
  else if keyIs k "attach_session" then
    x ← dec_SessionPtr (AttachSession v) j; Some (set_AttachSession x v)
  else if keyIs k "created_at" then x ← dec_time (CreatedAt v) j; Some (set_CreatedAt x v)
  else if keyIs k "updated_at" then x ← dec_time (UpdatedAt v) j; Some (set_UpdatedAt x v)
  else Some v.

Definition dec_Volume : Volume → json → option Volume := dec_struct member_Volume.

Definition member_Snapshot (s : Snapshot) (kv : string * json) : option Snapshot :=
  let '(k, j) := kv in
  if keyIs k "snapshot_id" then x ← dec_string (SnapshotID s) j; Some (set_SnapshotID x s)
  else if keyIs k "volume_id" then x ← dec_string (snap_VolumeID s) j; Some (set_snap_VolumeID x s)
  else if keyIs k "created_at" then x ← dec_time (snap_CreatedAt s) j; Some (set_snap_CreatedAt x s)
  else if keyIs k "note" then x ← dec_string (snap_Note s) j; Some (set_snap_Note x s)
  else Some s.

Definition dec_Snapshot : Snapshot → json → option Snapshot := dec_struct member_Snapshot.

(** The elements of an array are decoded into the slots of the backing
    array of the slice, one after the other: what a slot holds, when it
    holds something, is the current value of the element, a slot that was
    never written holds the zero element. *)
Fixpoint dec_elems {A} (dec : A → json → option A) (zero : A) (back : list A)
    (elems : list json) : option (list A) :=
  match elems with
  | [] => Some []
  | j :: elems =>
      x ← dec (default zero (head back)) j;
      xs ← dec_elems dec zero (tail back) elems;
      Some (x :: xs)
  end.

(** A slice while a struct is decoded: its elements, and the elements
    that lie behind them in its backing array, left there by a longer
    content that the same member had before.  [null] makes the slice nil
    and the empty array makes it a new empty slice; any other array is
    decoded into the backing array and the slice is cut to its length. *)
Definition dec_slice {A} (dec : A → json → option A) (zero : A) (cur : list A * list A)
    (j : json) : option (list A * list A) :=
  match j with
  | JNull => Some ([], [])
  | JArr [] => Some ([], [])
  | JArr elems =>
      let back := cur.1 ++ cur.2 in
      xs ← dec_elems dec zero back elems;
      Some (xs, drop (length elems) back)
  | _ => None
  end.

(** A slice that is an element of a map: the decoder starts every member
    of the map from a zero element, here the nil slice. *)
Definition dec_history (j : json) : option (list Snapshot) :=
  fst <$> dec_slice dec_Snapshot zeroSnapshot ([], []) j.

(** A manifest while it is decoded: the record, and what lies behind
    [SnapshotIDs] in the backing array of that slice. *)
Definition member_Checkpoint (cs : Checkpoint * list string) (kv : string * json)
    : option (Checkpoint * list string) :=
  let '(c, stale) := cs in
  let '(k, j) := kv in
  if keyIs k "manifest_id" then
    x ← dec_string (ManifestID c) j; Some (set_ManifestID x c, stale)
  else if keyIs k "snapshot_ids" then
    x ← dec_slice dec_string "" (SnapshotIDs c, stale) j; Some (set_SnapshotIDs x.1 c, x.2)
  else if keyIs k "created_at" then
    x ← dec_time (cp_CreatedAt c) j; Some (set_cp_CreatedAt x c, stale)
  else if keyIs k "note" then x ← dec_string (cp_Note c) j; Some (set_cp_Note x c, stale)
  else Some cs.

Definition dec_Checkpoint (cur : Checkpoint) (j : json) : option Checkpoint :=
  match j with
  | JNull => Some cur
  | JObj fields => fst <$> foldM member_Checkpoint (cur, []) fields
  | _ => None
  end.

(** A map: [null] makes it nil; an object allocates the map when it is
    nil and stores every member, decoded into a zero element, under its
    key, beside the entries the map holds already. *)
Definition dec_map {A} (dec : json → option A) (cur : option (gmap string A))
    (j : json) : option (option (gmap string A)) :=
  match j with
  | JNull => Some None
  | JObj fields =>
      Some <$> foldM (λ m kv, x ← dec kv.2; Some (<[kv.1 := x]> m)) (default ∅ cur) fields
  | _ => None
  end.

Definition set_fs_Volumes x (f : fileState) : fileState :=
  {| fs_Volumes := x; fs_Snapshots := fs_Snapshots f; fs_Checkpoints := fs_Checkpoints f |}.
Definition set_fs_Snapshots x (f : fileState) : fileState :=
  {| fs_Volumes := fs_Volumes f; fs_Snapshots := x; fs_Checkpoints := fs_Checkpoints f |}.
Definition set_fs_Checkpoints x (f : fileState) : fileState :=
  {| fs_Volumes := fs_Volumes f; fs_Snapshots := fs_Snapshots f; fs_Checkpoints := x |}.

Definition member_fileState (f : fileState) (kv : string * json) : option fileState :=
  let '(k, j) := kv in
  if keyIs k "volumes" then
    x ← dec_map (dec_Volume zeroVolume) (fs_Volumes f) j; Some (set_fs_Volumes x f)
  else if keyIs k "snapshots" then
    x ← dec_map dec_history (fs_Snapshots f) j;
    Some (set_fs_Snapshots x f)
  else if keyIs k "checkpoints" then
    x ← dec_map (dec_Checkpoint zeroCheckpoint) (fs_Checkpoints f) j;
    Some (set_fs_Checkpoints x f)
  else Some f.

Definition zeroFileState : fileState :=
  {| fs_Volumes := None; fs_Snapshots := None; fs_Checkpoints := None |}.

Definition dec_fileState : json → option fileState :=
  dec_struct member_fileState zeroFileState.

(** *** The store operations *)

(** [flushLocked]: [io] is the outcome of the steps that can fail (open
    the temporary file, encode into it, close it, rename it): [None] when
    all succeed, the error text of the first one that fails otherwise.
    The file at [s.path] is replaced only by the final rename. *)
Definition flushLocked (io : option string) (s : FileStore) : FileStore * option error :=
  let payload := enc_fileState (volumes s) (snaps s) (cp s) in
  match io with
  | Some msg => (s, Some (ErrOther msg))
  | None => (set_file (FileJSON payload) s, None)
  end.


(** [load]: the decoder's own message, which follows [decode state:] in
    the error text, is left out. *)
Definition load (s : FileStore) : FileStore * option error :=
  match file s with
  | FileAbsent => (s, None)
  | FileUnreadable msg => (s, Some (ErrOther ("open state file: " +:+ msg)))
  | FileGarbage => (s, Some (ErrOther "decode state"))
  | FileJSON doc | FileJSONThen doc _ =>
      match dec_fileState doc with
      | None => (s, Some (ErrOther "decode state"))
      | Some fs =>
          let vs := default ∅ (fs_Volumes fs) in
          let ss := default ∅ (fs_Snapshots fs) in
          let cs := default ∅ (fs_Checkpoints fs) in
          (set_cp cs (set_snaps ss (set_volumes vs s)), None)
      end
  end.

(** [NewFileStore dataDir]: [disk] is the content of
    [dataDir/state.json]. *)
Definition NewFileStore (disk : StateFile) : result FileStore :=
  let st := {| volumes := ∅; snaps := ∅; cp := ∅; file := disk |} in
  match load st with
  | (_, Some err) => Err err
  | (st, None) => Ok st
  end.

(** Go ranges over a map in no fixed order; the lists below come in the
    order of [map_to_list]. *)
Definition ListVolumes (s : FileStore) : list Volume :=
  (map_to_list (volumes s)).*2.

Definition ListVolumesByOwner (owner : string) (s : FileStore) : list Volume :=
  filter (λ v, OwnerPrincipal v = owner) (map_to_list (volumes s)).*2.

Definition GetVolume (id : string) (s : FileStore) : result Volume :=
  match volumes s !! id with
  | None => Err ErrVolumeNotFound
  | Some v => Ok v
  end.

(** The in-memory map is updated before the flush, whatever the flush
    returns. *)
Definition PutVolume (now : Time) (io : option string) (v : Volume) (s : FileStore)
    : FileStore * result Volume :=
  let v := set_UpdatedAt now v in
  let v :=
    match volumes s !! VolumeID v with
    | Some existing =>
        if negb (IsZero (CreatedAt existing))
        then set_CreatedAt (CreatedAt existing) v
        else set_CreatedAt now v
    | None => set_CreatedAt now v
    end in
  let s := set_volumes (<[VolumeID v := v]> (volumes s)) s in
  match flushLocked io s with
  | (s, Some err) => (s, Err err)
  | (s, None) => (s, Ok v)
  end.

Definition ListSnapshots (volumeID : string) (s : FileStore) : list Snapshot :=
  default [] (snaps s !! volumeID).

Definition AddSnapshot (io : option string) (volumeID : string) (snap : Snapshot)
    (s : FileStore) : FileStore * result Snapshot :=
  match volumes s !! volumeID with
  | None => (s, Err ErrVolumeNotFound)
  | Some _ =>
      let list := default [] (snaps s !! volumeID) ++ [snap] in
      let s := set_snaps (<[volumeID := list]> (snaps s)) s in
      match flushLocked io s with
      | (s, Some err) => (s, Err err)
      | (s, None) => (s, Ok snap)
      end
  end.

Definition LatestSnapshot (volumeID : string) (s : FileStore) : option Snapshot :=
  last (default [] (snaps s !! volumeID)).

(** The two nested loops of [VolumeIDForSnapshot], over the histories in
    the order [hist] lists them. *)
Fixpoint findOwner (snapshotID : string) (hist : list (string * list Snapshot))
    : option string :=
  match hist with
  | [] => None
  | (vid, snaps) :: hist =>
      if existsb (λ snap, String.eqb (SnapshotID snap) snapshotID) snaps
      then Some vid
      else findOwner snapshotID hist
  end.

Definition VolumeIDForSnapshot (snapshotID : string) (s : FileStore) : option string :=
  findOwner snapshotID (map_to_list (snaps s)).

Definition PutCheckpoint (io : option string) (c : Checkpoint) (s : FileStore)
    : FileStore * result Checkpoint :=
  let s := set_cp (<[ManifestID c := c]> (cp s)) s in
  match flushLocked io s with
  | (s, Some err) => (s, Err err)
  | (s, None) => (s, Ok c)
  end.

Definition ListCheckpoints (s : FileStore) : list Checkpoint :=
  (map_to_list (cp s)).*2.

Definition DeleteVolume (io : option string) (id : string) (s : FileStore)
    : FileStore * option error :=
  match volumes s !! id with
  | None => (s, Some ErrVolumeNotFound)
  | Some _ => flushLocked io (set_volumes (delete id (volumes s)) s)
  end.

End Store.

(** ** Package httpapi *)
Module HttpApi.
Import Store.

Definition mountStatePreparing : string := "preparing".
Definition mountStateAttached : string := "attached".
Definition mountStateAvailable : string := "available".

Definition StatusOK : Z := 200.
Definition StatusCreated : Z := 201.
Definition StatusNoContent : Z := 204.
Definition StatusBadRequest : Z := 400.
Definition StatusUnauthorized : Z := 401.
Definition StatusForbidden : Z := 403.
Definition StatusNotFound : Z := 404.
Definition StatusInternalServerError : Z := 500.

(** [auth.TokenProvider]: a map from bearer tokens to principals. *)
Definition TokenProvider : Type := gmap string string.

(** [Server]; the store it points to is threaded through the handlers. *)
Record Server := { tokens : option TokenProvider }.

(** [s.tokens != nil] *)
Definition hasTokens (srv : Server) : bool :=
  match tokens srv with Some _ => true | None => false end.

(** The request context holds the principal that [requireAuth] resolved
    from the bearer token, or nothing. *)
Definition principalFromContext (ctx : option string) : string * bool :=
  match ctx with
  | Some principal => (principal, true)
  | None => ("", false)
  end.

(** What a handler writes: the status and the JSON payload. *)
Inductive Payload :=
  | PVolume (v : Volume)
  | PVolumes (vs : list Volume)
  | PSnapshot (s : Snapshot)
  | PSnapshots (ss : list Snapshot)
  | PCheckpoint (c : Checkpoint)
  | PCheckpoints (cs : list Checkpoint)
  | PError (code message : string)
  | PNone.

Record Response := { status : Z; payload : Payload }.

Definition respondJSON (status : Z) (payload : Payload) : Response :=
  {| status := status; payload := payload |}.

Definition respondError (status : Z) (code message : string) : Response :=
  respondJSON status (PError code message).

(** The outcome of [json.NewDecoder(r.Body).Decode(&req)]. *)
Inductive Decoded (A : Type) :=
  | DecodeOk (req : A)
  | DecodeEOF          (* empty body: [io.EOF] *)
  | DecodeErr.
Arguments DecodeOk {A} req.
Arguments DecodeEOF {A}.
Arguments DecodeErr {A}.

(** What a request draws from its environment: the [n]-th call of
    [uuid.NewString()], of [time.Now().UTC()], and the outcome of the
    [n]-th flush. *)
Record Env := {
  uuid : nat → string;
  now : nat → Time;
  io : nat → option string
}.

(** [err.Error()] *)
Definition Error_text (e : error) : string :=
  match e with
  | ErrVolumeNotFound => "volume not found"
  | ErrOther msg => msg
  end.

(** [strings.ToLower], on ASCII letters (a UUID string has no others). *)
Definition lower (c : Ascii.ascii) : Ascii.ascii :=
  let n := Ascii.N_of_ascii c in
  if ((65 <=? n) && (n <=? 90))%N then Ascii.ascii_of_N (n + 32) else c.

Fixpoint ToLower (s : string) : string :=
  match s with
  | EmptyString => EmptyString
  | String c s => String (lower c) (ToLower s)
  end.

(** [strings.ToLower(uuid.NewString()[:8])]; [uuid.NewString()] is 36
    characters long, so the slice expression does not panic. *)
Definition shortID (u : string) : string := ToLower (String.substring 0 8 u).

(** [path.Join(dir, name)] for a clean [dir] and a [name] that is one
    plain path element, as the generated volume ids are: the two joined by
    a slash, which [path.Clean] leaves as it is. *)
Definition path_Join (dir name : string) : string := dir +:+ "/" +:+ name.

Record createVolumeRequest := {
  req_OwnerPrincipal : string;
  req_Class : string;
  req_QuotaBytes : Z;
  req_PolicyProfile : string;
  req_ExportMode : string
}.

Definition handleCreateVolume (srv : Server) (ctx : option string)
    (body : Decoded createVolumeRequest) (env : Env) (st : FileStore)
    : FileStore * Response :=
  match body with
  | DecodeOk req =>
      let '(principal, havePrincipal) := principalFromContext ctx in
      if hasTokens srv && negb havePrincipal then
        (st, respondError StatusUnauthorized "unauthorized" "token required")
      else
        let go (owner : string) :=
          let exportMode := if String.eqb (req_ExportMode req) "" then "fs" else req_ExportMode req in
          let class := if String.eqb (req_Class req) "" then "persistent" else req_Class req in
          let volumeID := "vol-" +:+ shortID (uuid env 0) in
          let hostPath := path_Join "/run/aionfs/mounts" volumeID in
          let v := {| VolumeID := volumeID;
                      OwnerPrincipal := owner;
                      Class := class;
                      QuotaBytes := req_QuotaBytes req;
                      PolicyProfile := req_PolicyProfile req;
                      ExportMode := exportMode;
                      MountHandle := {| Mode := exportMode; HostPath := hostPath;
                                        State := mountStateAvailable |};
                      AttachState := mountStateAvailable;
                      AttachSession := None;
                      CreatedAt := 0;
                      UpdatedAt := 0 |} in
          match PutVolume (now env 0) (io env 0) v st with
          | (st, Err err) =>
              (st, respondError StatusInternalServerError "store_error" (Error_text err))
          | (st, Ok persisted) => (st, respondJSON StatusCreated (PVolume persisted))
          end in
        if String.eqb (req_OwnerPrincipal req) "" then
          if hasTokens srv then go principal
          else (st, respondError StatusBadRequest "missing_owner" "owner_principal is required")
        else if hasTokens srv && negb (String.eqb (req_OwnerPrincipal req) principal) then
          (st, respondError StatusForbidden "principal_mismatch" "owner must match token principal")
        else go (req_OwnerPrincipal req)
  | _ => (st, respondError StatusBadRequest "invalid_payload" "unable to decode request body")
  end.

Definition handleListVolumes (srv : Server) (ctx : option string) (st : FileStore)
    : Response :=
  let '(principal, ok) := principalFromContext ctx in
  if hasTokens srv && negb ok then
    respondError StatusUnauthorized "unauthorized" "token required"
  else
    let volumes :=
      if hasTokens srv then ListVolumesByOwner principal st else ListVolumes st in
    respondJSON StatusOK (PVolumes volumes).

Definition handleGetVolume (srv : Server) (ctx : option string) (id : string)
    (st : FileStore) : Response :=
  match GetVolume id st with
  | Err ErrVolumeNotFound => respondError StatusNotFound "not_found" "volume not found"
  | Err err => respondError StatusInternalServerError "store_error" (Error_text err)
  | Ok v =>
      let '(principal, ok) := principalFromContext ctx in
      if hasTokens srv && negb ok then
        respondError StatusUnauthorized "unauthorized" "token required"
      else if hasTokens srv && negb (String.eqb (OwnerPrincipal v) principal) then
        respondError StatusForbidden "principal_mismatch"
          "principal not authorised for this volume"
      else respondJSON StatusOK (PVolume v)
  end.

Record attachRequest := {
  att_Principal : string;
  att_SessionID : string;
  att_ConsumerEndpoint : string
}.

Definition handleAttachVolume (srv : Server) (ctx : option string) (id : string)
    (body : Decoded attachRequest) (env : Env) (st : FileStore)
    : FileStore * Response :=
  match body with
  | DecodeOk req =>
      let '(principal, havePrincipal) := principalFromContext ctx in
      if hasTokens srv && negb havePrincipal then
        (st, respondError StatusUnauthorized "unauthorized" "token required")
      else
        match GetVolume id st with
        | Err ErrVolumeNotFound =>
            (st, respondError StatusNotFound "not_found" "volume not found")
        | Err err =>
            (st, respondError StatusInternalServerError "store_error" (Error_text err))
        | Ok vol =>
            let go (reqPrincipal : string) :=
              if negb (String.eqb reqPrincipal (OwnerPrincipal vol)) then
                (st, respondError StatusForbidden "principal_mismatch"
                       "principal not authorised for this volume")
              else
                let sessionID :=
                  if String.eqb (att_SessionID req) ""
                  then "sess-" +:+ shortID (uuid env 0)
                  else att_SessionID req in
                let vol := set_AttachState mountStateAttached vol in
                let vol := set_MountHandle (set_State mountStateAttached (MountHandle vol)) vol in
                let vol := set_AttachSession
                             (Some {| SessionID := sessionID;
                                      Principal := reqPrincipal;
                                      ConsumerEndpoint := att_ConsumerEndpoint req;
                                      AttachedAt := now env 0 |}) vol in
                match PutVolume (now env 1) (io env 0) vol st with
                | (st, Err err) =>
                    (st, respondError StatusInternalServerError "store_error" (Error_text err))
                | (st, Ok persisted) => (st, respondJSON StatusOK (PVolume persisted))
                end in
            if String.eqb (att_Principal req) "" then
              if hasTokens srv then go principal
              else (st, respondError StatusBadRequest "missing_principal" "principal is required")
            else go (att_Principal req)
        end
  | _ => (st, respondError StatusBadRequest "invalid_payload" "unable to decode request body")
  end.

Record detachRequest := { det_SessionID : string }.

Definition handleDetachVolume (srv : Server) (ctx : option string) (id : string)
    (body : Decoded detachRequest) (env : Env) (st : FileStore)
    : FileStore * Response :=
  match body with
  | DecodeErr =>
      (st, respondError StatusBadRequest "invalid_payload" "unable to decode request body")
  | _ =>
      match GetVolume id st with
      | Err ErrVolumeNotFound =>
          (st, respondError StatusNotFound "not_found" "volume not found")
      | Err err =>
          (st, respondError StatusInternalServerError "store_error" (Error_text err))
      | Ok vol =>
          let '(principal, ok) := principalFromContext ctx in
          if hasTokens srv && negb ok then
            (st, respondError StatusUnauthorized "unauthorized" "token required")
          else if hasTokens srv && negb (String.eqb (OwnerPrincipal vol) principal) then
            (st, respondError StatusForbidden "principal_mismatch"
                   "principal not authorised for this volume")
          else
            let vol := set_AttachState mountStateAvailable vol in
            let vol := set_MountHandle (set_State mountStateAvailable (MountHandle vol)) vol in
            let vol := set_AttachSession None vol in
            match PutVolume (now env 0) (io env 0) vol st with
            | (st, Err err) =>
                (st, respondError StatusInternalServerError "store_error" (Error_text err))
            | (st, Ok persisted) => (st, respondJSON StatusOK (PVolume persisted))
            end
      end
  end.

Definition handleDeleteVolume (srv : Server) (ctx : option string) (id : string)
    (env : Env) (st : FileStore) : FileStore * Response :=
  let remove (_ : unit) :=
    match DeleteVolume (io env 0) id st with
    | (st, Some ErrVolumeNotFound) =>
        (st, respondError StatusNotFound "not_found" "volume not found")
    | (st, Some err) =>
        (st, respondError StatusInternalServerError "store_error" (Error_text err))
    | (st, None) => (st, respondJSON StatusNoContent PNone)
    end in
  let '(principal, ok) := principalFromContext ctx in
  if hasTokens srv then
    if negb ok then
      (st, respondError StatusUnauthorized "unauthorized" "token required")
    else
      match GetVolume id st with
      | Err ErrVolumeNotFound =>
          (st, respondError StatusNotFound "not_found" "volume not found")
      | Err err =>
          (st, respondError StatusInternalServerError "store_error" (Error_text err))
      | Ok vol =>
          if negb (String.eqb (OwnerPrincipal vol) principal) then
            (st, respondError StatusForbidden "principal_mismatch"
                   "principal not authorised for this volume")
          else remove ()
      end
  else remove ().

Record createSnapshotRequest := { snapreq_Note : string }.

Record createCheckpointRequest := {
  cpreq_VolumeIDs : list string;
  cpreq_Note : string
}.

Definition handleCreateSnapshot (srv : Server) (ctx : option string) (volumeID : string)
    (body : Decoded createSnapshotRequest) (env : Env) (st : FileStore)
    : FileStore * Response :=
  let '(principal, ok) := principalFromContext ctx in
  if hasTokens srv && negb ok then
    (st, respondError StatusUnauthorized "unauthorized" "token required")
  else
    match GetVolume volumeID st with
    | Err ErrVolumeNotFound =>
        (st, respondError StatusNotFound "not_found" "volume not found")
    | Err err =>
        (st, respondError StatusInternalServerError "store_error" (Error_text err))
    | Ok vol =>
        if hasTokens srv && negb (String.eqb (OwnerPrincipal vol) principal) then
          (st, respondError StatusForbidden "principal_mismatch"
                 "principal not authorised for this volume")
        else
          let go (note : string) :=
            let snapshot := {| SnapshotID := "snap-" +:+ shortID (uuid env 0);
                               snap_VolumeID := volumeID;
                               snap_CreatedAt := now env 0;
                               snap_Note := note |} in
            match AddSnapshot (io env 0) volumeID snapshot st with
            | (st, Err ErrVolumeNotFound) =>
                (st, respondError StatusNotFound "not_found" "volume not found")
            | (st, Err err) =>
                (st, respondError StatusInternalServerError "store_error" (Error_text err))
            | (st, Ok persisted) => (st, respondJSON StatusCreated (PSnapshot persisted))
            end in
          match body with
          | DecodeOk req => go (snapreq_Note req)
          | DecodeEOF => go ""
          | DecodeErr =>
              (st, respondError StatusBadRequest "invalid_payload"
                     "unable to decode request body")
          end
    end.

Definition handleListSnapshots (srv : Server) (ctx : option string) (volumeID : string)
    (st : FileStore) : Response :=
  let '(principal, ok) := principalFromContext ctx in
  if hasTokens srv && negb ok then
    respondError StatusUnauthorized "unauthorized" "token required"
  else
    match GetVolume volumeID st with
    | Err ErrVolumeNotFound => respondError StatusNotFound "not_found" "volume not found"
    | Err err => respondError StatusInternalServerError "store_error" (Error_text err)
    | Ok vol =>
        if hasTokens srv && negb (String.eqb (OwnerPrincipal vol) principal) then
          respondError StatusForbidden "principal_mismatch"
            "principal not authorised for this volume"
        else respondJSON StatusOK (PSnapshots (ListSnapshots volumeID st))
    end.

(** The loop of [handleCreateCheckpoint] over [volumeIDs]; the [k]-th
    iteration draws the [k]-th UUID, time and flush outcome. *)
Fixpoint collectSnapshots (srv : Server) (principal : string) (env : Env) (k : nat)
    (volumeIDs : list string) (snapshotIDs : list string) (st : FileStore)
    : FileStore * (Response + list string) :=
  match volumeIDs with
  | [] => (st, inr snapshotIDs)
  | vid :: volumeIDs =>
      match GetVolume vid st with
      | Err _ =>
          (st, inl (respondError StatusBadRequest "invalid_volume" ("unknown volume " +:+ vid)))
      | Ok vol =>
          if hasTokens srv && negb (String.eqb (OwnerPrincipal vol) principal) then
            (st, inl (respondError StatusForbidden "principal_mismatch"
                        ("principal not authorised for volume " +:+ vid)))
          else
            match LatestSnapshot vid st with
            | Some latest =>
                collectSnapshots srv principal env (S k) volumeIDs
                  (snapshotIDs ++ [SnapshotID latest]) st
            | None =>
                let snap := {| SnapshotID := "snap-" +:+ shortID (uuid env k);
                               snap_VolumeID := vid;
                               snap_CreatedAt := now env k;
                               snap_Note := "auto-generated for checkpoint" |} in
                match AddSnapshot (io env k) vid snap st with
                | (st, Err err) =>
                    (st, inl (respondError StatusInternalServerError "store_error"
                                (Error_text err)))
                | (st, Ok created) =>
                    collectSnapshots srv principal env (S k) volumeIDs
                      (snapshotIDs ++ [SnapshotID created]) st
                end
            end
      end
  end.

Definition handleCreateCheckpoint (srv : Server) (ctx : option string)
    (body : Decoded createCheckpointRequest) (env : Env) (st : FileStore)
    : FileStore * Response :=
  let '(principal, ok) := principalFromContext ctx in
  if hasTokens srv && negb ok then
    (st, respondError StatusUnauthorized "unauthorized" "token required")
  else
    match body with
    | DecodeOk req =>
        let volumeIDs :=
          match cpreq_VolumeIDs req with
          | [] =>
              if hasTokens srv then VolumeID <$> ListVolumesByOwner principal st
              else VolumeID <$> ListVolumes st
          | ids => ids
          end in
        let n := length volumeIDs in
        match collectSnapshots srv principal env 0 volumeIDs [] st with
        | (st, inl resp) => (st, resp)
        | (st, inr snapshotIDs) =>
            let manifest := {| ManifestID := "chk-" +:+ shortID (uuid env n);
                               SnapshotIDs := snapshotIDs;
                               cp_CreatedAt := now env n;
                               cp_Note := cpreq_Note req |} in
            match PutCheckpoint (io env n) manifest st with
            | (st, Err err) =>
                (st, respondError StatusInternalServerError "store_error" (Error_text err))
            | (st, Ok persisted) => (st, respondJSON StatusCreated (PCheckpoint persisted))
            end
        end
    | _ => (st, respondError StatusBadRequest "invalid_payload" "unable to decode request body")
    end.

(** The ids of the volumes in [vs], the set [owned] of
    [handleListCheckpoints]. *)
Definition ownedSet (vs : list Volume) : gset string := list_to_set (VolumeID <$> vs).

(** The inner loop over [cp.SnapshotIDs]: [include] stays true unless a
    snapshot is found in the history of a volume outside [owned]. *)
Definition includeManifest (owned : gset string) (st : FileStore) (c : Checkpoint) : bool :=
  forallb (λ sid,
    match VolumeIDForSnapshot sid st with
    | Some vid => bool_decide (vid ∈ owned)
    | None => true
    end) (SnapshotIDs c).

Definition handleListCheckpoints (srv : Server) (ctx : option string) (st : FileStore)
    : Response :=
  let '(principal, ok) := principalFromContext ctx in
  if hasTokens srv && negb ok then
    respondError StatusUnauthorized "unauthorized" "token required"
  else
    let manifests := ListCheckpoints st in
    let manifests :=
      if hasTokens srv then
        let owned := ownedSet (ListVolumesByOwner principal st) in
        List.filter (includeManifest owned st) manifests
      else manifests in
    respondJSON StatusOK (PCheckpoints manifests).

End HttpApi.

(** ** Command aionfs-devd *)
Module Main.
Import Store.

(** The start of [main]: the store is built from the state file, and an
    error ends the process ([log.Fatalf]). *)
Inductive Startup :=
  | Serving (st : FileStore)
  | Fatal (message : string).

Definition main_store (disk : StateFile) : Startup :=
  match NewFileStore disk with
  | Err err => Fatal ("failed to initialise state store: " +:+ HttpApi.Error_text err)
  | Ok st => Serving st
  end.

End Main.

(** ** Package auth *)
Module Auth.
Import Store.

(** What [os.ReadFile(path)] returns and [json.Unmarshal] makes of it. *)
Inductive TokenFile :=
  | TokensUnreadable (msg : string)   (* error of os.ReadFile *)
  | TokensGarbage                     (* bytes that are not one JSON value *)
  | TokensJSON (doc : json).

Record StaticProvider := { byToken : gmap string string }.

(** [json.Unmarshal(data, &raw)] for [raw := map[string]string{}]. *)
Definition unmarshalTokens (raw : gmap string string) (f : TokenFile)
    : option (gmap string string) :=
  match f with
  | TokensJSON doc => default ∅ <$> dec_map (dec_string "") (Some raw) doc
  | _ => None
  end.

(** [NewStaticProvider]: the provider, or the text of the error. *)
Definition NewStaticProvider (f : TokenFile) : StaticProvider + string :=
  match f with
  | TokensUnreadable msg => inr ("read token file: " +:+ msg)
  | _ =>
      match unmarshalTokens ∅ f with
      | None => inr "parse token file"
      | Some raw =>
          if bool_decide (size raw = 0%nat)
          then inr "token file contained no entries"
          else inl {| byToken := raw |}
      end
  end.

(** The method [Principal] of [StaticProvider]: the pair
    [(principal, ok)] as an option. *)
Definition StaticProvider_Principal (s : StaticProvider) (token : string) : option string :=
  byToken s !! token.

Definition Size (s : StaticProvider) : nat := size (byToken s).

Record InMemoryProvider := { mem_byToken : gmap string string }.

(** [NewInMemory] copies the mapping entry by entry. *)
Definition NewInMemory (mapping : gmap string string) : InMemoryProvider :=
  {| mem_byToken := map_fold (λ k v cp, <[k := v]> cp) ∅ mapping |}.

Definition InMemoryProvider_Principal (m : InMemoryProvider) (token : string)
    : option string :=
  mem_byToken m !! token.

End Auth.

(** ** The router and the authentication middleware of package httpapi *)
Module Router.
Import Store HttpApi.

(** [strings.HasPrefix] and [strings.TrimPrefix]. *)
Definition HasPrefix (s prefix : string) : bool := String.prefix prefix s.

Definition TrimPrefix (s prefix : string) : string :=
  if HasPrefix s prefix
  then String.substring (String.length prefix) (String.length s - String.length prefix) s
  else s.

(** [strings.TrimSpace] removes the leading and the trailing white space
    of Unicode.  Each white-space rune has one UTF-8 encoding: one of the
    six ASCII bytes, or one of the two- and three-byte sequences below;
    any other byte sequence, valid UTF-8 or not, ends the trimming. *)
Definition asciiSpace (a : Ascii.ascii) : bool :=
  let n := Ascii.N_of_ascii a in ((9 <=? n) && (n <=? 13) || (n =? 32))%N.

(** U+0085 and U+00A0. *)
Definition spaceRune2 (a b : Ascii.ascii) : bool :=
  let a := Ascii.N_of_ascii a in
  let b := Ascii.N_of_ascii b in
  ((a =? 194) && ((b =? 133) || (b =? 160)))%N.

(** U+1680, U+2000 to U+200A, U+2028, U+2029, U+202F, U+205F, U+3000. *)
Definition spaceRune3 (a b c : Ascii.ascii) : bool :=
  let a := Ascii.N_of_ascii a in
  let b := Ascii.N_of_ascii b in
  let c := Ascii.N_of_ascii c in
  ((a =? 225) && (b =? 154) && (c =? 128)
   || (a =? 226) && (b =? 128)
      && ((128 <=? c) && (c <=? 138) || (c =? 168) || (c =? 169) || (c =? 175))
   || (a =? 226) && (b =? 129) && (c =? 159)
   || (a =? 227) && (b =? 128) && (c =? 128))%N.

(** Trimming on the left, on the bytes of the string. *)
Fixpoint trimLeft (s : list Ascii.ascii) : list Ascii.ascii :=
  match s with
  | a :: s1 =>
      if asciiSpace a then trimLeft s1 else
      match s1 with
      | b :: s2 =>
          if spaceRune2 a b then trimLeft s2 else
          match s2 with
          | c :: s3 => if spaceRune3 a b c then trimLeft s3 else s
          | [] => s
          end
      | [] => s
      end
  | [] => []
  end.

(** The same from the right, on the reversed bytes: the last rune is a
    white-space rune exactly when the string ends with its encoding. *)
Fixpoint trimRightRev (s : list Ascii.ascii) : list Ascii.ascii :=
  match s with
  | a :: s1 =>
      if asciiSpace a then trimRightRev s1 else
      match s1 with
      | b :: s2 =>
          if spaceRune2 b a then trimRightRev s2 else
          match s2 with
          | c :: s3 => if spaceRune3 c b a then trimRightRev s3 else s
          | [] => s
          end
      | [] => s
      end
  | [] => []
  end.

Definition TrimSpace (s : string) : string :=
  String.string_of_list_ascii
    (reverse (trimRightRev (reverse (trimLeft (String.list_ascii_of_string s))))).

(** [requireAuth]: [authz] is the value of the Authorization header (empty
    when the header is absent), [next] the wrapped handler, which receives
    the principal stored in the request context. *)
Definition requireAuth {R : Type} (srv : Server) (authz : string)
    (respond : Response → R) (next : option string → R) : R :=
  match tokens srv with
  | None => next None
  | Some tp =>
      if negb (HasPrefix authz "Bearer ") then
        respond (respondError StatusUnauthorized "unauthorized" "missing bearer token")
      else
        let token := TrimSpace (TrimPrefix authz "Bearer ") in
        match tp !! token with
        | None => respond (respondError StatusUnauthorized "unauthorized" "invalid token")
        | Some principal => next (Some principal)
        end
  end.

(** The routes mounted under [/v1], with the URL parameter and the
    outcome of decoding the body where the handler reads them. *)
Inductive ApiRoute :=
  | PostVolumes (body : Decoded createVolumeRequest)
  | GetVolumes
  | PostCheckpoints (body : Decoded createCheckpointRequest)
  | GetCheckpoints
  | GetVolumeByID (volumeID : string)
  | PostAttach (volumeID : string) (body : Decoded attachRequest)
  | PostDetach (volumeID : string) (body : Decoded detachRequest)
  | PostSnapshots (volumeID : string) (body : Decoded createSnapshotRequest)
  | GetSnapshots (volumeID : string)
  | DeleteVolumeByID (volumeID : string).

Inductive Route :=
  | GetHealthz
  | V1 (r : ApiRoute).

Record Request := { Authorization : string; route : Route }.

(** What the router writes: the health document, or a handler's
    response. *)
Inductive Written :=
  | WHealth (status : Z) (fields : list (string * string))
  | WResponse (resp : Response).

(** The handler mounted at each route. *)
Definition dispatch (srv : Server) (ctx : option string) (r : ApiRoute) (env : Env)
    (st : FileStore) : FileStore * Response :=
  match r with
  | PostVolumes body => handleCreateVolume srv ctx body env st
  | GetVolumes => (st, handleListVolumes srv ctx st)
  | PostCheckpoints body => handleCreateCheckpoint srv ctx body env st
  | GetCheckpoints => (st, handleListCheckpoints srv ctx st)
  | GetVolumeByID id => (st, handleGetVolume srv ctx id st)
  | PostAttach id body => handleAttachVolume srv ctx id body env st
  | PostDetach id body => handleDetachVolume srv ctx id body env st
  | PostSnapshots id body => handleCreateSnapshot srv ctx id body env st
  | GetSnapshots id => (st, handleListSnapshots srv ctx id st)
  | DeleteVolumeByID id => handleDeleteVolume srv ctx id env st
  end.

(** [Router]: [/healthz] is outside [/v1]; the routes under [/v1] are
    wrapped in [requireAuth] when the server has a token provider.  The
    incoming request context holds no principal. *)
Definition ServeHTTP (srv : Server) (req : Request) (env : Env) (st : FileStore)
    : FileStore * Written :=
  match route req with
  | GetHealthz => (st, WHealth StatusOK [("status", "ok")])
  | V1 r =>
      let '(st, resp) :=
        if hasTokens srv then
          requireAuth srv (Authorization req) (λ resp, (st, resp))
            (λ ctx, dispatch srv ctx r env st)
        else dispatch srv None r env st in
      (st, WResponse resp)
  end.

End Router.

(** ** Command aionfs-devd: the token provider and the TLS settings *)
Module Config.
Import Store Auth.

(** The part of [main] that picks the token provider: none without
    [-token-file], the provider loaded from the file otherwise, and the
    message of [log.Fatalf] when loading fails. *)
Inductive TokenSetup :=
  | NoTokens
  | Tokens (provider : StaticProvider)
  | TokensFatal (message : string).

Definition main_tokens (tokenFile : string) (content : TokenFile) : TokenSetup :=
  if String.eqb tokenFile "" then NoTokens
  else
    match NewStaticProvider content with
    | inr err => TokensFatal ("failed to load token file: " +:+ err)
    | inl provider => Tokens provider
    end.

(** [tls.Config] as far as [buildTLSConfig] sets it. *)
Record tlsConfig := {
  MinVersion : string;
  withClientCAs : bool;          (* ClientCAs is set *)
  RequireAndVerifyClientCert : bool
}.

Inductive TLSSetup :=
  | PlainHTTP                      (* buildTLSConfig returns nil *)
  | TLS (cfg : tlsConfig)
  | TLSFatal (message : string).

(** [buildTLSConfig]: [keyPair] is the error of [tls.LoadX509KeyPair] if
    any, [caFile] the error of reading the client CA bundle if any, and
    [caFound] whether [AppendCertsFromPEM] found a certificate in it. *)
Definition buildTLSConfig (certPath keyPath clientCAPath : string)
    (keyPair caFile : option string) (caFound : bool) : TLSSetup :=
  if String.eqb certPath "" && String.eqb keyPath "" then PlainHTTP
  else if String.eqb certPath "" || String.eqb keyPath "" then
    TLSFatal "both --tls-cert and --tls-key must be provided for TLS"
  else
    match keyPair with
    | Some err => TLSFatal ("failed to load TLS keypair: " +:+ err)
    | None =>
        if negb (String.eqb clientCAPath "") then
          match caFile with
          | Some err => TLSFatal ("failed to read client CA bundle: " +:+ err)
          | None =>
              if negb caFound then TLSFatal "no client CAs found in provided bundle"
              else TLS {| MinVersion := "VersionTLS12"; withClientCAs := true;
                          RequireAndVerifyClientCert := true |}
          end
        else TLS {| MinVersion := "VersionTLS12"; withClientCAs := false;
                    RequireAndVerifyClientCert := false |}
    end.

End Config.

Import Store HttpApi Main.

(** * Vocabulary of the statements, and sample data *)

(** ** The volume registry *)

(** The record [PutVolume] stores: [v] with its two timestamps set. *)
Definition stamped (now : Time) (v : Volume) (s : FileStore) : Volume :=
  set_CreatedAt
    match volumes s !! VolumeID v with
    | Some existing => if IsZero (CreatedAt existing) then now else CreatedAt existing
    | None => now
    end (set_UpdatedAt now v).

(** C7, as the spec words it: an update of an id that is already stored
    keeps the stored [created_at]. *)
Definition PutVolume_keeps_created_at : Prop :=
  ∀ (now : Time) (io : option string) (v existing : Volume) (s : FileStore),
    volumes s !! VolumeID v = Some existing →
    ∃ v', volumes (PutVolume now io v s).1 !! VolumeID v = Some v' ∧
          CreatedAt v' = CreatedAt existing.

(** A store as [load] builds it from a state file whose only volume
    carries no [created_at]. *)
Definition legacyVolume : Volume := set_VolumeID "vol-0badcafe" zeroVolume.
Definition legacyStore : FileStore :=
  {| volumes := {[ "vol-0badcafe" := legacyVolume ]}; snaps := ∅; cp := ∅;
     file := FileAbsent |}.

(** ** Generated identifiers *)

Definition is_digit (c : Ascii.ascii) : bool :=
  let n := Ascii.N_of_ascii c in ((48 <=? n) && (n <=? 57))%N.

(** [0-9a-f] *)
Definition is_lower_hex (c : Ascii.ascii) : bool :=
  let n := Ascii.N_of_ascii c in is_digit c || ((97 <=? n) && (n <=? 102))%N.

(** [0-9a-fA-F] *)
Definition is_hex (c : Ascii.ascii) : bool :=
  let n := Ascii.N_of_ascii c in is_lower_hex c || ((65 <=? n) && (n <=? 70))%N.

Fixpoint all_chars (p : Ascii.ascii → bool) (s : string) : bool :=
  match s with
  | EmptyString => true
  | String c s => p c && all_chars p s
  end.

(** The textual form of a UUID, 8-4-4-4-12 hexadecimal digits, which is
    what [uuid.NewString()] returns: [shape] lists the group lengths. *)
Fixpoint hex_groups (shape : list nat) (s : string) : bool :=
  match shape with
  | [] => String.eqb s ""
  | n :: shape =>
      all_chars is_hex (String.substring 0 n s) &&
      bool_decide (String.length (String.substring 0 n s) = n) &&
      match shape with
      | [] => String.eqb (String.substring n (String.length s) s) ""
      | _ =>
          String.eqb (String.substring n 1 s) "-" &&
          hex_groups shape (String.substring (S n) (String.length s) s)
      end
  end.

Definition is_uuid_string (u : string) : bool := hex_groups [8; 4; 4; 4; 12]%nat u.

(** [vol-] followed by exactly eight characters of [0-9a-f]. *)
Definition is_volume_id (id : string) : bool :=
  String.eqb (String.substring 0 4 id) "vol-" &&
  bool_decide (String.length id = 12%nat) &&
  all_chars is_lower_hex (String.substring 4 8 id).

(** ** Creating a volume *)

(** The requests [handleCreateVolume] does not turn away: with a token
    provider the caller is known and the owner, when given, is the caller;
    without one the owner is given. *)
Definition create_accepted (srv : Server) (ctx : option string)
    (req : createVolumeRequest) : Prop :=
  match tokens srv, ctx with
  | Some _, Some principal =>
      req_OwnerPrincipal req = "" ∨ req_OwnerPrincipal req = principal
  | Some _, None => False
  | None, _ => req_OwnerPrincipal req ≠ ""
  end.

Definition create_owner (srv : Server) (ctx : option string)
    (req : createVolumeRequest) : string :=
  match tokens srv, ctx with
  | Some _, Some principal => principal
  | _, _ => req_OwnerPrincipal req
  end.

(** The record [handleCreateVolume] hands to the store. *)
Definition createdVolume (req : createVolumeRequest) (owner u : string) : Volume :=
  let exportMode := if String.eqb (req_ExportMode req) "" then "fs" else req_ExportMode req in
  let volumeID := "vol-" +:+ shortID u in
  {| VolumeID := volumeID;
     OwnerPrincipal := owner;
     Class := if String.eqb (req_Class req) "" then "persistent" else req_Class req;
     QuotaBytes := req_QuotaBytes req;
     PolicyProfile := req_PolicyProfile req;
     ExportMode := exportMode;
     MountHandle := {| Mode := exportMode;
                       HostPath := path_Join "/run/aionfs/mounts" volumeID;
                       State := mountStateAvailable |};
     AttachState := mountStateAvailable;
     AttachSession := None;
     CreatedAt := 0;
     UpdatedAt := 0 |}.

(** The request of the README, sent to a server without a token provider
    and an empty store. *)
Definition devServer : Server := {| tokens := None |}.
Definition emptyStore : FileStore :=
  {| volumes := ∅; snaps := ∅; cp := ∅; file := FileAbsent |}.
Definition app1Request : createVolumeRequest :=
  {| req_OwnerPrincipal := "service:app1"; req_Class := "";
     req_QuotaBytes := 21474836480; req_PolicyProfile := "standard";
     req_ExportMode := "" |}.
Definition calmEnv : Env :=
  {| uuid := λ _, "4d3c9b1e-8a6f-4c50-9d2b-0f1e2d3c4b5a";
     now := λ n, 1700 + Z.of_nat n;
     io := λ _, None |}.

(** ** Responses and requests of the handlers *)

Definition notFound : Response :=
  respondError StatusNotFound "not_found" "volume not found".
Definition principalMismatch : Response :=
  respondError StatusForbidden "principal_mismatch" "principal not authorised for this volume".
Definition storeError (msg : string) : Response :=
  respondError StatusInternalServerError "store_error" msg.

(** A server with a token provider, and the context of a request that
    [requireAuth] let through for [principal]. *)
Definition authServer (tp : TokenProvider) : Server := {| tokens := Some tp |}.

(** [vol] after the three assignments of [handleDetachVolume]. *)
Definition detached (vol : Volume) : Volume :=
  let vol := set_AttachState mountStateAvailable vol in
  let vol := set_MountHandle (set_State mountStateAvailable (MountHandle vol)) vol in
  set_AttachSession None vol.

(** [vol] after the three assignments of [handleAttachVolume]. *)
Definition attached (session : Session) (vol : Volume) : Volume :=
  let vol := set_AttachState mountStateAttached vol in
  let vol := set_MountHandle (set_State mountStateAttached (MountHandle vol)) vol in
  set_AttachSession (Some session) vol.

Definition putResponse (ok : Z) (r : result Volume) : Response :=
  match r with
  | Ok persisted => respondJSON ok (PVolume persisted)
  | Err err => storeError (Error_text err)
  end.

Definition deleteResponse (r : option error) : Response :=
  match r with
  | None => respondJSON StatusNoContent PNone
  | Some ErrVolumeNotFound => notFound
  | Some err => storeError (Error_text err)
  end.

Definition newSnapshot (volumeID note : string) (env : Env) : Snapshot :=
  {| SnapshotID := "snap-" +:+ shortID (uuid env 0); snap_VolumeID := volumeID;
     snap_CreatedAt := now env 0; snap_Note := note |}.

Definition snapshotResponse (r : result Snapshot) : Response :=
  match r with
  | Ok persisted => respondJSON StatusCreated (PSnapshot persisted)
  | Err ErrVolumeNotFound => notFound
  | Err err => storeError (Error_text err)
  end.

Definition snapshotNote (body : Decoded createSnapshotRequest) : string :=
  match body with DecodeOk req => snapreq_Note req | _ => "" end.

(** The principal [handleAttachVolume] compares with the owner: the
    one in the body, or the caller's when the body names none. *)
Definition attachPrincipal (caller : string) (req : attachRequest) : string :=
  if bool_decide (att_Principal req = "") then caller else att_Principal req.

Definition newSession (caller : string) (req : attachRequest) (env : Env) : Session :=
  {| SessionID := if String.eqb (att_SessionID req) ""
                  then "sess-" +:+ shortID (uuid env 0) else att_SessionID req;
     Principal := attachPrincipal caller req;
     ConsumerEndpoint := att_ConsumerEndpoint req;
     AttachedAt := now env 0 |}.

(** ** Attach state and session *)

(** [attach_session] is non-null exactly when [attach_state] is
    [attached]. *)
Definition attach_consistent (v : Volume) : Prop :=
  is_Some (AttachSession v) ↔ AttachState v = "attached".

Definition store_consistent (st : FileStore) : Prop :=
  ∀ id v, volumes st !! id = Some v → attach_consistent v.

(** One operation on the store.  [allowed] says which records the
    registry's update ([PutVolume] called directly) may be given. *)
Inductive step (srv : Server) (allowed : Volume → Prop) : FileStore → FileStore → Prop :=
  | step_create ctx body env st :
      step srv allowed st (handleCreateVolume srv ctx body env st).1
  | step_attach ctx id body env st :
      step srv allowed st (handleAttachVolume srv ctx id body env st).1
  | step_detach ctx id body env st :
      step srv allowed st (handleDetachVolume srv ctx id body env st).1
  | step_delete ctx id env st :
      step srv allowed st (handleDeleteVolume srv ctx id env st).1
  | step_snapshot ctx id body env st :
      step srv allowed st (handleCreateSnapshot srv ctx id body env st).1
  | step_checkpoint ctx body env st :
      step srv allowed st (handleCreateCheckpoint srv ctx body env st).1
  | step_update now io v st :
      allowed v → step srv allowed st (PutVolume now io v st).1.

(** The states a run of operations reaches from the empty store. *)
Inductive reachable (srv : Server) (allowed : Volume → Prop) : FileStore → Prop :=
  | reachable_empty disk :
      reachable srv allowed {| volumes := ∅; snaps := ∅; cp := ∅; file := disk |}
  | reachable_step st st' :
      reachable srv allowed st → step srv allowed st st' → reachable srv allowed st'.

(** C2, as the spec words it: the update of the registry is one of the
    operations, with any record as its argument. *)
Definition attach_consistency_under_any_update : Prop :=
  ∀ srv st, reachable srv (λ _, True) st → store_consistent st.

(** A record that claims to be attached and carries no session. *)
Definition sessionlessAttached : Volume :=
  set_AttachState "attached" (set_VolumeID "vol-0badcafe" zeroVolume).

(** Create, attach, detach, detach again. *)
Definition attachBody : Decoded attachRequest :=
  DecodeOk {| att_Principal := "service:app1"; att_SessionID := "";
              att_ConsumerEndpoint := "podman://piccolod/app1" |}.
Definition afterCreate : FileStore :=
  (handleCreateVolume devServer None (DecodeOk app1Request) calmEnv emptyStore).1.
Definition afterAttach : FileStore :=
  (handleAttachVolume devServer None "vol-4d3c9b1e" attachBody calmEnv afterCreate).1.
Definition afterDetach : FileStore :=
  (handleDetachVolume devServer None "vol-4d3c9b1e" DecodeEOF calmEnv afterAttach).1.
Definition afterDetachTwice : FileStore :=
  (handleDetachVolume devServer None "vol-4d3c9b1e" DecodeEOF calmEnv afterDetach).1.

(** ** Detach *)

(** The caller may detach [vol]: it is the owner, or the server has no
    token provider. *)
Definition detach_authorised (srv : Server) (ctx : option string) (vol : Volume) : Prop :=
  match tokens srv with
  | Some _ => ctx = Some (OwnerPrincipal vol)
  | None => True
  end.



Definition demoTokens : TokenProvider :=
  {[ "secrettoken123" := "service:app1"; "othertoken456" := "service:mallory" ]}.

Definition laterEnv : Env :=
  {| uuid := λ _, "0f1e2d3c-8a6f-4c50-9d2b-4d3c9b1e4b5a";
     now := λ n, 1800 + Z.of_nat n;
     io := λ _, None |}.

(** ** Checkpoints *)

(** The snapshot the checkpoint loop adds for a volume without one. *)
Definition autoSnapshot (env : Env) (k : nat) (vid : string) : Snapshot :=
  {| SnapshotID := "snap-" +:+ shortID (uuid env k); snap_VolumeID := vid;
     snap_CreatedAt := now env k; snap_Note := "auto-generated for checkpoint" |}.

(** The id the manifest records for [vid]: that of its latest snapshot. *)
Definition latestID (st : FileStore) (vid : string) : string :=
  default "" (SnapshotID <$> LatestSnapshot vid st).

(** Every requested volume is stored and, with a token provider, owned
    by the caller. *)
Definition checkpoint_accepted (srv : Server) (principal : string) (st : FileStore)
    (vids : list string) : Prop :=
  ∀ vid, vid ∈ vids →
    ∃ vol, volumes st !! vid = Some vol ∧
           (hasTokens srv = true → OwnerPrincipal vol = principal).

(** What the loop leaves in the history of [vid], given the history [l]
    it found: a history that is not empty is kept; an empty one gets one
    automatic snapshot when [vid] is among the requested volumes. *)
Definition history_after (vids : list string) (vid : string) (l l' : list Snapshot) : Prop :=
  match l with
  | [] =>
      if bool_decide (vid ∈ vids) then
        ∃ snap, l' = [snap] ∧ snap_VolumeID snap = vid ∧
                snap_Note snap = "auto-generated for checkpoint"
      else l' = []
  | _ => l' = l
  end.

(** The volumes a checkpoint request covers: those it lists or, when it
    lists none, every volume of the caller (every volume at all when the
    server has no token provider). *)
Definition checkpointVolumes (srv : Server) (ctx : option string)
    (req : createCheckpointRequest) (st : FileStore) : list string :=
  match cpreq_VolumeIDs req with
  | [] =>
      if hasTokens srv
      then VolumeID <$> ListVolumesByOwner (principalFromContext ctx).1 st
      else VolumeID <$> ListVolumes st
  | ids => ids
  end.

(** The scope of a checkpoint request, read off the volume map: the ids
    the request lists or, when it lists none, the [volume_id] of every
    stored volume, and with a token provider of the caller's only. *)
Definition checkpoint_scope (srv : Server) (ctx : option string)
    (req : createCheckpointRequest) (st : FileStore) (vids : list string) : Prop :=
  match cpreq_VolumeIDs req with
  | [] =>
      ∃ vs, vids = VolumeID <$> vs ∧
            ∀ v, v ∈ vs ↔ (∃ id, volumes st !! id = Some v) ∧
                          (hasTokens srv = true → Some (OwnerPrincipal v) = ctx)
  | ids => vids = ids
  end.

(** [sid] is the id of the newest snapshot of the history [l], the one
    at its end. *)
Definition newest_id (l : list Snapshot) (sid : string) : Prop :=
  ∃ older newest, l = older ++ [newest] ∧ SnapshotID newest = sid.

(** Two snapshots of the volume of [service:app1], taken one after the
    other. *)
Definition twoSnapshots : FileStore :=
  (handleCreateSnapshot devServer None "vol-4d3c9b1e" DecodeEOF laterEnv
     (handleCreateSnapshot devServer None "vol-4d3c9b1e" DecodeEOF calmEnv afterCreate).1).1.
Definition checkpointOne : createCheckpointRequest :=
  {| cpreq_VolumeIDs := ["vol-4d3c9b1e"]; cpreq_Note := "" |}.

(** A checkpoint over every volume, on the store that holds the one
    volume of [service:app1] and no snapshot; then a second one. *)
Definition checkpointAll : createCheckpointRequest :=
  {| cpreq_VolumeIDs := []; cpreq_Note := "" |}.
Definition afterCheckpoint : FileStore :=
  (handleCreateCheckpoint devServer None (DecodeOk checkpointAll) calmEnv afterCreate).1.

(** ** Listing checkpoints *)

(** [sid] is the id of a snapshot in the history kept under [vid]. *)
Definition snapshot_of (st : FileStore) (vid sid : string) : Prop :=
  ∃ snap, snap ∈ ListSnapshots vid st ∧ SnapshotID snap = sid.

(** [principal] owns a stored volume whose id is [vid]. *)
Definition owns (st : FileStore) (principal vid : string) : Prop :=
  ∃ v, v ∈ ListVolumes st ∧ VolumeID v = vid ∧ OwnerPrincipal v = principal.

(** No snapshot id occurs in the histories of two volumes. *)
Definition unique_histories (st : FileStore) : Prop :=
  ∀ sid vid1 vid2, snapshot_of st vid1 sid → snapshot_of st vid2 sid → vid1 = vid2.

(** The manifests in a response. *)
Definition listed (resp : Response) : list Checkpoint :=
  match payload resp with
  | PCheckpoints cs => cs
  | _ => []
  end.

(** C5, as the spec words it: a manifest is listed exactly when each of
    its snapshot ids is in the history of a volume of the caller. *)
Definition lists_fully_owned_manifests : Prop :=
  ∀ (tp : TokenProvider) (principal : string) (st : FileStore) (c : Checkpoint),
    unique_histories st →
    c ∈ listed (handleListCheckpoints (authServer tp) (Some principal) st) ↔
    c ∈ ListCheckpoints st ∧
    ∀ sid, sid ∈ SnapshotIDs c → ∃ vid, snapshot_of st vid sid ∧ owns st principal vid.

(** A store whose one manifest names a snapshot that no history holds. *)
Definition danglingManifest : Checkpoint :=
  {| ManifestID := "chk-0badcafe"; SnapshotIDs := ["snap-deadbeef"];
     cp_CreatedAt := 1700; cp_Note := "" |}.
Definition danglingStore : FileStore :=
  {| volumes := ∅; snaps := ∅; cp := {[ "chk-0badcafe" := danglingManifest ]};
     file := FileAbsent |}.

(** ** The state file *)

(** Every [quota_bytes] is an [int64]. *)
Definition quotas_int64 (s : FileStore) : Prop :=
  map_Forall (λ _ v, - 2 ^ 63 ≤ QuotaBytes v < 2 ^ 63) (volumes s).







(** ** Invariants, effects and outcomes of requests *)

(** Two stores that hold the same volumes, histories and manifests in
    memory, whatever their state files hold. *)
Definition same_memory (s1 s2 : FileStore) : Prop :=
  volumes s1 = volumes s2 ∧ snaps s1 = snaps s2 ∧ cp s1 = cp s2.

(** Every record is stored under its own id: volumes under [volume_id],
    manifests under [manifest_id], and a snapshot in the history of the
    volume it names. *)
Definition keys_consistent (st : FileStore) : Prop :=
  (∀ id v, volumes st !! id = Some v → VolumeID v = id) ∧
  (∀ mid c, cp st !! mid = Some c → ManifestID c = mid) ∧
  (∀ vid snap, snap ∈ ListSnapshots vid st → snap_VolumeID snap = vid).

(** The derived fields of a volume record agree with the fields they are
    derived from. *)
Definition volume_wellformed (v : Volume) : Prop :=
  State (MountHandle v) = AttachState v ∧
  Mode (MountHandle v) = ExportMode v ∧
  HostPath (MountHandle v) = path_Join "/run/aionfs/mounts" (VolumeID v) ∧
  (AttachState v = "available" ∨ AttachState v = "attached") ∧
  ExportMode v ≠ "" ∧
  Class v ≠ "" ∧
  (∀ session, AttachSession v = Some session → Principal session = OwnerPrincipal v).

(** Every snapshot id that a stored manifest lists is in some history. *)
Definition manifests_resolved (st : FileStore) : Prop :=
  ∀ mid c sid, cp st !! mid = Some c → sid ∈ SnapshotIDs c → ∃ vid, snapshot_of st vid sid.

(** Histories only grow at the end, and what is added under [vid] names
    [vid]. *)
Definition histories_grow (st st' : FileStore) : Prop :=
  (∀ vid, ListSnapshots vid st `prefix_of` ListSnapshots vid st') ∧
  (∀ vid snap, snap ∈ ListSnapshots vid st' →
               snap ∈ ListSnapshots vid st ∨ snap_VolumeID snap = vid).

(** The record a request hands to [PutVolume]: a new volume, a stored
    volume with a new session of its owner, a stored volume without its
    session, or the argument of a direct update. *)
Definition written (allowed : Volume → Prop) (st : FileStore) (v : Volume) : Prop :=
  (∃ req owner u, v = createdVolume req owner u) ∨
  (∃ id vol session, volumes st !! id = Some vol ∧
                     Principal session = OwnerPrincipal vol ∧ v = attached session vol) ∨
  (∃ id vol, volumes st !! id = Some vol ∧ v = detached vol) ∨
  allowed v.

(** What a step may do to the three maps. *)
Definition step_frame (allowed : Volume → Prop) (st st' : FileStore) : Prop :=
  histories_grow st st' ∧
  (cp st' = cp st ∨
   ∃ manifest, cp st' = <[ManifestID manifest := manifest]> (cp st) ∧
               ∀ sid, sid ∈ SnapshotIDs manifest → ∃ vid, snapshot_of st' vid sid) ∧
  (volumes st' = volumes st ∨
   (∃ id, volumes st' = delete id (volumes st)) ∨
   ∃ now v, written allowed st v ∧
            volumes st' = <[VolumeID v := stamped now v st]> (volumes st)).

(** The state file holds the encoding of the three maps. *)
Definition persisted (st : FileStore) : Prop :=
  file st = FileJSON (enc_fileState (volumes st) (snaps st) (cp st)).

(** The routes whose handlers write to the store. *)
Definition mutating (r : Router.ApiRoute) : bool :=
  match r with
  | Router.PostVolumes _ | Router.PostCheckpoints _ | Router.PostAttach _ _
  | Router.PostDetach _ _ | Router.PostSnapshots _ _ | Router.DeleteVolumeByID _ => true
  | _ => false
  end.

(** The route of create-checkpoint, the one handler with a loop of store
    operations. *)
Definition is_checkpoint (r : Router.ApiRoute) : bool :=
  match r with Router.PostCheckpoints _ => true | _ => false end.

(** What a handler answers: its response untouched by the store, or the
    response to the outcome of the store operation it ran. *)
Inductive outcome (st : FileStore) : FileStore * Response → Prop :=
  | refused resp :
      400 ≤ status resp < 500 → outcome st (st, resp)
  | ran_PutVolume ok now io v :
      200 ≤ ok < 300 →
      outcome st ((PutVolume now io v st).1, putResponse ok (PutVolume now io v st).2)
  | ran_DeleteVolume io id :
      outcome st ((DeleteVolume io id st).1, deleteResponse (DeleteVolume io id st).2)
  | ran_AddSnapshot io vid snap :
      outcome st ((AddSnapshot io vid snap st).1,
                  snapshotResponse (AddSnapshot io vid snap st).2).

(** A printable ASCII character other than the space. *)
Definition graphic (a : Ascii.ascii) : bool :=
  let n := Ascii.N_of_ascii a in ((33 <=? n) && (n <=? 126))%N.

(** The volume id in the URL of a route, when it has one. *)
Definition id_of_route (r : Router.ApiRoute) : option string :=
  match r with
  | Router.GetVolumeByID id | Router.PostAttach id _ | Router.PostDetach id _
  | Router.PostSnapshots id _ | Router.GetSnapshots id | Router.DeleteVolumeByID id => Some id
  | _ => None
  end.


(** * Properties *)

(** ** The volume registry *)

Section registry.
Implicit Types (s : FileStore) (v : Volume) (id : string).

Lemma flushLocked_mem io s :
  volumes (flushLocked io s).1 = volumes s ∧
  snaps (flushLocked io s).1 = snaps s ∧
  cp (flushLocked io s).1 = cp s.
Proof. by destruct io. Qed.

Lemma flushLocked_result io s :
  (flushLocked io s).2 = ErrOther <$> io.
Proof. by destruct io. Qed.


Lemma PutVolume_mem now io v s :
  volumes (PutVolume now io v s).1 = <[VolumeID v := stamped now v s]> (volumes s) ∧
  snaps (PutVolume now io v s).1 = snaps s ∧
  cp (PutVolume now io v s).1 = cp s.
Proof.
  unfold PutVolume, stamped. destruct v as [vid ? ? ? ? ? ? ? ? ? ?]; simpl.
  destruct (volumes s !! vid) as [existing|]; simpl;
    [destruct (IsZero (CreatedAt existing)); simpl|]; by destruct io.
Qed.

Lemma PutVolume_result now io v s :
  (PutVolume now io v s).2 =
    match io with
    | None => Ok (stamped now v s)
    | Some msg => Err (ErrOther msg)
    end.
Proof.
  unfold PutVolume, stamped. destruct v as [vid ? ? ? ? ? ? ? ? ? ?]; simpl.
  destruct (volumes s !! vid) as [existing|]; simpl;
    [destruct (IsZero (CreatedAt existing)); simpl|]; by destruct io.
Qed.

Lemma stamped_fields now v s :
  let v' := stamped now v s in
  VolumeID v' = VolumeID v ∧ OwnerPrincipal v' = OwnerPrincipal v ∧
  Class v' = Class v ∧ QuotaBytes v' = QuotaBytes v ∧
  PolicyProfile v' = PolicyProfile v ∧ ExportMode v' = ExportMode v ∧
  MountHandle v' = MountHandle v ∧ AttachState v' = AttachState v ∧
  AttachSession v' = AttachSession v ∧ UpdatedAt v' = now.
Proof. unfold stamped. by destruct v. Qed.

Lemma stamped_CreatedAt now v s :
  CreatedAt (stamped now v s) =
    match volumes s !! VolumeID v with
    | Some existing => if IsZero (CreatedAt existing) then now else CreatedAt existing
    | None => now
    end.
Proof. unfold stamped. by destruct v. Qed.
End registry.

(** C7, counterexample: the stored record has the zero [created_at]; the
    update stamps it with the time of the update, here 1700. *)
Lemma PutVolume_zero_created_at_restamped : ¬ PutVolume_keeps_created_at.
Proof.
  intros H.
  destruct (H 1700 None legacyVolume legacyVolume legacyStore) as (v' & Hv' & Hc).
  { reflexivity. }
  destruct (PutVolume_mem 1700 None legacyVolume legacyStore) as (Hm & _).
  rewrite Hm, lookup_insert_eq in Hv'. injection Hv' as <-.
  rewrite stamped_CreatedAt in Hc. vm_compute in Hc. discriminate Hc.
Qed.

(** C7 (amended): [PutVolume] stores its argument under its id with
    [updated_at] set to the time of the call; [created_at] is the stored
    record's when that id is stored with a non-zero [created_at], and the
    time of the call otherwise (new id, or stored with the zero time).
    All other fields are the argument's, and the in-memory update does not
    depend on the outcome of the flush. *)
Theorem PutVolume_upsert (now : Time) (io : option string) (v : Volume) (s : FileStore) :
  ∃ v', volumes (PutVolume now io v s).1 !! VolumeID v = Some v' ∧
        UpdatedAt v' = now ∧
        CreatedAt v' =
          match volumes s !! VolumeID v with
          | Some existing =>
              if IsZero (CreatedAt existing) then now else CreatedAt existing
          | None => now
          end ∧
        set_CreatedAt 0 (set_UpdatedAt 0 v') = set_CreatedAt 0 (set_UpdatedAt 0 v) ∧
        (PutVolume now io v s).2 =
          match io with None => Ok v' | Some msg => Err (ErrOther msg) end.
Proof.
  exists (stamped now v s).
  destruct (PutVolume_mem now io v s) as (-> & _ & _).
  rewrite lookup_insert_eq, PutVolume_result, stamped_CreatedAt.
  split_and!; try done.
  - by destruct v.
  - unfold stamped. by destruct v.
Qed.

Lemma DeleteVolume_result (io : option string) (id : string) (s : FileStore) :
  (DeleteVolume io id s).2 =
    match volumes s !! id with
    | Some _ => ErrOther <$> io
    | None => Some ErrVolumeNotFound
    end.
Proof.
  unfold DeleteVolume. destruct (volumes s !! id); [|done]. by rewrite flushLocked_result.
Qed.

(** C8: [DeleteVolume] of an id that is not stored returns
    [ErrVolumeNotFound] and changes nothing, the state file included; of a
    stored id it removes that one entry of the volume map and leaves every
    other volume, every snapshot history (the deleted volume's too) and
    every checkpoint as they were. *)
Theorem DeleteVolume_frame (io : option string) (id : string) (s : FileStore) :
  match volumes s !! id with
  | None => DeleteVolume io id s = (s, Some ErrVolumeNotFound)
  | Some _ =>
      let s' := (DeleteVolume io id s).1 in
      (DeleteVolume io id s).2 = ErrOther <$> io ∧
      volumes s' = delete id (volumes s) ∧
      (∀ id', volumes s' !! id' = if decide (id' = id) then None else volumes s !! id') ∧
      snaps s' = snaps s ∧
      cp s' = cp s
  end.
Proof.
  unfold DeleteVolume. destruct (volumes s !! id) as [v|] eqn:Hv; [|done].
  simpl. rewrite flushLocked_result.
  destruct (flushLocked_mem io (set_volumes (delete id (volumes s)) s)) as (-> & -> & ->).
  simpl. split_and!; try done.
  intros id'. case_decide as Hid.
  - subst. apply lookup_delete_eq.
  - by apply lookup_delete_ne.
Qed.

(** ** Generated identifiers *)

Example is_uuid_string_ex : is_uuid_string "4d3C9b1e-8a6f-4c50-9d2b-0f1e2d3c4b5a" = true.
Proof. reflexivity. Qed.

Example is_uuid_string_short : is_uuid_string "4d3c9b1e-8a6f-4c50-9d2b-0f1e2d3c4b5" = false.
Proof. reflexivity. Qed.

Example shortID_ex : shortID "4D3C9b1e-8a6f-4c50-9d2b-0f1e2d3c4b5a" = "4d3c9b1e".
Proof. reflexivity. Qed.

Lemma lower_hex (c : Ascii.ascii) : is_hex c = true → is_lower_hex (lower c) = true.
Proof. destruct c as [[] [] [] [] [] [] [] []]; vm_compute; congruence. Qed.

Lemma all_chars_ToLower (s : string) :
  all_chars is_hex s = true → all_chars is_lower_hex (ToLower s) = true.
Proof.
  induction s as [|c s IH]; simpl; [done|].
  intros [Hc Hs]%andb_true_iff. by rewrite lower_hex, IH.
Qed.

Lemma length_ToLower (s : string) : String.length (ToLower s) = String.length s.
Proof. induction s; simpl; congruence. Qed.

Lemma shortID_hex (u : string) :
  is_uuid_string u = true →
  all_chars is_lower_hex (shortID u) = true ∧ String.length (shortID u) = 8%nat.
Proof.
  unfold is_uuid_string, shortID. cbn [hex_groups].
  intros [[H1 H2%bool_decide_eq_true]%andb_true_iff _]%andb_true_iff.
  by rewrite all_chars_ToLower, length_ToLower.
Qed.

Lemma is_volume_id_short (t : string) :
  all_chars is_lower_hex t = true → String.length t = 8%nat →
  is_volume_id ("vol-" +:+ t) = true.
Proof.
  intros Ht Hl. unfold is_volume_id.
  do 9 (destruct t as [|? t]; try discriminate Hl).
  cbv [String.append String.substring String.length String.eqb Ascii.eqb Bool.eqb].
  simpl bool_decide. simpl andb. exact Ht.
Qed.

(** ** Creating a volume *)

Lemma eqb_empty (s : string) : String.eqb s "" = bool_decide (s = "").
Proof. by destruct s. Qed.

Lemma handleCreateVolume_accepted srv ctx req env st :
  create_accepted srv ctx req →
  handleCreateVolume srv ctx (DecodeOk req) env st =
    let v := createdVolume req (create_owner srv ctx req) (uuid env 0) in
    ((PutVolume (now env 0) (io env 0) v st).1,
     match (PutVolume (now env 0) (io env 0) v st).2 with
     | Ok persisted => respondJSON StatusCreated (PVolume persisted)
     | Err err => respondError StatusInternalServerError "store_error" (Error_text err)
     end).
Proof.
  unfold handleCreateVolume, create_accepted, create_owner, hasTokens, createdVolume.
  intros Hadm. cbv zeta.
  destruct (tokens srv) as [tp|], ctx as [p|]; simpl in *; try done.
  - rewrite eqb_empty. case_bool_decide as Ho.
    + by destruct (PutVolume _ _ _ _) as [? []].
    + destruct Hadm as [|Heq]; [done|]. rewrite Heq, String.eqb_refl. simpl.
      by destruct (PutVolume _ _ _ _) as [? []].
  - rewrite eqb_empty, bool_decide_eq_false_2 by done.
    by destruct (PutVolume _ _ _ _) as [? []].
  - rewrite eqb_empty, bool_decide_eq_false_2 by done.
    by destruct (PutVolume _ _ _ _) as [? []].
Qed.

(** C9: a create-volume request that is accepted and whose flush
    succeeds is answered 201 with the record that is now stored under its
    id; in that record [class] and [export_mode] are the request's, or
    [persistent] and [fs] when the request leaves them empty,
    [attach_state] is [available] with no session, the id is [vol-]
    followed by eight characters of [0-9a-f], and the host path of the
    mount handle is [/run/aionfs/mounts/] followed by the id. *)
Theorem handleCreateVolume_record (srv : Server) (ctx : option string)
    (req : createVolumeRequest) (env : Env) (st : FileStore) :
  create_accepted srv ctx req →
  is_uuid_string (uuid env 0) = true →
  io env 0 = None →
  ∃ st' v,
    handleCreateVolume srv ctx (DecodeOk req) env st
      = (st', respondJSON StatusCreated (PVolume v)) ∧
    volumes st' !! VolumeID v = Some v ∧
    Class v = (if bool_decide (req_Class req = "") then "persistent" else req_Class req) ∧
    ExportMode v =
      (if bool_decide (req_ExportMode req = "") then "fs" else req_ExportMode req) ∧
    Mode (MountHandle v) = ExportMode v ∧
    State (MountHandle v) = "available" ∧
    AttachState v = "available" ∧
    AttachSession v = None ∧
    OwnerPrincipal v = create_owner srv ctx req ∧
    QuotaBytes v = req_QuotaBytes req ∧
    PolicyProfile v = req_PolicyProfile req ∧
    VolumeID v = "vol-" +:+ shortID (uuid env 0) ∧
    is_volume_id (VolumeID v) = true ∧
    HostPath (MountHandle v) = "/run/aionfs/mounts/" +:+ VolumeID v.
Proof.
  intros Hadm Huuid Hio.
  destruct (shortID_hex _ Huuid) as [Hhex Hlen].
  pose proof (is_volume_id_short _ Hhex Hlen) as Hid.
  set (v0 := createdVolume req (create_owner srv ctx req) (uuid env 0)).
  exists (PutVolume (now env 0) None v0 st).1, (stamped (now env 0) v0 st).
  rewrite handleCreateVolume_accepted by done. cbv zeta. fold v0.
  rewrite Hio, PutVolume_result.
  destruct (PutVolume_mem (now env 0) None v0 st) as (-> & _ & _).
  destruct (stamped_fields (now env 0) v0 st)
    as (-> & -> & -> & -> & -> & -> & -> & -> & -> & _).
  rewrite lookup_insert_eq, <-!eqb_empty.
  split_and!; done.
Qed.

Lemma handleCreateVolume_record_witness :
  ∃ st' v,
    handleCreateVolume devServer None (DecodeOk app1Request) calmEnv emptyStore
      = (st', respondJSON StatusCreated (PVolume v)) ∧
    VolumeID v = "vol-4d3c9b1e" ∧
    HostPath (MountHandle v) = "/run/aionfs/mounts/vol-4d3c9b1e" ∧
    Class v = "persistent" ∧ ExportMode v = "fs".
Proof.
  destruct (handleCreateVolume_record devServer None app1Request calmEnv emptyStore)
    as (st' & v & Hrun & _ & Hclass & Hmode & _ & _ & _ & _ & _ & _ & _ & Hid & _ & Hpath);
    [discriminate | reflexivity | reflexivity |].
  exists st', v. rewrite Hpath, Hid. repeat split; assumption.
Defined.

(** ** Ownership checks of the handlers *)

Ltac eqb_cases :=
  repeat match goal with
  | |- context [String.eqb ?a ?b] => destruct (String.eqb_spec a b); simpl
  | |- context [bool_decide ?P] => case_bool_decide; simpl
  end.

Section authenticated.
Context (tp : TokenProvider) (caller : string).
Implicit Types (st : FileStore) (id : string) (env : Env).

Lemma handleGetVolume_authenticated id st :
  handleGetVolume (authServer tp) (Some caller) id st =
    match volumes st !! id with
    | None => notFound
    | Some vol =>
        if bool_decide (OwnerPrincipal vol = caller)
        then respondJSON StatusOK (PVolume vol) else principalMismatch
    end.
Proof.
  unfold handleGetVolume, GetVolume. destruct (volumes st !! id); simpl; [|done].
  by eqb_cases.
Qed.

Lemma handleDetachVolume_authenticated id body env st :
  body ≠ DecodeErr →
  handleDetachVolume (authServer tp) (Some caller) id body env st =
    match volumes st !! id with
    | None => (st, notFound)
    | Some vol =>
        if bool_decide (OwnerPrincipal vol = caller) then
          let r := PutVolume (now env 0) (io env 0) (detached vol) st in
          (r.1, putResponse StatusOK r.2)
        else (st, principalMismatch)
    end.
Proof.
  intros Hbody. unfold handleDetachVolume, GetVolume.
  destruct body; try done; (destruct (volumes st !! id); simpl; [|done]);
    eqb_cases; try done; unfold detached; cbv zeta;
    by destruct (PutVolume _ _ _ _) as [? []].
Qed.

Lemma handleDeleteVolume_authenticated id env st :
  handleDeleteVolume (authServer tp) (Some caller) id env st =
    match volumes st !! id with
    | None => (st, notFound)
    | Some vol =>
        if bool_decide (OwnerPrincipal vol = caller) then
          let r := DeleteVolume (io env 0) id st in (r.1, deleteResponse r.2)
        else (st, principalMismatch)
    end.
Proof.
  unfold handleDeleteVolume, GetVolume. simpl.
  destruct (volumes st !! id) eqn:Hv; simpl; [|done].
  eqb_cases; try done.
  by destruct (DeleteVolume _ _ _) as [? [[]|]].
Qed.

Lemma handleCreateSnapshot_authenticated id body env st :
  body ≠ DecodeErr →
  handleCreateSnapshot (authServer tp) (Some caller) id body env st =
    match volumes st !! id with
    | None => (st, notFound)
    | Some vol =>
        if bool_decide (OwnerPrincipal vol = caller) then
          let r := AddSnapshot (io env 0) id (newSnapshot id (snapshotNote body) env) st in
          (r.1, snapshotResponse r.2)
        else (st, principalMismatch)
    end.
Proof.
  intros Hbody. unfold handleCreateSnapshot, GetVolume. simpl.
  destruct (volumes st !! id) eqn:Hv; simpl; [|done].
  eqb_cases; try done.
  unfold newSnapshot.
  destruct body; try done; simpl; by destruct (AddSnapshot _ _ _ _) as [? [|[]]].
Qed.

Lemma handleAttachVolume_authenticated id req env st :
  handleAttachVolume (authServer tp) (Some caller) id (DecodeOk req) env st =
    match volumes st !! id with
    | None => (st, notFound)
    | Some vol =>
        if bool_decide (attachPrincipal caller req = OwnerPrincipal vol) then
          let r := PutVolume (now env 1) (io env 0) (attached (newSession caller req env) vol) st in
          (r.1, putResponse StatusOK r.2)
        else (st, principalMismatch)
    end.
Proof.
  unfold handleAttachVolume, GetVolume, attachPrincipal. simpl.
  destruct (volumes st !! id) eqn:Hv; simpl; [|done].
  unfold newSession, attachPrincipal, attached. cbv zeta.
  rewrite eqb_empty. case_bool_decide as Hp; simpl.
  - destruct (String.eqb_spec caller (OwnerPrincipal v)); simpl;
      [rewrite bool_decide_eq_true_2 by done|by rewrite bool_decide_eq_false_2 by done].
    by destruct (PutVolume _ _ _ _) as [? []].
  - destruct (String.eqb_spec (att_Principal req) (OwnerPrincipal v)); simpl;
      [rewrite bool_decide_eq_true_2 by done|by rewrite bool_decide_eq_false_2 by done].
    by destruct (PutVolume _ _ _ _) as [? []].
Qed.
End authenticated.

(** ** The attach state and the session *)

Section consistency.
Implicit Types (st : FileStore) (v : Volume).

Lemma attach_consistent_stamped now v st :
  attach_consistent v → attach_consistent (stamped now v st).
Proof.
  unfold attach_consistent.
  by destruct (stamped_fields now v st) as (_ & _ & _ & _ & _ & _ & _ & -> & -> & _).
Qed.

Lemma attach_consistent_detached v : attach_consistent (detached v).
Proof.
  unfold attach_consistent. destruct v; simpl. split; [by intros [? ?]|done].
Qed.

Lemma attach_consistent_attached session v : attach_consistent (attached session v).
Proof. unfold attach_consistent. destruct v; simpl. by split; eauto. Qed.

Lemma attach_consistent_created req owner u :
  attach_consistent (createdVolume req owner u).
Proof. unfold attach_consistent. simpl. split; [by intros [? ?]|done]. Qed.

Lemma store_consistent_PutVolume now io v st :
  store_consistent st → attach_consistent v →
  store_consistent (PutVolume now io v st).1.
Proof.
  intros Hst Hv id w. destruct (PutVolume_mem now io v st) as (-> & _ & _).
  rewrite lookup_insert. case_decide.
  - intros [= <-]. by apply attach_consistent_stamped.
  - apply Hst.
Qed.

Lemma store_consistent_volumes st st' :
  volumes st' = volumes st → store_consistent st → store_consistent st'.
Proof. intros Heq Hst id v. rewrite Heq. apply Hst. Qed.

Lemma AddSnapshot_mem io vid snap st :
  volumes (AddSnapshot io vid snap st).1 = volumes st ∧
  cp (AddSnapshot io vid snap st).1 = cp st ∧
  snaps (AddSnapshot io vid snap st).1 =
    match volumes st !! vid with
    | Some _ => <[vid := ListSnapshots vid st ++ [snap]]> (snaps st)
    | None => snaps st
    end.
Proof.
  unfold AddSnapshot, ListSnapshots. destruct (volumes st !! vid); [|done].
  by destruct io.
Qed.

Lemma AddSnapshot_result io vid snap st :
  (AddSnapshot io vid snap st).2 =
    match volumes st !! vid with
    | Some _ => match io with None => Ok snap | Some msg => Err (ErrOther msg) end
    | None => Err ErrVolumeNotFound
    end.
Proof. unfold AddSnapshot. destruct (volumes st !! vid); [|done]. by destruct io. Qed.

Lemma PutCheckpoint_mem io c st :
  volumes (PutCheckpoint io c st).1 = volumes st ∧
  snaps (PutCheckpoint io c st).1 = snaps st ∧
  cp (PutCheckpoint io c st).1 = <[ManifestID c := c]> (cp st).
Proof. unfold PutCheckpoint. by destruct io. Qed.

Lemma DeleteVolume_volumes io id st :
  volumes (DeleteVolume io id st).1 = delete id (volumes st).
Proof.
  unfold DeleteVolume. destruct (volumes st !! id) eqn:Hid.
  - by destruct io.
  - by rewrite delete_id.
Qed.

Lemma store_consistent_DeleteVolume io id st :
  store_consistent st → store_consistent (DeleteVolume io id st).1.
Proof.
  intros Hst id' v. rewrite DeleteVolume_volumes.
  intros [_ ?]%lookup_delete_Some. by eapply Hst.
Qed.

Lemma collectSnapshots_volumes srv principal env k vids acc st :
  volumes (collectSnapshots srv principal env k vids acc st).1 = volumes st.
Proof.
  revert k acc st. induction vids as [|vid vids IH]; intros k acc st; simpl; [done|].
  unfold GetVolume. destruct (volumes st !! vid) eqn:Hv; [|done].
  destruct (_ && _); [done|].
  destruct (LatestSnapshot vid st); [apply IH|].
  pose proof (AddSnapshot_mem (io env k) vid
    {| SnapshotID := "snap-" +:+ shortID (uuid env k); snap_VolumeID := vid;
       snap_CreatedAt := now env k; snap_Note := "auto-generated for checkpoint" |} st)
    as (Hvol & _ & _).
  destruct (AddSnapshot _ _ _ _) as [st1 [created|err]]; simpl in *; [|done].
  by rewrite IH.
Qed.
End consistency.

Section preservation.
Context (srv : Server).
Implicit Types (st : FileStore) (v : Volume) (ctx : option string).

Local Ltac by_put :=
  match goal with
  | |- context [PutVolume ?n ?i ?v ?s] =>
      let H := fresh in
      pose proof (store_consistent_PutVolume n i v s) as H;
      destruct (PutVolume n i v s) as [? []]; simpl in *; apply H
  end.

Local Ltac branches :=
  repeat match goal with
  | |- context [match ?x with _ => _ end] =>
      lazymatch x with
      | PutVolume _ _ _ _ => fail
      | AddSnapshot _ _ _ _ => fail
      | DeleteVolume _ _ _ => fail
      | _ => destruct x eqn:?; simpl
      end
  end.

Lemma handleCreateVolume_consistent ctx body env st :
  store_consistent st → store_consistent (handleCreateVolume srv ctx body env st).1.
Proof.
  intros Hst. unfold handleCreateVolume, principalFromContext. cbv zeta.
  branches; try done; by_put; try done;
    (split; [by intros [? ?]|done]).
Qed.

Lemma handleAttachVolume_consistent ctx id body env st :
  store_consistent st → store_consistent (handleAttachVolume srv ctx id body env st).1.
Proof.
  intros Hst. unfold handleAttachVolume, principalFromContext. cbv zeta.
  branches; try done; by_put; try done;
    exact (attach_consistent_attached _ _).
Qed.

Lemma handleDetachVolume_consistent ctx id body env st :
  store_consistent st → store_consistent (handleDetachVolume srv ctx id body env st).1.
Proof.
  intros Hst. unfold handleDetachVolume, principalFromContext. cbv zeta.
  branches; try done; by_put; try done;
    exact (attach_consistent_detached _).
Qed.

Lemma handleDeleteVolume_consistent ctx id env st :
  store_consistent st → store_consistent (handleDeleteVolume srv ctx id env st).1.
Proof.
  intros Hst. unfold handleDeleteVolume, principalFromContext. cbv zeta.
  pose proof (store_consistent_DeleteVolume (io env 0) id st Hst) as Hdel.
  branches; try done; destruct (DeleteVolume _ _ _) as [? [[]|]]; simpl in *; done.
Qed.

Lemma handleCreateSnapshot_volumes ctx id body env st :
  volumes (handleCreateSnapshot srv ctx id body env st).1 = volumes st.
Proof.
  unfold handleCreateSnapshot, principalFromContext. cbv zeta.
  branches; try done;
    match goal with
    | |- context [AddSnapshot ?i ?vid ?snap ?s] =>
        destruct (AddSnapshot_mem i vid snap s) as (Hv & _ & _);
        destruct (AddSnapshot i vid snap s) as [? [|[]]]; simpl in *; exact Hv
    end.
Qed.

Lemma handleCreateCheckpoint_volumes ctx body env st :
  volumes (handleCreateCheckpoint srv ctx body env st).1 = volumes st.
Proof.
  unfold handleCreateCheckpoint, principalFromContext. cbv zeta.
  destruct ctx; simpl; destruct (hasTokens srv); simpl; try done;
    (destruct body as [req| |]; simpl; try done);
    match goal with
    | |- context [collectSnapshots ?a ?b ?c ?d ?e ?f ?g] =>
        pose proof (collectSnapshots_volumes a b c d e f g) as Hc;
        destruct (collectSnapshots a b c d e f g) as [st1 [resp|ids]]; simpl in *;
        [exact Hc|]
    end;
    match goal with
    | |- context [PutCheckpoint ?i ?c ?s] =>
        destruct (PutCheckpoint_mem i c s) as (Hp & _ & _);
        destruct (PutCheckpoint i c s) as [? []]; simpl in *; congruence
    end.
Qed.

Lemma step_consistent allowed st st' :
  (∀ v, allowed v → attach_consistent v) →
  step srv allowed st st' → store_consistent st → store_consistent st'.
Proof.
  intros Hallowed Hstep Hst. destruct Hstep.
  - by apply handleCreateVolume_consistent.
  - by apply handleAttachVolume_consistent.
  - by apply handleDetachVolume_consistent.
  - by apply handleDeleteVolume_consistent.
  - eapply store_consistent_volumes; [apply handleCreateSnapshot_volumes|done].
  - eapply store_consistent_volumes; [apply handleCreateCheckpoint_volumes|done].
  - apply store_consistent_PutVolume; auto.
Qed.
End preservation.

Lemma reachable_consistent srv allowed st :
  (∀ v, allowed v → attach_consistent v) →
  reachable srv allowed st → store_consistent st.
Proof.
  intros Hallowed. induction 1 as [disk|st st' _ IH Hstep].
  - intros id v. simpl. by rewrite lookup_empty.
  - by eapply step_consistent.
Qed.

Lemma handleCreateVolume_created srv ctx body env st st' v :
  handleCreateVolume srv ctx body env st = (st', respondJSON StatusCreated (PVolume v)) →
  AttachState v = "available" ∧ AttachSession v = None.
Proof.
  unfold handleCreateVolume, principalFromContext. cbv zeta.
  repeat match goal with
  | |- context [match ?x with _ => _ end] =>
      lazymatch x with
      | PutVolume _ _ _ _ => fail
      | _ => destruct x eqn:?; simpl
      end
  end; try discriminate;
  match goal with
  | |- context [PutVolume ?n ?i ?w ?s] =>
      pose proof (PutVolume_result n i w s) as Hres;
      destruct (PutVolume n i w s) as [? []]; simpl in *;
      destruct i; try discriminate
  end;
  intros [= _ <-]; injection Hres as ->; by unfold stamped.
Qed.

(** C2, counterexample: one update of the empty store with
    [sessionlessAttached] stores it as it is. *)
Lemma update_stores_inconsistent_record : ¬ attach_consistency_under_any_update.
Proof.
  intros H.
  assert (reachable devServer (λ _, True)
            (PutVolume 1700 None sessionlessAttached emptyStore).1) as Hreach.
  { eapply reachable_step; [apply reachable_empty|]. by apply step_update. }
  apply H in Hreach.
  destruct (PutVolume_mem 1700 None sessionlessAttached emptyStore) as (Hm & _ & _).
  specialize (Hreach "vol-0badcafe" (stamped 1700 sessionlessAttached emptyStore)).
  rewrite Hm in Hreach. destruct Hreach as [_ Hsess].
  - apply lookup_insert_eq.
  - destruct Hsess as [session Hsess]; [reflexivity|]. discriminate Hsess.
Qed.

(** C2 (amended): in every state that create, attach, detach, delete,
    add-snapshot and create-checkpoint requests reach from the empty
    store, interleaved with updates of the registry whose argument itself
    has a session exactly when it is [attached], every stored volume has a
    session exactly when its [attach_state] is [attached]; and the record
    returned by a successful create is [available] with no session. *)
Theorem attach_session_iff_attached (srv : Server) (st : FileStore) :
  reachable srv attach_consistent st →
  (∀ id v, volumes st !! id = Some v →
     (is_Some (AttachSession v) ↔ AttachState v = "attached")) ∧
  (∀ ctx body env st' v,
     handleCreateVolume srv ctx body env st = (st', respondJSON StatusCreated (PVolume v)) →
     AttachState v = "available" ∧ AttachSession v = None).
Proof.
  intros Hreach. split.
  - by apply (reachable_consistent srv attach_consistent).
  - intros ctx body env st' v. apply handleCreateVolume_created.
Qed.

Lemma attach_session_iff_attached_witness :
  (∃ v, volumes afterAttach !! "vol-4d3c9b1e" = Some v ∧ AttachState v = "attached" ∧
        is_Some (AttachSession v)) ∧
  ∀ id v, volumes afterDetachTwice !! id = Some v →
    (is_Some (AttachSession v) ↔ AttachState v = "attached").
Proof.
  split.
  - eexists. split; [vm_compute; reflexivity|]. split; [reflexivity|]. by eexists.
  - apply (attach_session_iff_attached devServer afterDetachTwice).
    eapply reachable_step; [|apply step_detach].
    eapply reachable_step; [|apply step_detach].
    eapply reachable_step; [|apply step_attach].
    eapply reachable_step; [|apply step_create].
    apply reachable_empty.
Defined.

(** ** Detach *)

Lemma handleDetachVolume_authorised srv ctx id body env st vol :
  volumes st !! id = Some vol → body ≠ DecodeErr → detach_authorised srv ctx vol →
  handleDetachVolume srv ctx id body env st =
    let r := PutVolume (now env 0) (io env 0) (detached vol) st in
    (r.1, putResponse StatusOK r.2).
Proof.
  intros Hvol Hbody Hauth.
  unfold handleDetachVolume, GetVolume, detach_authorised, hasTokens, detached in *.
  rewrite Hvol. cbv zeta.
  destruct body; try done; destruct (tokens srv); subst; simpl;
    rewrite ?String.eqb_refl; simpl; try (destruct ctx; simpl);
    by destruct (PutVolume _ _ _ _) as [? []].
Qed.


Lemma handleDetachVolume_ok_iff srv ctx id body env st :
  status (handleDetachVolume srv ctx id body env st).2 = StatusOK ↔
  body ≠ DecodeErr ∧ io env 0 = None ∧
  ∃ vol, volumes st !! id = Some vol ∧ detach_authorised srv ctx vol.
Proof.
  split.
  - unfold handleDetachVolume, GetVolume, detach_authorised, hasTokens.
    destruct body; try discriminate;
      (destruct (volumes st !! id) as [vol|]; [|discriminate]);
      (destruct (tokens srv), ctx as [p|]; simpl; try discriminate);
      try (destruct (String.eqb_spec (OwnerPrincipal vol) p) as [<-|]; simpl;
           [|discriminate]);
      match goal with
      | |- context [PutVolume ?n ?i ?w ?s] =>
          pose proof (PutVolume_result n i w s) as Hres;
          destruct (PutVolume n i w s) as [? []]; simpl in *;
          destruct i; try discriminate
      end; eauto 10.
  - intros (Hbody & Hio & vol & Hvol & Hauth).
    rewrite (handleDetachVolume_authorised srv ctx id body env st vol) by done.
    cbv zeta. by rewrite PutVolume_result, Hio.
Qed.



(** ** Ownership enforcement *)

Section ownership.
Context (tp : TokenProvider) (caller : string).
Implicit Types (st : FileStore) (id : string) (env : Env) (vol : Volume).

(** An id that is not stored is answered [not_found], whoever asks. *)
Lemma not_found_before_ownership id env st :
  volumes st !! id = None →
  handleGetVolume (authServer tp) (Some caller) id st = notFound ∧
  (∀ req, handleAttachVolume (authServer tp) (Some caller) id (DecodeOk req) env st
          = (st, notFound)) ∧
  (∀ body, body ≠ DecodeErr →
     handleDetachVolume (authServer tp) (Some caller) id body env st = (st, notFound)) ∧
  (∀ body, body ≠ DecodeErr →
     handleCreateSnapshot (authServer tp) (Some caller) id body env st = (st, notFound)) ∧
  handleDeleteVolume (authServer tp) (Some caller) id env st = (st, notFound).
Proof.
  intros Hid. split_and!; intros.
  - by rewrite handleGetVolume_authenticated, Hid.
  - by rewrite handleAttachVolume_authenticated, Hid.
  - by rewrite handleDetachVolume_authenticated, Hid.
  - by rewrite handleCreateSnapshot_authenticated, Hid.
  - by rewrite handleDeleteVolume_authenticated, Hid.
Qed.

(** Get, detach, add-snapshot and delete compare the owner with the
    caller; attach compares it with [attachPrincipal]. *)
Lemma non_owner_refused id env st vol :
  volumes st !! id = Some vol → OwnerPrincipal vol ≠ caller →
  handleGetVolume (authServer tp) (Some caller) id st = principalMismatch ∧
  (∀ body, body ≠ DecodeErr →
     handleDetachVolume (authServer tp) (Some caller) id body env st
     = (st, principalMismatch)) ∧
  (∀ body, body ≠ DecodeErr →
     handleCreateSnapshot (authServer tp) (Some caller) id body env st
     = (st, principalMismatch)) ∧
  handleDeleteVolume (authServer tp) (Some caller) id env st = (st, principalMismatch) ∧
  (∀ req, attachPrincipal caller req ≠ OwnerPrincipal vol →
     handleAttachVolume (authServer tp) (Some caller) id (DecodeOk req) env st
     = (st, principalMismatch)).
Proof.
  intros Hid Hne. split_and!; intros.
  - by rewrite handleGetVolume_authenticated, Hid, bool_decide_eq_false_2.
  - by rewrite handleDetachVolume_authenticated, Hid, bool_decide_eq_false_2.
  - by rewrite handleCreateSnapshot_authenticated, Hid, bool_decide_eq_false_2.
  - by rewrite handleDeleteVolume_authenticated, Hid, bool_decide_eq_false_2.
  - by rewrite handleAttachVolume_authenticated, Hid, bool_decide_eq_false_2.
Qed.

Lemma owner_served id env st vol :
  volumes st !! id = Some vol → OwnerPrincipal vol = caller → io env 0 = None →
  status (handleGetVolume (authServer tp) (Some caller) id st) = StatusOK ∧
  (∀ body, body ≠ DecodeErr →
     status (handleDetachVolume (authServer tp) (Some caller) id body env st).2
     = StatusOK) ∧
  (∀ body, body ≠ DecodeErr →
     status (handleCreateSnapshot (authServer tp) (Some caller) id body env st).2
     = StatusCreated) ∧
  status (handleDeleteVolume (authServer tp) (Some caller) id env st).2
    = StatusNoContent ∧
  (∀ req, attachPrincipal caller req = OwnerPrincipal vol →
     status (handleAttachVolume (authServer tp) (Some caller) id (DecodeOk req) env st).2
     = StatusOK).
Proof.
  intros Hid Hown Hio. split_and!; intros.
  - by rewrite handleGetVolume_authenticated, Hid, bool_decide_eq_true_2.
  - rewrite handleDetachVolume_authenticated, Hid, bool_decide_eq_true_2 by done.
    cbv zeta. by rewrite PutVolume_result, Hio.
  - rewrite handleCreateSnapshot_authenticated, Hid, bool_decide_eq_true_2 by done.
    cbv zeta. by rewrite AddSnapshot_result, Hid, Hio.
  - rewrite handleDeleteVolume_authenticated, Hid, bool_decide_eq_true_2 by done.
    cbv zeta. by rewrite DeleteVolume_result, Hid, Hio.
  - rewrite handleAttachVolume_authenticated, Hid, bool_decide_eq_true_2 by done.
    cbv zeta. by rewrite PutVolume_result, Hio.
Qed.
End ownership.

(** C1 (the code departs from it): [handleAttachVolume] compares the
    owner with the principal named in the request body and looks at the
    caller's own principal only when the body names none.  So whoever
    holds a valid token attaches a volume by naming its owner in the body:
    the request is answered 200 and the volume is stored as attached, with
    a session for the owner. *)
Theorem handleAttachVolume_trusts_body_principal (tp : TokenProvider) (caller id : string)
    (req : attachRequest) (env : Env) (st : FileStore) (vol : Volume) :
  volumes st !! id = Some vol →
  att_Principal req ≠ "" →
  att_Principal req = OwnerPrincipal vol →
  io env 0 = None →
  ∃ st' v session,
    handleAttachVolume (authServer tp) (Some caller) id (DecodeOk req) env st
      = (st', respondJSON StatusOK (PVolume v)) ∧
    volumes st' !! VolumeID vol = Some v ∧
    AttachState v = "attached" ∧
    AttachSession v = Some session ∧
    Principal session = OwnerPrincipal vol.
Proof.
  intros Hid Hnamed Hown Hio.
  assert (attachPrincipal caller req = OwnerPrincipal vol) as Hp.
  { unfold attachPrincipal. by rewrite bool_decide_eq_false_2. }
  rewrite handleAttachVolume_authenticated, Hid, bool_decide_eq_true_2 by done.
  cbv zeta. rewrite PutVolume_result, Hio.
  set (w := attached (newSession caller req env) vol).
  assert (VolumeID w = VolumeID vol) as Hw by (by destruct vol).
  destruct (PutVolume_mem (now env 1) None w st) as (Hm & _ & _).
  exists (PutVolume (now env 1) None w st).1, (stamped (now env 1) w st),
         (newSession caller req env).
  rewrite Hm, Hw, lookup_insert_eq.
  destruct (stamped_fields (now env 1) w st) as (_ & _ & _ & _ & _ & _ & _ & -> & -> & _).
  split_and!; try done; by destruct vol.
Qed.

(** The volume of [afterCreate] belongs to [service:app1]; the caller
    holds the token of [service:mallory] and names [service:app1]. *)
Lemma handleAttachVolume_trusts_body_principal_witness :
  ∃ st' v session,
    handleAttachVolume (authServer demoTokens) (Some "service:mallory") "vol-4d3c9b1e"
      attachBody calmEnv afterCreate = (st', respondJSON StatusOK (PVolume v)) ∧
    OwnerPrincipal v = "service:app1" ∧
    AttachState v = "attached" ∧
    AttachSession v = Some session ∧
    Principal session = "service:app1".
Proof.
  assert (∃ vol, volumes afterCreate !! "vol-4d3c9b1e" = Some vol ∧
                 VolumeID vol = "vol-4d3c9b1e" ∧ OwnerPrincipal vol = "service:app1")
    as (vol & Hvol & Hid & Hown).
  { eexists. split; [vm_compute; reflexivity|]. by split. }
  destruct (handleAttachVolume_trusts_body_principal demoTokens "service:mallory"
              "vol-4d3c9b1e" {| att_Principal := "service:app1"; att_SessionID := "";
                                att_ConsumerEndpoint := "podman://piccolod/app1" |}
              calmEnv afterCreate vol Hvol)
    as (st' & v & session & Hrun & Hstored & Hstate & Hsess & Hp);
    [discriminate | by rewrite Hown | reflexivity |].
  exists st', v, session. rewrite Hown in Hp. split_and!; try done.
  apply (f_equal fst) in Hrun. simpl in Hrun. subst st'.
  rewrite Hid in Hstored. vm_compute in Hstored. by injection Hstored as <-.
Defined.

(** C10 (the code departs from it): on the stored volume of
    [service:app1], the caller [service:mallory] is answered
    [principal_mismatch] by get, detach, add-snapshot, delete and by an
    attach that names no principal, and 200 by an attach that names the
    owner; on an id that is not stored, the same caller is answered
    [not_found] by all five. *)
Theorem non_owner_attach_not_refused :
  let srv := authServer demoTokens in
  let mallory := Some "service:mallory" in
  let unnamed := DecodeOk {| att_Principal := ""; att_SessionID := "";
                             att_ConsumerEndpoint := "" |} in
  (OwnerPrincipal <$> volumes afterCreate !! "vol-4d3c9b1e") = Some "service:app1" ∧
  volumes afterCreate !! "vol-ffffffff" = None ∧
  handleGetVolume srv mallory "vol-ffffffff" afterCreate = notFound ∧
  (handleAttachVolume srv mallory "vol-ffffffff" attachBody calmEnv afterCreate).2 = notFound ∧
  (handleDetachVolume srv mallory "vol-ffffffff" DecodeEOF calmEnv afterCreate).2 = notFound ∧
  (handleCreateSnapshot srv mallory "vol-ffffffff" DecodeEOF calmEnv afterCreate).2 = notFound ∧
  (handleDeleteVolume srv mallory "vol-ffffffff" calmEnv afterCreate).2 = notFound ∧
  handleGetVolume srv mallory "vol-4d3c9b1e" afterCreate = principalMismatch ∧
  (handleDetachVolume srv mallory "vol-4d3c9b1e" DecodeEOF calmEnv afterCreate).2
    = principalMismatch ∧
  (handleCreateSnapshot srv mallory "vol-4d3c9b1e" DecodeEOF calmEnv afterCreate).2
    = principalMismatch ∧
  (handleDeleteVolume srv mallory "vol-4d3c9b1e" calmEnv afterCreate).2 = principalMismatch ∧
  (handleAttachVolume srv mallory "vol-4d3c9b1e" unnamed calmEnv afterCreate).2
    = principalMismatch ∧
  status (handleAttachVolume srv mallory "vol-4d3c9b1e" attachBody calmEnv afterCreate).2
    = StatusOK.
Proof. cbv zeta. split_and!; vm_compute; reflexivity. Qed.

(** ** Checkpoints *)

Lemma last_None {A} (l : list A) : last l = None → l = [].
Proof. destruct l as [|x l] using rev_ind; [done|]. by rewrite last_snoc. Qed.

Lemma collectSnapshots_spec srv principal env vids :
  ∀ k acc st,
    checkpoint_accepted srv principal st vids →
    (∀ n, io env n = None) →
    ∃ st',
      collectSnapshots srv principal env k vids acc st
        = (st', inr (acc ++ (latestID st' <$> vids))) ∧
      volumes st' = volumes st ∧ cp st' = cp st ∧
      ∀ vid, history_after vids vid (ListSnapshots vid st) (ListSnapshots vid st').
Proof.
  induction vids as [|vid vids IH]; intros k acc st Hadm Hio.
  - exists st. simpl. rewrite app_nil_r. split_and!; try done.
    intros vid. unfold history_after. destruct (ListSnapshots vid st); [|done].
    by rewrite bool_decide_eq_false_2 by apply not_elem_of_nil.
  - destruct (Hadm vid) as (vol & Hvol & Hown); [by apply elem_of_cons; left|].
    assert (hasTokens srv && negb (String.eqb (OwnerPrincipal vol) principal) = false)
      as Hgate.
    { destruct (hasTokens srv); [|done]. by rewrite Hown, String.eqb_refl. }
    simpl. unfold GetVolume. rewrite Hvol, Hgate.
    destruct (LatestSnapshot vid st) as [latest|] eqn:Hlatest.
    + assert (checkpoint_accepted srv principal st vids) as Hadm1.
      { intros vid' Hin. apply Hadm. by apply elem_of_cons; right. }
      destruct (IH (S k) (acc ++ [SnapshotID latest]) st Hadm1 Hio)
        as (st' & Hrun & Hv & Hc & Hh).
      exists st'. rewrite Hrun, <-app_assoc. simpl.
      assert (ListSnapshots vid st' = ListSnapshots vid st) as Hsame.
      { specialize (Hh vid). unfold history_after, LatestSnapshot, ListSnapshots in *.
        by destruct (default [] (snaps st !! vid)). }
      assert (latestID st' vid = SnapshotID latest) as ->.
      { unfold latestID, LatestSnapshot, ListSnapshots in *. by rewrite Hsame, Hlatest. }
      split_and!; try done.
      intros vid'. specialize (Hh vid'). unfold history_after in *.
      destruct (ListSnapshots vid' st) eqn:Hl; [|done].
      assert (vid' ≠ vid) as Hne.
      { intros ->. unfold LatestSnapshot, ListSnapshots in *. by rewrite Hl in Hlatest. }
      by rewrite (bool_decide_ext (vid' ∈ vid :: vids) (vid' ∈ vids))
        by (rewrite elem_of_cons; split; [by intros [?|?]|by right]).
    + apply last_None in Hlatest. rewrite (Hio k).
      pose proof (AddSnapshot_mem None vid (autoSnapshot env k vid) st) as (Hv1 & Hc1 & Hs1).
      pose proof (AddSnapshot_result None vid (autoSnapshot env k vid) st) as Hr1.
      rewrite Hvol in Hs1, Hr1.
      unfold ListSnapshots in Hs1. rewrite Hlatest in Hs1. simpl in Hs1.
      fold (autoSnapshot env k vid).
      destruct (AddSnapshot None vid (autoSnapshot env k vid) st) as [st1 r].
      simpl in *. subst r.
      assert (checkpoint_accepted srv principal st1 vids) as Hadm1.
      { intros vid' Hin. rewrite Hv1. apply Hadm. by apply elem_of_cons; right. }
      destruct (IH (S k) (acc ++ [SnapshotID (autoSnapshot env k vid)]) st1 Hadm1 Hio)
        as (st' & Hrun & Hv & Hc & Hh).
      exists st'. rewrite Hrun, <-app_assoc. simpl.
      assert (ListSnapshots vid st1 = [autoSnapshot env k vid]) as Hvid1.
      { unfold ListSnapshots. by rewrite Hs1, lookup_insert_eq. }
      assert (ListSnapshots vid st' = [autoSnapshot env k vid]) as Hvid'.
      { specialize (Hh vid). unfold history_after in Hh. by rewrite Hvid1 in Hh. }
      assert (latestID st' vid = SnapshotID (autoSnapshot env k vid)) as ->.
      { unfold latestID, LatestSnapshot. fold (ListSnapshots vid st'). by rewrite Hvid'. }
      split_and!; try done; try congruence.
      intros vid'. destruct (decide (vid' = vid)) as [->|Hne].
      * unfold history_after, ListSnapshots at 1. rewrite Hlatest, Hvid'.
        rewrite bool_decide_eq_true_2 by (by apply elem_of_cons; left). by eexists.
      * assert (ListSnapshots vid' st1 = ListSnapshots vid' st) as Hother.
        { unfold ListSnapshots. by rewrite Hs1, lookup_insert_ne. }
        specialize (Hh vid'). rewrite Hother in Hh. unfold history_after in *.
        destruct (ListSnapshots vid' st); [|done].
        by rewrite (bool_decide_ext (vid' ∈ vid :: vids) (vid' ∈ vids))
        by (rewrite elem_of_cons; split; [by intros [?|?]|by right]).
Qed.

Lemma handleCreateCheckpoint_accepted srv ctx req env st :
  (hasTokens srv = true → is_Some ctx) →
  handleCreateCheckpoint srv ctx (DecodeOk req) env st =
    let vids := checkpointVolumes srv ctx req st in
    match collectSnapshots srv (principalFromContext ctx).1 env 0 vids [] st with
    | (st, inl resp) => (st, resp)
    | (st, inr snapshotIDs) =>
        let manifest := {| ManifestID := "chk-" +:+ shortID (uuid env (length vids));
                           SnapshotIDs := snapshotIDs;
                           cp_CreatedAt := now env (length vids);
                           cp_Note := cpreq_Note req |} in
        match PutCheckpoint (io env (length vids)) manifest st with
        | (st, Err err) => (st, storeError (Error_text err))
        | (st, Ok persisted) => (st, respondJSON StatusCreated (PCheckpoint persisted))
        end
    end.
Proof.
  intros Hctx. unfold handleCreateCheckpoint, checkpointVolumes.
  destruct ctx as [p|]; simpl.
  - by rewrite andb_false_r.
  - destruct (hasTokens srv); [|done]. by destruct Hctx.
Qed.

(** The run of an accepted request, with the manifest in terms of
    [LatestSnapshot]. *)
Lemma handleCreateCheckpoint_latest (srv : Server) (ctx : option string)
    (req : createCheckpointRequest) (env : Env) (st : FileStore) :
  (hasTokens srv = true → is_Some ctx) →
  checkpoint_accepted srv (principalFromContext ctx).1 st (checkpointVolumes srv ctx req st) →
  (∀ n, io env n = None) →
  ∃ st' manifest,
    handleCreateCheckpoint srv ctx (DecodeOk req) env st
      = (st', respondJSON StatusCreated (PCheckpoint manifest)) ∧
    volumes st' = volumes st ∧
    cp st' = <[ManifestID manifest := manifest]> (cp st) ∧
    SnapshotIDs manifest = latestID st' <$> checkpointVolumes srv ctx req st ∧
    ∀ vid,
      match ListSnapshots vid st with
      | [] =>
          if bool_decide (vid ∈ checkpointVolumes srv ctx req st) then
            ∃ snap, ListSnapshots vid st' = [snap] ∧ snap_VolumeID snap = vid ∧
                    snap_Note snap = "auto-generated for checkpoint"
          else ListSnapshots vid st' = []
      | history =>
          ListSnapshots vid st' = history ∧ LatestSnapshot vid st' = LatestSnapshot vid st
      end.
Proof.
  intros Hctx Hadm Hio.
  set (vids := checkpointVolumes srv ctx req st) in *.
  set (principal := (principalFromContext ctx).1) in *.
  destruct (collectSnapshots_spec srv principal env vids 0 [] st Hadm Hio)
    as (st1 & Hrun & Hv & Hc & Hh).
  set (manifest := {| ManifestID := "chk-" +:+ shortID (uuid env (length vids));
                      SnapshotIDs := latestID st1 <$> vids;
                      cp_CreatedAt := now env (length vids);
                      cp_Note := cpreq_Note req |}).
  destruct (PutCheckpoint_mem None manifest st1) as (Hpv & Hps & Hpc).
  exists (PutCheckpoint None manifest st1).1, manifest.
  assert (∀ vid, ListSnapshots vid (PutCheckpoint None manifest st1).1
                 = ListSnapshots vid st1) as Hlist.
  { intros vid. unfold ListSnapshots. by rewrite Hps. }
  assert (∀ vid, latestID (PutCheckpoint None manifest st1).1 vid = latestID st1 vid)
    as Hlatest.
  { intros vid. unfold latestID, LatestSnapshot. by rewrite Hps. }
  split_and!.
  - rewrite handleCreateCheckpoint_accepted by done. cbv zeta.
    fold vids principal. rewrite Hrun, Hio. fold manifest.
    done.
  - congruence.
  - by rewrite Hpc, Hc.
  - simpl. apply list_fmap_ext. intros _ vid _. by rewrite Hlatest.
  - intros vid. specialize (Hh vid). unfold history_after in Hh.
    rewrite Hlist. unfold LatestSnapshot. fold (ListSnapshots vid st).
    rewrite Hps. fold (ListSnapshots vid st1).
    destruct (ListSnapshots vid st); [done|]. by rewrite Hh.
Qed.

Lemma latestID_newest (st : FileStore) (vid : string) :
  ListSnapshots vid st ≠ [] → newest_id (ListSnapshots vid st) (latestID st vid).
Proof.
  unfold latestID, LatestSnapshot. fold (ListSnapshots vid st).
  destruct (ListSnapshots vid st) as [|snap l] using rev_ind; [done|]. intros _.
  exists l, snap. by rewrite last_snoc.
Qed.

Lemma checkpointVolumes_scope (srv : Server) (ctx : option string)
    (req : createCheckpointRequest) (st : FileStore) :
  (hasTokens srv = true → is_Some ctx) →
  checkpoint_scope srv ctx req st (checkpointVolumes srv ctx req st).
Proof.
  intros Hctx. unfold checkpoint_scope, checkpointVolumes.
  destruct (cpreq_VolumeIDs req) as [|vid ids]; [|done].
  destruct ctx as [caller|], (hasTokens srv) eqn:Htok; simpl;
    try (by destruct Hctx as [? [=]]); eexists; (split; [done|]); intros v.
  - unfold ListVolumesByOwner. rewrite list_elem_of_filter, list_elem_of_fmap.
    split.
    + intros [<- [[id v'] [-> Hin%elem_of_map_to_list]]]. split; [eauto|done].
    + intros [[id Hv] Hown]. split; [by injection (Hown eq_refl)|].
      exists (id, v). by rewrite elem_of_map_to_list.
  - unfold ListVolumes. rewrite list_elem_of_fmap. split.
    + intros [[id v'] [-> Hin%elem_of_map_to_list]]. split; [eauto|done].
    + intros [[id Hv] _]. exists (id, v). by rewrite elem_of_map_to_list.
  - unfold ListVolumes. rewrite list_elem_of_fmap. split.
    + intros [[id v'] [-> Hin%elem_of_map_to_list]]. split; [eauto|done].
    + intros [[id Hv] _]. exists (id, v). by rewrite elem_of_map_to_list.
Qed.

(** C4: the volumes a create-checkpoint request covers are those it
    lists or, when it lists none, all stored volumes (of the caller, with
    a token provider); on a store that keeps each volume under its own id
    this default scope is always accepted.  A request over stored volumes
    of the caller, all of whose flushes succeed, is answered 201 with a
    manifest that lists, in the order of the request, one snapshot id for
    each volume: the id of the snapshot at the end of that volume's
    history.  A volume that had no snapshot has exactly one afterwards,
    the automatic one; the history of a volume that had snapshots is as it
    was, so that no snapshot is added and the id listed is that of the
    last snapshot the volume had.  The histories of volumes outside the
    request are untouched. *)
Theorem handleCreateCheckpoint_snapshots (srv : Server) (ctx : option string)
    (req : createCheckpointRequest) (env : Env) (st : FileStore) :
  (hasTokens srv = true → is_Some ctx) →
  (∀ n, io env n = None) →
  ∃ vids,
    checkpoint_scope srv ctx req st vids ∧
    (cpreq_VolumeIDs req = [] →
     (∀ id v, volumes st !! id = Some v → VolumeID v = id) →
     checkpoint_accepted srv (principalFromContext ctx).1 st vids) ∧
    (checkpoint_accepted srv (principalFromContext ctx).1 st vids →
     ∃ st' manifest,
       handleCreateCheckpoint srv ctx (DecodeOk req) env st
         = (st', respondJSON StatusCreated (PCheckpoint manifest)) ∧
       volumes st' = volumes st ∧
       cp st' = <[ManifestID manifest := manifest]> (cp st) ∧
       Forall2 (λ vid sid,
                  newest_id (ListSnapshots vid st') sid ∧
                  (ListSnapshots vid st ≠ [] → newest_id (ListSnapshots vid st) sid))
               vids (SnapshotIDs manifest) ∧
       ∀ vid,
         match ListSnapshots vid st with
         | [] =>
             if bool_decide (vid ∈ vids) then
               ∃ snap, ListSnapshots vid st' = [snap] ∧ snap_VolumeID snap = vid ∧
                       snap_Note snap = "auto-generated for checkpoint"
             else ListSnapshots vid st' = []
         | history => ListSnapshots vid st' = history
         end).
Proof.
  intros Hctx Hio. exists (checkpointVolumes srv ctx req st).
  pose proof (checkpointVolumes_scope srv ctx req st Hctx) as Hscope.
  split; [exact Hscope|]. split.
  - intros Hnone Hkeys vid Hvid. unfold checkpoint_scope in Hscope. rewrite Hnone in Hscope.
    destruct Hscope as (vs & Hvids & Hvs). rewrite Hvids in Hvid.
    apply list_elem_of_fmap in Hvid as (v & -> & [[id Hv] Hown]%Hvs).
    exists v. rewrite (Hkeys id v Hv). split; [done|].
    intros Htok. specialize (Hown Htok). destruct ctx; by simplify_eq/=.
  - intros Hacc.
    destruct (handleCreateCheckpoint_latest srv ctx req env st Hctx Hacc Hio)
      as (st' & manifest & Hrun & Hv & Hc & Hids & Hhist).
    exists st', manifest. split_and!; try done.
    + rewrite Hids. apply Forall2_fmap_r, Forall_Forall2_diag, Forall_forall.
      intros vid Hvid. specialize (Hhist vid).
      assert (ListSnapshots vid st' ≠ []) as Hne.
      { destruct (ListSnapshots vid st) as [|snap l].
        - rewrite bool_decide_eq_true_2 in Hhist by done.
          destruct Hhist as (snap & -> & _). done.
        - by destruct Hhist as [-> _]. }
      split; [by apply latestID_newest|].
      intros Hold. destruct (ListSnapshots vid st) as [|snap l] eqn:Hl; [done|].
      destruct Hhist as [Hsame _]. rewrite <- Hsame. by apply latestID_newest.
    + intros vid. specialize (Hhist vid).
      destruct (ListSnapshots vid st); [done|]. by destruct Hhist.
Qed.

Lemma handleCreateCheckpoint_snapshots_witness :
  ∃ st' manifest,
    handleCreateCheckpoint devServer None (DecodeOk checkpointOne) calmEnv twoSnapshots
      = (st', respondJSON StatusCreated (PCheckpoint manifest)) ∧
    (SnapshotID <$> ListSnapshots "vol-4d3c9b1e" twoSnapshots)
      = ["snap-4d3c9b1e"; "snap-0f1e2d3c"] ∧
    SnapshotIDs manifest = ["snap-0f1e2d3c"] ∧
    ListSnapshots "vol-4d3c9b1e" st' = ListSnapshots "vol-4d3c9b1e" twoSnapshots.
Proof.
  destruct (handleCreateCheckpoint_snapshots devServer None checkpointOne calmEnv twoSnapshots)
    as (vids & Hscope & _ & Hrun); [discriminate|reflexivity|].
  change (vids = ["vol-4d3c9b1e"]) in Hscope. subst vids.
  destruct Hrun as (st' & manifest & Hrun & _ & _ & _ & _).
  - intros vid ->%list_elem_of_singleton.
    eexists. split; [vm_compute; reflexivity|discriminate].
  - exists st', manifest. split; [exact Hrun|].
    assert (handleCreateCheckpoint devServer None (DecodeOk checkpointOne) calmEnv twoSnapshots
            = ((handleCreateCheckpoint devServer None (DecodeOk checkpointOne) calmEnv
                  twoSnapshots).1,
               respondJSON StatusCreated
                 (PCheckpoint {| ManifestID := "chk-4d3c9b1e";
                                 SnapshotIDs := ["snap-0f1e2d3c"];
                                 cp_CreatedAt := 1701; cp_Note := "" |})))
      as Hrun' by (vm_compute; reflexivity).
    rewrite Hrun' in Hrun. injection Hrun as <- <-.
    split; [vm_compute; reflexivity|]. split; [reflexivity|]. vm_compute. reflexivity.
Defined.

Example second_checkpoint_reuses_snapshot :
  ∃ st' manifest,
    handleCreateCheckpoint devServer None (DecodeOk checkpointAll) laterEnv afterCheckpoint
      = (st', respondJSON StatusCreated (PCheckpoint manifest)) ∧
    SnapshotIDs manifest = ["snap-4d3c9b1e"] ∧
    ListSnapshots "vol-4d3c9b1e" st' = ListSnapshots "vol-4d3c9b1e" afterCheckpoint.
Proof. do 2 eexists. split; [vm_compute; reflexivity|]. split; vm_compute; reflexivity. Qed.

(** ** Listing checkpoints *)

Section visibility.
Implicit Types (st : FileStore) (sid vid : string).

Lemma findOwner_Some sid hist vid :
  findOwner sid hist = Some vid →
  ∃ l snap, (vid, l) ∈ hist ∧ snap ∈ l ∧ SnapshotID snap = sid.
Proof.
  induction hist as [|[vid' l] hist IH]; simpl; [done|].
  destruct (existsb _ l) eqn:Hex.
  - intros [= <-]. apply existsb_exists in Hex as (snap & Hin & Heq).
    exists l, snap. split_and!; [by left| by apply list_elem_of_In |].
    by apply String.eqb_eq.
  - intros (l' & snap & Hin & Hsnap & Hid)%IH. exists l', snap. split_and!; [by right|done..].
Qed.

Lemma findOwner_None sid hist vid l snap :
  findOwner sid hist = None → (vid, l) ∈ hist → snap ∈ l → SnapshotID snap ≠ sid.
Proof.
  induction hist as [|[vid' l'] hist IH]; simpl; [by intros _ ?%elem_of_nil|].
  destruct (existsb _ l') eqn:Hex; [done|].
  intros Hnone [[= <- <-]|Hin]%elem_of_cons Hsnap Hid; [|by eapply IH].
  apply Bool.not_true_iff_false in Hex. apply Hex, existsb_exists.
  exists snap. split; [by apply list_elem_of_In|by apply String.eqb_eq].
Qed.

(** Go ranges over [s.snaps] in no fixed order: when no snapshot id is
    in two histories, the order does not change what the search finds. *)
Lemma findOwner_order sid (hist hist' : list (string * list Snapshot)) :
  hist ≡ₚ hist' →
  (∀ vid1 vid2 l1 l2 snap1 snap2,
     (vid1, l1) ∈ hist → (vid2, l2) ∈ hist → snap1 ∈ l1 → snap2 ∈ l2 →
     SnapshotID snap1 = sid → SnapshotID snap2 = sid → vid1 = vid2) →
  findOwner sid hist = findOwner sid hist'.
Proof.
  intros Hperm Huniq.
  destruct (findOwner sid hist) as [vid|] eqn:Hfind.
  - apply findOwner_Some in Hfind as (l & snap & Hin & Hsnap & Hid).
    destruct (findOwner sid hist') as [vid'|] eqn:Hfind'.
    + apply findOwner_Some in Hfind' as (l' & snap' & Hin' & Hsnap' & Hid').
      rewrite <-Hperm in Hin'. f_equal. by eapply Huniq.
    + rewrite Hperm in Hin. by destruct (findOwner_None _ _ _ _ _ Hfind' Hin Hsnap).
  - destruct (findOwner sid hist') as [vid'|] eqn:Hfind'; [|done].
    apply findOwner_Some in Hfind' as (l' & snap' & Hin' & Hsnap' & Hid').
    rewrite <-Hperm in Hin'. by destruct (findOwner_None _ _ _ _ _ Hfind Hin' Hsnap').
Qed.

Lemma snapshot_of_lookup st vid sid :
  snapshot_of st vid sid ↔
  ∃ l snap, (vid, l) ∈ map_to_list (snaps st) ∧ snap ∈ l ∧ SnapshotID snap = sid.
Proof.
  unfold snapshot_of, ListSnapshots. split.
  - intros (snap & Hin & Hid). destruct (snaps st !! vid) as [l|] eqn:Hl; simpl in Hin.
    + exists l, snap. by rewrite elem_of_map_to_list.
    + by apply elem_of_nil in Hin.
  - intros (l & snap & Hl%elem_of_map_to_list & Hin & Hid). exists snap. by rewrite Hl.
Qed.

Lemma VolumeIDForSnapshot_Some st sid vid :
  VolumeIDForSnapshot sid st = Some vid → snapshot_of st vid sid.
Proof. intros ?%findOwner_Some. by apply snapshot_of_lookup. Qed.

Lemma VolumeIDForSnapshot_None st sid vid :
  VolumeIDForSnapshot sid st = None → ¬ snapshot_of st vid sid.
Proof.
  intros Hnone (l & snap & Hl & Hin & Hid)%snapshot_of_lookup.
  by eapply findOwner_None.
Qed.

Lemma ownedSet_owns st principal vid :
  vid ∈ ownedSet (ListVolumesByOwner principal st) ↔ owns st principal vid.
Proof.
  unfold ownedSet, ListVolumesByOwner, owns, ListVolumes.
  rewrite elem_of_list_to_set, list_elem_of_fmap. split.
  - intros (v & -> & [Hown Hin]%list_elem_of_filter). by exists v.
  - intros (v & Hin & <- & Hown). exists v. by rewrite list_elem_of_filter.
Qed.

Lemma includeManifest_spec st principal c :
  unique_histories st →
  includeManifest (ownedSet (ListVolumesByOwner principal st)) st c = true ↔
  ∀ sid vid, sid ∈ SnapshotIDs c → snapshot_of st vid sid → owns st principal vid.
Proof.
  intros Huniq. unfold includeManifest. rewrite forallb_forall. split.
  - intros Hall sid vid Hsid%list_elem_of_In Hsnap. specialize (Hall sid Hsid).
    destruct (VolumeIDForSnapshot sid st) as [vid'|] eqn:Hfind.
    + apply VolumeIDForSnapshot_Some in Hfind.
      rewrite (Huniq sid vid vid' Hsnap Hfind).
      apply bool_decide_eq_true in Hall. by apply ownedSet_owns.
    + by apply VolumeIDForSnapshot_None with (vid := vid) in Hfind.
  - intros Hall sid Hsid%list_elem_of_In.
    destruct (VolumeIDForSnapshot sid st) as [vid'|] eqn:Hfind; [|done].
    apply bool_decide_eq_true, ownedSet_owns. apply (Hall sid); [done|].
    by apply VolumeIDForSnapshot_Some.
Qed.
End visibility.

(** C5, counterexample: the manifest of [danglingStore] is listed for
    any caller, here [service:app1], although its snapshot belongs to no
    volume. *)
Lemma dangling_manifest_listed : ¬ lists_fully_owned_manifests.
Proof.
  intros H.
  destruct (H demoTokens "service:app1" danglingStore danglingManifest) as [Hlisted _].
  - intros sid vid1 vid2 (snap & Hin & _). vm_compute in Hin. by apply elem_of_nil in Hin.
  - destruct Hlisted as [_ Hall].
    + vm_compute. by left.
    + destruct (Hall "snap-deadbeef") as (vid & (snap & Hin & _) & _); [by left|].
      vm_compute in Hin. by apply elem_of_nil in Hin.
Qed.

(** C5 (amended): with a token provider, and no snapshot id shared by
    two histories, the list-checkpoints operation answers 200 with the
    stored manifests, each whole, for which every referenced snapshot id
    that is in some volume's history is in the history of a volume owned
    by the caller.  A referenced id that is in no history at all does not
    exclude the manifest; one in the history of a volume of another owner,
    or of a deleted volume, does. *)
Theorem handleListCheckpoints_visible (tp : TokenProvider) (principal : string)
    (st : FileStore) :
  unique_histories st →
  ∃ cs,
    handleListCheckpoints (authServer tp) (Some principal) st
      = respondJSON StatusOK (PCheckpoints cs) ∧
    sublist cs (ListCheckpoints st) ∧
    ∀ c, c ∈ cs ↔
         c ∈ ListCheckpoints st ∧
         ∀ sid vid, sid ∈ SnapshotIDs c → snapshot_of st vid sid → owns st principal vid.
Proof.
  intros Huniq.
  exists (List.filter (includeManifest (ownedSet (ListVolumesByOwner principal st)) st)
            (ListCheckpoints st)).
  split_and!; [done| |].
  - induction (ListCheckpoints st) as [|c cs IH]; simpl; [constructor|].
    destruct (includeManifest _ st c); by constructor.
  - intros c. rewrite list_elem_of_In, filter_In, <-list_elem_of_In.
    by rewrite includeManifest_spec.
Qed.

Lemma unique_histories_single (st : FileStore) (vid0 : string) :
  dom (snaps st) = {[ vid0 ]} → unique_histories st.
Proof.
  intros Hdom.
  assert (∀ sid vid, snapshot_of st vid sid → vid = vid0) as Hone.
  { intros sid vid (snap & Hin & _). unfold ListSnapshots in Hin.
    destruct (snaps st !! vid) as [l|] eqn:Hl; [|by apply elem_of_nil in Hin].
    assert (vid ∈ dom (snaps st)) as Hvid by (apply elem_of_dom; eauto).
    rewrite Hdom in Hvid. by apply elem_of_singleton in Hvid. }
  intros sid vid1 vid2 H1%Hone H2%Hone. congruence.
Defined.

(** The store after the checkpoint holds one manifest, over the volume
    of [service:app1]: that principal is shown it, [service:mallory] is
    shown none. *)
Lemma handleListCheckpoints_visible_witness :
  listed (handleListCheckpoints (authServer demoTokens) (Some "service:mallory")
            afterCheckpoint) = [] ∧
  (ManifestID <$> listed (handleListCheckpoints (authServer demoTokens)
                            (Some "service:app1") afterCheckpoint)) = ["chk-4d3c9b1e"] ∧
  ∃ cs,
    handleListCheckpoints (authServer demoTokens) (Some "service:app1") afterCheckpoint
      = respondJSON StatusOK (PCheckpoints cs) ∧
    sublist cs (ListCheckpoints afterCheckpoint) ∧
    ∀ c, c ∈ cs ↔
         c ∈ ListCheckpoints afterCheckpoint ∧
         ∀ sid vid, sid ∈ SnapshotIDs c → snapshot_of afterCheckpoint vid sid →
                    owns afterCheckpoint "service:app1" vid.
Proof.
  split; [vm_compute; reflexivity|]. split; [vm_compute; reflexivity|].
  apply (handleListCheckpoints_visible demoTokens "service:app1" afterCheckpoint).
  apply (unique_histories_single afterCheckpoint "vol-4d3c9b1e").
  vm_compute. reflexivity.
Defined.

(** ** The state file *)

(** The keys and tags below are literals: the comparisons are computed. *)
Ltac keys :=
  repeat match goal with
         | |- context [keyIs ?k ?tag] =>
             let b := eval vm_compute in (keyIs k tag) in change (keyIs k tag) with b
         end.

Ltac members :=
  repeat (keys; cbn -[keyIs enc_time dec_int64 dec_MountInfo dec_SessionPtr enc_MountInfo
                      enc_Session dec_slice]).

Ltac top_members :=
  repeat (keys; cbn -[keyIs dec_map enc_map dec_Volume dec_history dec_Checkpoint]).

Section codec.
Implicit Types (v : Volume) (s : Snapshot) (c : Checkpoint).

Lemma dec_enc_time cur t : dec_time cur (enc_time t) = Some t.
Proof. reflexivity. Qed.

Lemma dec_enc_MountInfo cur m : dec_MountInfo cur (enc_MountInfo m) = Some m.
Proof.
  destruct cur, m. unfold dec_MountInfo, dec_struct, enc_MountInfo. by members.
Qed.

Lemma dec_enc_SessionPtr cur sess :
  dec_SessionPtr cur (enc_Session sess) = Some (Some sess).
Proof.
  destruct sess. unfold dec_SessionPtr, enc_Session.
  destruct cur as [[]|]; by members.
Qed.

Lemma dec_enc_Volume v :
  - 2 ^ 63 ≤ QuotaBytes v < 2 ^ 63 →
  dec_Volume zeroVolume (enc_Volume v) = Some v.
Proof.
  intros Hq. destruct v as [? ? ? q ? ? m ? sess ? ?]. simpl in Hq.
  unfold dec_Volume, dec_struct, enc_Volume. members.
  unfold dec_int64. rewrite bool_decide_eq_true_2 by done. members.
  rewrite dec_enc_MountInfo. members.
  destruct sess as [sess|]; members; [rewrite dec_enc_SessionPtr; members|]; reflexivity.
Qed.





(** Storing the members of an encoded map one after the other, from
    [m0] on. *)
Lemma foldM_members {A} (dec : json → option A) (enc : A → json)
    (l : list (string * A)) (m0 : gmap string A) :
  (∀ kv, kv ∈ l → dec (enc kv.2) = Some kv.2) →
  foldM (λ m kv, x ← dec kv.2; Some (<[kv.1 := x]> m)) m0
        ((λ kv, (kv.1, enc kv.2)) <$> l)
  = Some (foldl (λ m kv, <[kv.1 := kv.2]> m) m0 l).
Proof.
  revert m0. induction l as [|[k x] l IH]; intros m0 Hl; simpl; [done|].
  pose proof (Hl (k, x)) as Hx. simpl in Hx. rewrite Hx by (by left). simpl. apply IH.
  intros kv Hkv. apply Hl. by right.
Qed.

Lemma foldl_insert_lookup {A} (l : list (string * A)) (m0 : gmap string A) k :
  NoDup l.*1 →
  foldl (λ m kv, <[kv.1 := kv.2]> m) m0 l !! k =
    match (list_to_map l : gmap string A) !! k with
    | Some x => Some x
    | None => m0 !! k
    end.
Proof.
  revert m0. induction l as [|[k' x] l IH]; intros m0 Hnd; simpl.
  - by rewrite lookup_empty.
  - apply NoDup_cons in Hnd as [Hk' Hnd]. rewrite IH by done.
    destruct (decide (k = k')) as [->|Hne].
    + rewrite (not_elem_of_list_to_map_1 l k') by done.
      by rewrite !lookup_insert_eq.
    + rewrite !lookup_insert_ne by done. done.
Qed.

Lemma dec_enc_map {A} (dec : json → option A) (enc : A → json) (m : gmap string A) :
  (∀ k x, m !! k = Some x → dec (enc x) = Some x) →
  dec_map dec None (enc_map enc m) = Some (Some m).
Proof.
  intros Hm. unfold dec_map, enc_map. simpl.
  rewrite foldM_members.
  - simpl. do 2 f_equal. apply map_eq. intros k.
    rewrite foldl_insert_lookup by apply NoDup_fst_map_to_list.
    rewrite list_to_map_to_list, lookup_empty. by destruct (m !! k).
  - intros [k x] Hkx%elem_of_map_to_list. by eapply Hm.
Qed.

End codec.






Example malformed_state_file :
  main_store (FileJSON (JObj [("volumes", JArr [])]))
  = Fatal "failed to initialise state store: decode state".
Proof. reflexivity. Qed.

Example null_state_file :
  main_store (FileJSON JNull)
  = Serving {| volumes := ∅; snaps := ∅; cp := ∅; file := FileJSON JNull |}.
Proof. reflexivity. Qed.


(** * Further properties of the store and the handlers *)

(** ** The snapshot catalog *)

(** X1: [AddSnapshot] for an id that is not stored returns
    [ErrVolumeNotFound] and changes nothing; for a stored id it appends
    the snapshot to the history of that volume, whatever the flush
    returns: the earlier snapshots stay in place before it, it becomes the
    latest, and the histories of the other volumes, the volumes and the
    checkpoints are as before. *)
Theorem AddSnapshot_append (io : option string) (vid : string) (snap : Snapshot)
    (s : FileStore) :
  match volumes s !! vid with
  | None => AddSnapshot io vid snap s = (s, Err ErrVolumeNotFound)
  | Some _ =>
      let s' := (AddSnapshot io vid snap s).1 in
      ListSnapshots vid s' = ListSnapshots vid s ++ [snap] ∧
      LatestSnapshot vid s' = Some snap ∧
      (∀ vid', ListSnapshots vid' s' =
               if decide (vid' = vid) then ListSnapshots vid s ++ [snap]
               else ListSnapshots vid' s) ∧
      volumes s' = volumes s ∧
      cp s' = cp s ∧
      (AddSnapshot io vid snap s).2 =
        match io with None => Ok snap | Some msg => Err (ErrOther msg) end
  end.
Proof.
  destruct (AddSnapshot_mem io vid snap s) as (Hv & Hc & Hs).
  pose proof (AddSnapshot_result io vid snap s) as Hr.
  destruct (volumes s !! vid) as [vol|] eqn:Hvol;
    [|by unfold AddSnapshot; rewrite Hvol].
  cbv zeta. unfold LatestSnapshot, ListSnapshots in *. rewrite Hs.
  split_and!; try done.
  - by rewrite lookup_insert_eq.
  - rewrite lookup_insert_eq. simpl. apply last_snoc.
  - intros vid'. case_decide as Hvid.
    + subst. by rewrite lookup_insert_eq.
    + by rewrite lookup_insert_ne.
Qed.

(** X2: a flush that fails is reported to the caller by each of the four
    writing operations ([AddSnapshot] and [DeleteVolume] on a stored id;
    on an id that is not stored they return [ErrVolumeNotFound] before any
    flush), and the state file stays as it was, but the update of the
    maps is not taken back: after the failed call the store holds in
    memory exactly what it holds after the same call with a flush that
    succeeds. *)
Theorem failed_flush_keeps_memory (msg : string) (now : Time) (v : Volume) (vid id : string)
    (snap : Snapshot) (c : Checkpoint) (s : FileStore) :
  ((PutVolume now (Some msg) v s).2 = Err (ErrOther msg) ∧
   file (PutVolume now (Some msg) v s).1 = file s ∧
   same_memory (PutVolume now (Some msg) v s).1 (PutVolume now None v s).1 ∧
   GetVolume (VolumeID v) (PutVolume now (Some msg) v s).1 = Ok (stamped now v s)) ∧
  ((AddSnapshot (Some msg) vid snap s).2 =
     match volumes s !! vid with
     | Some _ => Err (ErrOther msg)
     | None => Err ErrVolumeNotFound
     end ∧
   file (AddSnapshot (Some msg) vid snap s).1 = file s ∧
   same_memory (AddSnapshot (Some msg) vid snap s).1 (AddSnapshot None vid snap s).1 ∧
   ListSnapshots vid (AddSnapshot (Some msg) vid snap s).1 =
     match volumes s !! vid with
     | Some _ => ListSnapshots vid s ++ [snap]
     | None => ListSnapshots vid s
     end) ∧
  ((PutCheckpoint (Some msg) c s).2 = Err (ErrOther msg) ∧
   file (PutCheckpoint (Some msg) c s).1 = file s ∧
   same_memory (PutCheckpoint (Some msg) c s).1 (PutCheckpoint None c s).1 ∧
   cp (PutCheckpoint (Some msg) c s).1 !! ManifestID c = Some c) ∧
  ((DeleteVolume (Some msg) id s).2 =
     match volumes s !! id with
     | Some _ => Some (ErrOther msg)
     | None => Some ErrVolumeNotFound
     end ∧
   file (DeleteVolume (Some msg) id s).1 = file s ∧
   same_memory (DeleteVolume (Some msg) id s).1 (DeleteVolume None id s).1 ∧
   volumes (DeleteVolume (Some msg) id s).1 !! id = None).
Proof.
  unfold same_memory, PutVolume, AddSnapshot, PutCheckpoint, DeleteVolume, GetVolume, stamped,
    ListSnapshots.
  destruct v as [k ? ? ? ? ? ? ? ? ? ?]; simpl.
  destruct (volumes s !! k) as [e|]; simpl; [destruct (IsZero (CreatedAt e)); simpl|];
    destruct (volumes s !! vid), (volumes s !! id) eqn:Hid; simpl;
    rewrite ?lookup_insert_eq, ?lookup_delete_eq; by split_and!.
Qed.

(** X3: [VolumeIDForSnapshot] answers with a volume id only when the
    snapshot id is in the history kept under that id, and answers that
    there is none only when the snapshot id is in no history; when no
    snapshot id is in two histories it finds the volume of every snapshot
    that is kept. *)
Theorem VolumeIDForSnapshot_finds (sid : string) (st : FileStore) :
  match VolumeIDForSnapshot sid st with
  | Some vid => snapshot_of st vid sid
  | None => ∀ vid, ¬ snapshot_of st vid sid
  end ∧
  (unique_histories st →
   ∀ vid, snapshot_of st vid sid → VolumeIDForSnapshot sid st = Some vid).
Proof.
  split.
  - destruct (VolumeIDForSnapshot sid st) as [vid|] eqn:Hfind.
    + by apply VolumeIDForSnapshot_Some.
    + intros vid. by apply VolumeIDForSnapshot_None.
  - intros Huniq vid Hsnap.
    destruct (VolumeIDForSnapshot sid st) as [vid'|] eqn:Hfind.
    + f_equal. apply VolumeIDForSnapshot_Some in Hfind. by eapply Huniq.
    + by apply VolumeIDForSnapshot_None with (vid := vid) in Hfind.
Qed.

(** ** What one request does to the store *)

Lemma fst_put {A B} (p : FileStore * result A) (f : A → B) (g : error → B) :
  (let '(st, r) := p in match r with Ok a => (st, f a) | Err e => (st, g e) end).1 = p.1.
Proof. by destruct p as [? []]. Qed.

Lemma handleCreateVolume_effect srv ctx body env st :
  (handleCreateVolume srv ctx body env st).1 = st ∨
  ∃ req owner,
    body = DecodeOk req ∧
    (handleCreateVolume srv ctx body env st).1
      = (PutVolume (now env 0) (io env 0) (createdVolume req owner (uuid env 0)) st).1.
Proof.
  unfold handleCreateVolume. destruct body as [req| |]; [|by left..].
  destruct (principalFromContext ctx) as [principal ok]. cbv zeta.
  destruct (hasTokens srv && negb ok); [by left|].
  destruct (String.eqb (req_OwnerPrincipal req) "").
  - destruct (hasTokens srv); [|by left]. right. exists req, principal. split; [done|].
    unfold createdVolume. cbv zeta. by destruct (PutVolume _ _ _ _) as [? []].
  - destruct (hasTokens srv && _); [by left|]. right.
    exists req, (req_OwnerPrincipal req). split; [done|].
    unfold createdVolume. cbv zeta. by destruct (PutVolume _ _ _ _) as [? []].
Qed.

Lemma handleAttachVolume_effect srv ctx id body env st :
  (handleAttachVolume srv ctx id body env st).1 = st ∨
  ∃ vol session,
    volumes st !! id = Some vol ∧ Principal session = OwnerPrincipal vol ∧
    (handleAttachVolume srv ctx id body env st).1
      = (PutVolume (now env 1) (io env 0) (attached session vol) st).1.
Proof.
  unfold handleAttachVolume, GetVolume. destruct body as [req| |]; [|by left..].
  destruct (principalFromContext ctx) as [principal ok]. cbv zeta.
  destruct (hasTokens srv && negb ok); [by left|].
  destruct (volumes st !! id) as [vol|]; [|by left].
  cbv zeta.
  assert (∀ p, p = OwnerPrincipal vol →
               Principal {| SessionID := if String.eqb (att_SessionID req) ""
                                         then "sess-" +:+ shortID (uuid env 0)
                                         else att_SessionID req;
                            Principal := p;
                            ConsumerEndpoint := att_ConsumerEndpoint req;
                            AttachedAt := now env 0 |} = OwnerPrincipal vol) as Hp by done.
  destruct (String.eqb (att_Principal req) "");
    [destruct (hasTokens srv); [|by left]|];
    match goal with
    | |- context [String.eqb ?p (OwnerPrincipal vol)] =>
        destruct (String.eqb_spec p (OwnerPrincipal vol)) as [Heq|]; simpl; [|by left];
        right; eexists vol, _; split; [done|]; split; [exact (Hp p Heq)|];
        unfold attached; cbv zeta; by destruct (PutVolume _ _ _ _) as [? []]
    end.
Qed.

Lemma handleDetachVolume_effect srv ctx id body env st :
  (handleDetachVolume srv ctx id body env st).1 = st ∨
  ∃ vol,
    volumes st !! id = Some vol ∧
    (handleDetachVolume srv ctx id body env st).1
      = (PutVolume (now env 0) (io env 0) (detached vol) st).1.
Proof.
  unfold handleDetachVolume, GetVolume.
  destruct body as [req| |]; [| |by left];
    (destruct (volumes st !! id) as [vol|]; [|by left]);
    destruct (principalFromContext ctx) as [principal ok];
    (destruct (hasTokens srv && negb ok); [by left|]);
    (destruct (hasTokens srv && _); [by left|]);
    right; exists vol; (split; [done|]); unfold detached; cbv zeta;
    by destruct (PutVolume _ _ _ _) as [? []].
Qed.

Lemma handleDeleteVolume_effect srv ctx id env st :
  (handleDeleteVolume srv ctx id env st).1 = st ∨
  (handleDeleteVolume srv ctx id env st).1 = (DeleteVolume (io env 0) id st).1.
Proof.
  unfold handleDeleteVolume, GetVolume.
  destruct (principalFromContext ctx) as [principal ok]. cbv zeta.
  destruct (hasTokens srv).
  - destruct (negb ok); [by left|]. destruct (volumes st !! id) as [vol|]; [|by left].
    destruct (negb _); [by left|]. right. by destruct (DeleteVolume _ _ _) as [? [[]|]].
  - right. by destruct (DeleteVolume _ _ _) as [? [[]|]].
Qed.

Lemma handleCreateSnapshot_effect srv ctx id body env st :
  (handleCreateSnapshot srv ctx id body env st).1 = st ∨
  ∃ note,
    (handleCreateSnapshot srv ctx id body env st).1
      = (AddSnapshot (io env 0) id (newSnapshot id note env) st).1.
Proof.
  unfold handleCreateSnapshot, GetVolume.
  destruct (principalFromContext ctx) as [principal ok]. cbv zeta.
  destruct (hasTokens srv && negb ok); [by left|].
  destruct (volumes st !! id) as [vol|]; [|by left].
  destruct (hasTokens srv && _); [by left|].
  unfold newSnapshot.
  destruct body as [req| |]; [| |by left]; right;
    [exists (snapreq_Note req)|exists ""];
    by destruct (AddSnapshot _ _ _ _) as [? [|[]]].
Qed.

(** ** Invariants of the states that requests reach *)

Section growth.
Implicit Types (st : FileStore) (vid sid : string).

Lemma histories_grow_refl st : histories_grow st st.
Proof. split; [done|]. intros vid snap ?. by left. Qed.

Lemma histories_grow_trans st1 st2 st3 :
  histories_grow st1 st2 → histories_grow st2 st3 → histories_grow st1 st3.
Proof.
  intros [Hp1 Hk1] [Hp2 Hk2]. split.
  - intros vid. etrans; [apply Hp1|apply Hp2].
  - intros vid snap [Hin|Hk]%Hk2; [by apply Hk1|by right].
Qed.

Lemma histories_grow_snaps st st' : snaps st' = snaps st → histories_grow st st'.
Proof.
  intros Heq. unfold histories_grow, ListSnapshots. rewrite Heq.
  split; [done|]. intros vid snap ?. by left.
Qed.

Lemma histories_grow_AddSnapshot io vid snap st :
  snap_VolumeID snap = vid → histories_grow st (AddSnapshot io vid snap st).1.
Proof.
  intros Hkey. destruct (AddSnapshot_mem io vid snap st) as (_ & _ & Hs).
  destruct (volumes st !! vid); [|by apply histories_grow_snaps].
  unfold histories_grow, ListSnapshots in *. rewrite Hs. split.
  - intros vid'. destruct (decide (vid' = vid)) as [->|Hne].
    + rewrite lookup_insert_eq. simpl. by apply prefix_app_r.
    + by rewrite lookup_insert_ne.
  - intros vid' snap'. destruct (decide (vid' = vid)) as [->|Hne].
    + rewrite lookup_insert_eq. simpl.
      intros [Hin| ->%list_elem_of_singleton]%elem_of_app; [by left|by right].
    + rewrite lookup_insert_ne by done. by left.
Qed.

Lemma snapshot_of_grow st st' vid sid :
  histories_grow st st' → snapshot_of st vid sid → snapshot_of st' vid sid.
Proof.
  intros [Hp _] (snap & Hin & Hid). exists snap. split; [|done].
  destruct (Hp vid) as [l ->]. apply elem_of_app. by left.
Qed.

Lemma collectSnapshots_cp srv principal env k vids acc st :
  cp (collectSnapshots srv principal env k vids acc st).1 = cp st.
Proof.
  revert k acc st. induction vids as [|vid vids IH]; intros k acc st; simpl; [done|].
  unfold GetVolume. destruct (volumes st !! vid) eqn:Hv; [|done].
  destruct (_ && _); [done|].
  destruct (LatestSnapshot vid st); [apply IH|].
  pose proof (AddSnapshot_mem (io env k) vid (autoSnapshot env k vid) st) as (_ & Hc & _).
  fold (autoSnapshot env k vid).
  destruct (AddSnapshot _ _ _ _) as [st1 [created|err]]; simpl in *; [|done].
  by rewrite IH.
Qed.

Lemma collectSnapshots_grows srv principal env vids :
  ∀ k acc st,
    histories_grow st (collectSnapshots srv principal env k vids acc st).1 ∧
    ∀ ids, (collectSnapshots srv principal env k vids acc st).2 = inr ids →
      ∀ sid, sid ∈ ids →
        sid ∈ acc ∨
        ∃ vid, snapshot_of (collectSnapshots srv principal env k vids acc st).1 vid sid.
Proof.
  induction vids as [|vid vids IH]; intros k acc st; simpl.
  - split; [apply histories_grow_refl|]. intros ids [= <-] sid ?. by left.
  - unfold GetVolume. destruct (volumes st !! vid) as [vol|] eqn:Hvol;
      [|split; [apply histories_grow_refl|done]].
    destruct (_ && _); [split; [apply histories_grow_refl|done]|].
    destruct (LatestSnapshot vid st) as [latest|] eqn:Hlatest.
    + destruct (IH (S k) (acc ++ [SnapshotID latest]) st) as [Hgrow Hids].
      split; [done|]. intros ids Hrun sid Hsid.
      destruct (Hids ids Hrun sid Hsid) as [[Hacc| ->%list_elem_of_singleton]%elem_of_app|Hres];
        [by left| |by right].
      right. exists vid. apply (snapshot_of_grow st); [done|].
      exists latest. split; [|done]. unfold LatestSnapshot in Hlatest.
      by apply last_Some_elem_of.
    + fold (autoSnapshot env k vid).
      pose proof (histories_grow_AddSnapshot (io env k) vid (autoSnapshot env k vid) st
                    eq_refl) as Hadd.
      pose proof (AddSnapshot_mem (io env k) vid (autoSnapshot env k vid) st)
        as (_ & _ & Hs).
      pose proof (AddSnapshot_result (io env k) vid (autoSnapshot env k vid) st) as Hr.
      rewrite Hvol in Hs, Hr.
      destruct (AddSnapshot (io env k) vid (autoSnapshot env k vid) st) as [st1 r].
      simpl in Hadd, Hs, Hr. destruct r as [created|err]; [|by split].
      assert (created = autoSnapshot env k vid) as -> by (by destruct (io env k); simplify_eq).
      destruct (IH (S k) (acc ++ [SnapshotID (autoSnapshot env k vid)]) st1) as [Hgrow Hids].
      split; [by eapply histories_grow_trans|]. intros ids Hrun sid Hsid.
      destruct (Hids ids Hrun sid Hsid) as [[Hacc| ->%list_elem_of_singleton]%elem_of_app|Hres];
        [by left| |by right].
      right. exists vid. apply (snapshot_of_grow st1); [done|].
      exists (autoSnapshot env k vid). split; [|done].
      unfold ListSnapshots. rewrite Hs, lookup_insert_eq. simpl.
      apply elem_of_app. right. by apply list_elem_of_singleton.
Qed.

Lemma handleCreateCheckpoint_effect srv ctx body env st :
  (handleCreateCheckpoint srv ctx body env st).1 = st ∨
  ∃ principal vids,
    let loop := collectSnapshots srv principal env 0 vids [] st in
    (handleCreateCheckpoint srv ctx body env st).1 = loop.1 ∨
    ∃ io ids manifest,
      loop.2 = inr ids ∧ SnapshotIDs manifest = ids ∧
      (handleCreateCheckpoint srv ctx body env st).1 = (PutCheckpoint io manifest loop.1).1.
Proof.
  unfold handleCreateCheckpoint.
  destruct (principalFromContext ctx) as [principal ok].
  destruct (hasTokens srv && negb ok); [by left|].
  destruct body as [req| |]; [|by left..]. right. cbv zeta.
  match goal with
  | |- context [collectSnapshots srv principal env 0 ?vids [] st] =>
      exists principal, vids;
      destruct (collectSnapshots srv principal env 0 vids [] st) as [st1 [resp|ids]] eqn:Hloop
  end; simpl; [by left|]. right.
  match goal with
  | |- context [PutCheckpoint ?i ?m st1] =>
      exists i, ids, m; split_and!; [done..|];
      by destruct (PutCheckpoint i m st1) as [? []]
  end.
Qed.
End growth.

Section frames.
Context (srv : Server) (allowed : Volume → Prop).
Implicit Types (st : FileStore).

Lemma DeleteVolume_snaps_cp io id st :
  snaps (DeleteVolume io id st).1 = snaps st ∧ cp (DeleteVolume io id st).1 = cp st.
Proof. unfold DeleteVolume. destruct (volumes st !! id); [by destruct io|done]. Qed.

Lemma step_frame_refl st : step_frame allowed st st.
Proof. split_and!; [apply histories_grow_refl|by left..]. Qed.

Lemma step_frame_PutVolume now io v st :
  written allowed st v → step_frame allowed st (PutVolume now io v st).1.
Proof.
  intros Hw. destruct (PutVolume_mem now io v st) as (Hv & Hs & Hc).
  split_and!; [by apply histories_grow_snaps|by left|]. right. right. by exists now, v.
Qed.

Lemma step_has_frame st st' : step srv allowed st st' → step_frame allowed st st'.
Proof.
  destruct 1 as [ctx body env st|ctx id body env st|ctx id body env st|ctx id env st
                |ctx id body env st|ctx body env st|now io v st Hv].
  - destruct (handleCreateVolume_effect srv ctx body env st)
      as [->|(req & owner & _ & ->)]; [apply step_frame_refl|].
    apply step_frame_PutVolume. left. by eexists _, _, _.
  - destruct (handleAttachVolume_effect srv ctx id body env st)
      as [->|(vol & session & Hvol & Hp & ->)]; [apply step_frame_refl|].
    apply step_frame_PutVolume. right. left. by exists id, vol, session.
  - destruct (handleDetachVolume_effect srv ctx id body env st)
      as [->|(vol & Hvol & ->)]; [apply step_frame_refl|].
    apply step_frame_PutVolume. right. right. left. by exists id, vol.
  - destruct (handleDeleteVolume_effect srv ctx id env st) as [->| ->];
      [apply step_frame_refl|].
    destruct (DeleteVolume_snaps_cp (io env 0) id st) as [Hs Hc].
    split_and!; [by apply histories_grow_snaps|by left|].
    right. left. exists id. apply DeleteVolume_volumes.
  - destruct (handleCreateSnapshot_effect srv ctx id body env st) as [->|(note & ->)];
      [apply step_frame_refl|].
    destruct (AddSnapshot_mem (io env 0) id (newSnapshot id note env) st) as (Hv & Hc & _).
    split_and!; [by apply histories_grow_AddSnapshot|by left|by left].
  - destruct (handleCreateCheckpoint_effect srv ctx body env st)
      as [->|(principal & vids & Hloop)]; [apply step_frame_refl|].
    cbv zeta in Hloop.
    destruct (collectSnapshots_grows srv principal env vids 0 [] st) as [Hgrow Hids].
    pose proof (collectSnapshots_volumes srv principal env 0 vids [] st) as Hv.
    pose proof (collectSnapshots_cp srv principal env 0 vids [] st) as Hc.
    destruct Hloop as [->|(io & ids & manifest & Hrun & Hm & ->)].
    + split_and!; [done|by left|by left].
    + destruct (PutCheckpoint_mem io manifest
                  (collectSnapshots srv principal env 0 vids [] st).1) as (Hpv & Hps & Hpc).
      assert (histories_grow (collectSnapshots srv principal env 0 vids [] st).1
                (PutCheckpoint io manifest
                   (collectSnapshots srv principal env 0 vids [] st).1).1) as Hg2
        by (by apply histories_grow_snaps).
      split_and!.
      * by eapply histories_grow_trans.
      * right. exists manifest. rewrite Hpc, Hc. split; [done|].
        intros sid Hsid. rewrite Hm in Hsid.
        destruct (Hids ids Hrun sid Hsid) as [[]%elem_of_nil|[vid Hres]].
        exists vid. by eapply snapshot_of_grow.
      * left. by rewrite Hpv.
  - apply step_frame_PutVolume. by right; right; right.
Qed.
End frames.

Lemma stamped_wellformed now v st : volume_wellformed v → volume_wellformed (stamped now v st).
Proof.
  unfold volume_wellformed.
  destruct (stamped_fields now v st) as (-> & -> & -> & _ & _ & -> & -> & -> & -> & _).
  done.
Qed.

Lemma written_wellformed st v :
  (∀ id w, volumes st !! id = Some w → volume_wellformed w) →
  written (λ _, False) st v → volume_wellformed v.
Proof.
  intros Hst [(req & owner & u & ->)|[(id & vol & session & Hvol & Hp & ->)
                                     |[(id & vol & Hvol & ->)|[]]]].
  - unfold volume_wellformed, createdVolume. simpl. split_and!; try done.
    + by left.
    + by destruct (String.eqb (req_ExportMode req) "") eqn:E;
        [|apply String.eqb_neq in E].
    + by destruct (String.eqb (req_Class req) "") eqn:E; [|apply String.eqb_neq in E].
  - destruct (Hst id vol Hvol) as (_ & Hmode & Hpath & _ & Hexp & Hclass & _).
    unfold volume_wellformed.
    destruct vol as [? ? ? ? ? ? [? ? ?] ? ? ? ?]; simpl in *.
    split_and!; try done; [by right|]. by intros ? [= <-].
  - destruct (Hst id vol Hvol) as (_ & Hmode & Hpath & _ & Hexp & Hclass & _).
    unfold volume_wellformed.
    destruct vol as [? ? ? ? ? ? [? ? ?] ? ? ? ?]; simpl in *.
    split_and!; try done. by left.
Qed.

(** X4: in every state reached from the empty store by requests and
    direct updates of the registry, each volume is stored under its own
    [volume_id], each manifest under its own [manifest_id], and each
    snapshot in the history of the volume that its [volume_id] names. *)
Theorem reachable_keys_consistent (srv : Server) (allowed : Volume → Prop)
    (st : FileStore) :
  reachable srv allowed st → keys_consistent st.
Proof.
  induction 1 as [disk|st st' _ (Hv & Hc & Hs) Hstep].
  - split_and!.
    + intros id v. simpl. by rewrite lookup_empty.
    + intros mid c. simpl. by rewrite lookup_empty.
    + intros vid snap. unfold ListSnapshots. simpl. rewrite lookup_empty. simpl.
      by intros ?%elem_of_nil.
  - apply step_has_frame in Hstep as ([_ Hkey] & Hcp & Hvol). split_and!.
    + intros id v. destruct Hvol as [->|[[id' ->]|(now & w & _ & ->)]].
      * apply Hv.
      * intros [_ ?]%lookup_delete_Some. by apply Hv.
      * rewrite lookup_insert. case_decide as Hid; [|apply Hv].
        intros [= <-]. by destruct (stamped_fields now w st) as (-> & _).
    + intros mid c. destruct Hcp as [->|(manifest & -> & _)]; [apply Hc|].
      rewrite lookup_insert. case_decide as Hid; [|apply Hc]. by intros [= <-].
    + intros vid snap [Hin|Hk]%Hkey; [by apply Hs|done].
Qed.

(** X5: in every state that requests alone reach from the empty store,
    the mount handle of each volume is in step with the record: its state
    is the [attach_state], which is [available] or [attached] and never
    [preparing], its mode is the [export_mode], its host path is the mount
    directory joined with the [volume_id]; [class] and [export_mode] are
    not empty; and a session, when there is one, is held by the owner. *)
Theorem reachable_volumes_wellformed (srv : Server) (st : FileStore) :
  reachable srv (λ _, False) st →
  ∀ id v, volumes st !! id = Some v → volume_wellformed v.
Proof.
  induction 1 as [disk|st st' _ IH Hstep].
  - intros id v. simpl. by rewrite lookup_empty.
  - apply step_has_frame in Hstep as (_ & _ & Hvol). intros id v.
    destruct Hvol as [->|[[id' ->]|(now & w & Hw & ->)]].
    + apply IH.
    + intros [_ ?]%lookup_delete_Some. by eapply IH.
    + rewrite lookup_insert. case_decide as Hid; [|apply IH].
      intros [= <-]. by apply stamped_wellformed, (written_wellformed st).
Qed.

(** X6: in every state reached from the empty store by requests and
    direct updates of the registry, every snapshot id listed by a stored
    manifest is in the history of some volume, also after that volume has
    been deleted: a manifest never names a snapshot that is not kept. *)
Theorem reachable_manifests_resolved (srv : Server) (allowed : Volume → Prop)
    (st : FileStore) :
  reachable srv allowed st → manifests_resolved st.
Proof.
  induction 1 as [disk|st st' _ IH Hstep].
  - intros mid c sid. simpl. by rewrite lookup_empty.
  - apply step_has_frame in Hstep as (Hgrow & Hcp & _). intros mid c sid.
    destruct Hcp as [->|(manifest & -> & Hres)].
    + intros Hc Hsid. destruct (IH mid c sid Hc Hsid) as [vid Hsnap].
      exists vid. by eapply snapshot_of_grow.
    + rewrite lookup_insert. case_decide as Hid.
      * intros [= <-]. apply Hres.
      * intros Hc Hsid. destruct (IH mid c sid Hc Hsid) as [vid Hsnap].
        exists vid. by eapply snapshot_of_grow.
Qed.

(** X7: no request and no update of the registry removes or reorders
    snapshots: along any run of operations the history of every volume
    id is extended at its end only, also across the deletion of the
    volume. *)
Theorem histories_append_only (srv : Server) (allowed : Volume → Prop)
    (st st' : FileStore) :
  rtc (step srv allowed) st st' →
  ∀ vid, ListSnapshots vid st `prefix_of` ListSnapshots vid st'.
Proof.
  induction 1 as [st|st st1 st2 Hstep _ IH]; intros vid; [done|].
  apply step_has_frame in Hstep as ([Hp _] & _). etrans; [apply Hp|apply IH].
Qed.

Lemma reachable_afterCheckpoint (allowed : Volume → Prop) :
  reachable devServer allowed afterCheckpoint.
Proof.
  eapply reachable_step; [|apply step_checkpoint].
  eapply reachable_step; [|apply step_create].
  apply reachable_empty.
Defined.

Lemma reachable_keys_consistent_witness :
  keys_consistent afterCheckpoint ∧ size (volumes afterCheckpoint) = 1%nat ∧
  size (snaps afterCheckpoint) = 1%nat ∧ size (cp afterCheckpoint) = 1%nat.
Proof.
  split; [|by vm_compute].
  apply (reachable_keys_consistent devServer (λ _, True)), reachable_afterCheckpoint.
Defined.

Lemma reachable_volumes_wellformed_witness :
  ∃ v, volumes afterDetachTwice !! "vol-4d3c9b1e" = Some v ∧ volume_wellformed v.
Proof.
  assert (reachable devServer (λ _, False) afterDetachTwice) as Hreach.
  { eapply reachable_step; [|apply step_detach].
    eapply reachable_step; [|apply step_detach].
    eapply reachable_step; [|apply step_attach].
    eapply reachable_step; [|apply step_create].
    apply reachable_empty. }
  eexists. split; [by vm_compute|].
  apply (reachable_volumes_wellformed devServer afterDetachTwice Hreach "vol-4d3c9b1e").
  by vm_compute.
Defined.

Lemma reachable_manifests_resolved_witness :
  manifests_resolved afterCheckpoint ∧ (SnapshotIDs <$> ListCheckpoints afterCheckpoint)
                                       = [["snap-4d3c9b1e"]].
Proof.
  split; [|by vm_compute].
  apply (reachable_manifests_resolved devServer (λ _, True)), reachable_afterCheckpoint.
Defined.

Lemma histories_append_only_witness :
  ListSnapshots "vol-4d3c9b1e" afterCreate
    `prefix_of` ListSnapshots "vol-4d3c9b1e" afterCheckpoint.
Proof.
  apply (histories_append_only devServer (λ _, True) afterCreate afterCheckpoint).
  eapply rtc_l; [apply step_checkpoint|]. apply rtc_refl.
Defined.

(** ** Responses and the state file *)

Section outcomes.
Context (srv : Server).
Implicit Types (st : FileStore) (ctx : option string).

Local Ltac status_lia :=
  cbn [status putResponse deleteResponse snapshotResponse storeError notFound
       respondError respondJSON];
  unfold StatusOK, StatusCreated, StatusNoContent, StatusBadRequest, StatusUnauthorized,
    StatusForbidden, StatusNotFound, StatusInternalServerError in *;
  lia.

Local Ltac refuse := apply refused; status_lia.

Lemma pair_put {A} (p : FileStore * result A) (f : result A → Response) :
  (let '(st, r) := p in
   match r with Ok a => (st, f (Ok a)) | Err e => (st, f (Err e)) end) = (p.1, f p.2).
Proof. by destruct p as [? []]. Qed.

Lemma handleCreateVolume_outcome ctx body env st :
  outcome st (handleCreateVolume srv ctx body env st).
Proof.
  unfold handleCreateVolume. destruct body as [req| |]; [|refuse..].
  destruct (principalFromContext ctx) as [principal ok]. cbv zeta.
  destruct (hasTokens srv && negb ok); [refuse|].
  destruct (String.eqb (req_OwnerPrincipal req) "");
    [destruct (hasTokens srv); [|refuse]|destruct (hasTokens srv && _); [refuse|]];
    match goal with
    | |- context [PutVolume ?n ?i ?v st] =>
        replace (let '(st0, r) := PutVolume n i v st in _)
          with ((PutVolume n i v st).1, putResponse StatusCreated (PutVolume n i v st).2)
          by (by destruct (PutVolume n i v st) as [? []]);
        by apply ran_PutVolume
    end.
Qed.

Lemma handleAttachVolume_outcome ctx id body env st :
  outcome st (handleAttachVolume srv ctx id body env st).
Proof.
  unfold handleAttachVolume, GetVolume. destruct body as [req| |]; [|refuse..].
  destruct (principalFromContext ctx) as [principal ok]. cbv zeta.
  destruct (hasTokens srv && negb ok); [refuse|].
  destruct (volumes st !! id) as [vol|]; [|refuse].
  destruct (String.eqb (att_Principal req) "");
    [destruct (hasTokens srv); [|refuse]|];
    (destruct (negb _); [refuse|]);
    match goal with
    | |- context [PutVolume ?n ?i ?v st] =>
        replace (let '(st0, r) := PutVolume n i v st in _)
          with ((PutVolume n i v st).1, putResponse StatusOK (PutVolume n i v st).2)
          by (by destruct (PutVolume n i v st) as [? []]);
        by apply ran_PutVolume
    end.
Qed.

Lemma handleDetachVolume_outcome ctx id body env st :
  outcome st (handleDetachVolume srv ctx id body env st).
Proof.
  unfold handleDetachVolume, GetVolume.
  destruct body as [req| |]; [| |refuse];
    (destruct (volumes st !! id) as [vol|]; [|refuse]);
    destruct (principalFromContext ctx) as [principal ok];
    (destruct (hasTokens srv && negb ok); [refuse|]);
    (destruct (hasTokens srv && _); [refuse|]); cbv zeta;
    match goal with
    | |- context [PutVolume ?n ?i ?v st] =>
        replace (let '(st0, r) := PutVolume n i v st in _)
          with ((PutVolume n i v st).1, putResponse StatusOK (PutVolume n i v st).2)
          by (by destruct (PutVolume n i v st) as [? []]);
        by apply ran_PutVolume
    end.
Qed.

Lemma handleDeleteVolume_outcome ctx id env st :
  outcome st (handleDeleteVolume srv ctx id env st).
Proof.
  unfold handleDeleteVolume, GetVolume.
  destruct (principalFromContext ctx) as [principal ok]. cbv zeta.
  assert (outcome st
            (let '(st0, r) := DeleteVolume (io env 0) id st in
             match r with
             | Some ErrVolumeNotFound =>
                 (st0, respondError StatusNotFound "not_found" "volume not found")
             | Some (ErrOther msg as err) =>
                 (st0, respondError StatusInternalServerError "store_error" (Error_text err))
             | None => (st0, respondJSON StatusNoContent PNone)
             end)) as Hrun.
  { replace (let '(st0, r) := DeleteVolume (io env 0) id st in _)
      with ((DeleteVolume (io env 0) id st).1,
            deleteResponse (DeleteVolume (io env 0) id st).2)
      by (by destruct (DeleteVolume (io env 0) id st) as [? [[]|]]).
    apply ran_DeleteVolume. }
  destruct (hasTokens srv); [|exact Hrun].
  destruct (negb ok); [refuse|]. destruct (volumes st !! id) as [vol|]; [|refuse].
  destruct (negb _); [refuse|exact Hrun].
Qed.

Lemma handleCreateSnapshot_outcome ctx id body env st :
  outcome st (handleCreateSnapshot srv ctx id body env st).
Proof.
  unfold handleCreateSnapshot, GetVolume.
  destruct (principalFromContext ctx) as [principal ok]. cbv zeta.
  destruct (hasTokens srv && negb ok); [refuse|].
  destruct (volumes st !! id) as [vol|]; [|refuse].
  destruct (hasTokens srv && _); [refuse|].
  destruct body as [req| |]; [| |refuse];
    match goal with
    | |- context [AddSnapshot ?i ?vid ?snap st] =>
        replace (let '(st0, r) := AddSnapshot i vid snap st in _)
          with ((AddSnapshot i vid snap st).1, snapshotResponse (AddSnapshot i vid snap st).2)
          by (by destruct (AddSnapshot i vid snap st) as [? [|[]]]);
        apply ran_AddSnapshot
    end.
Qed.

Lemma flushLocked_persisted st : persisted (flushLocked None st).1.
Proof. done. Qed.

Lemma outcome_success_persisted st p :
  outcome st p → 200 ≤ status p.2 < 300 → persisted p.1.
Proof.
  destruct 1 as [resp Hresp|ok now io v Hok|io id|io vid snap]; simpl.
  - lia.
  - rewrite PutVolume_result. destruct io as [msg|]; simpl; [status_lia|].
    intros _. unfold PutVolume. destruct v as [k ? ? ? ? ? ? ? ? ? ?]; simpl.
    destruct (volumes st !! k) as [e|]; simpl; [by destruct (IsZero (CreatedAt e))|done].
  - rewrite DeleteVolume_result.
    destruct (volumes st !! id) as [vol|] eqn:Hvol; [|status_lia].
    destruct io as [msg|]; simpl; [status_lia|].
    intros _. unfold DeleteVolume. by rewrite Hvol.
  - rewrite AddSnapshot_result.
    destruct (volumes st !! vid) as [vol|] eqn:Hvol; [|status_lia].
    destruct io as [msg|]; simpl; [status_lia|].
    intros _. unfold AddSnapshot. by rewrite Hvol.
Qed.

Lemma outcome_refusal_unchanged st p :
  outcome st p → 400 ≤ status p.2 < 500 → p.1 = st.
Proof.
  destruct 1 as [resp Hresp|ok now io v Hok|io id|io vid snap]; simpl; [done|..].
  - rewrite PutVolume_result. destruct io as [msg|]; simpl; [status_lia|].
    lia.
  - rewrite DeleteVolume_result. unfold DeleteVolume.
    destruct (volumes st !! id) as [vol|] eqn:Hvol; [|done].
    destruct io as [msg|]; simpl; status_lia.
  - rewrite AddSnapshot_result. unfold AddSnapshot.
    destruct (volumes st !! vid) as [vol|] eqn:Hvol; [|done].
    destruct io as [msg|]; simpl; status_lia.
Qed.
End outcomes.

Lemma collectSnapshots_error_status srv principal env vids :
  ∀ k acc st resp,
    (collectSnapshots srv principal env k vids acc st).2 = inl resp →
    status resp = StatusBadRequest ∨ status resp = StatusForbidden ∨
    status resp = StatusInternalServerError.
Proof.
  induction vids as [|vid vids IH]; intros k acc st resp; simpl; [done|].
  unfold GetVolume. destruct (volumes st !! vid) as [vol|]; [|intros [= <-]; by left].
  destruct (_ && _); [intros [= <-]; by right; left|].
  destruct (LatestSnapshot vid st); [apply IH|].
  destruct (AddSnapshot _ _ _ _) as [st1 [created|err]]; simpl;
    [apply IH|intros [= <-]; by right; right].
Qed.

Lemma handleCreateCheckpoint_success_persisted srv ctx body env st :
  200 ≤ status (handleCreateCheckpoint srv ctx body env st).2 < 300 →
  persisted (handleCreateCheckpoint srv ctx body env st).1.
Proof.
  unfold handleCreateCheckpoint.
  destruct (principalFromContext ctx) as [principal ok].
  destruct (hasTokens srv && negb ok); [simpl; unfold StatusUnauthorized; lia|].
  destruct body as [req| |]; [|simpl; unfold StatusBadRequest; lia..]. cbv zeta.
  match goal with
  | |- context [collectSnapshots srv principal env 0 ?vids [] st] =>
      pose proof (collectSnapshots_error_status srv principal env vids 0 [] st) as Herr;
      destruct (collectSnapshots srv principal env 0 vids [] st) as [st1 [resp|ids]]
  end; simpl in *.
  - destruct (Herr resp eq_refl) as [->|[->| ->]];
      unfold StatusBadRequest, StatusForbidden, StatusInternalServerError; lia.
  - unfold PutCheckpoint.
    match goal with |- context [flushLocked ?i _] => destruct i as [msg|] end; simpl;
      [unfold StatusInternalServerError; lia|done].
Qed.

(** X8: when a handler that writes to the store answers with a success
    status, the state file already holds the encoding of the volumes,
    snapshots and checkpoints that the store holds in memory after the
    request; a handler that only reads leaves the store as it was. *)
Theorem success_is_persisted (srv : Server) (ctx : option string) (r : Router.ApiRoute)
    (env : Env) (st : FileStore) :
  200 ≤ status (Router.dispatch srv ctx r env st).2 < 300 →
  if mutating r then persisted (Router.dispatch srv ctx r env st).1
  else (Router.dispatch srv ctx r env st).1 = st.
Proof.
  destruct r; simpl; try done.
  - intros H. eapply outcome_success_persisted; [apply handleCreateVolume_outcome|exact H].
  - apply handleCreateCheckpoint_success_persisted.
  - intros H. eapply outcome_success_persisted; [apply handleAttachVolume_outcome|exact H].
  - intros H. eapply outcome_success_persisted; [apply handleDetachVolume_outcome|exact H].
  - intros H. eapply outcome_success_persisted; [apply handleCreateSnapshot_outcome|exact H].
  - intros H. eapply outcome_success_persisted; [apply handleDeleteVolume_outcome|exact H].
Qed.

(** X9: a request that create, attach, detach, add-snapshot or delete
    (or a reading handler) answers with a 4xx status changes nothing,
    neither in memory nor in the state file. *)
Theorem client_error_changes_nothing (srv : Server) (ctx : option string)
    (r : Router.ApiRoute) (env : Env) (st : FileStore) :
  is_checkpoint r = false →
  400 ≤ status (Router.dispatch srv ctx r env st).2 < 500 →
  (Router.dispatch srv ctx r env st).1 = st.
Proof.
  destruct r; simpl; try done; intros _.
  - intros H. eapply outcome_refusal_unchanged; [apply handleCreateVolume_outcome|exact H].
  - intros H. eapply outcome_refusal_unchanged; [apply handleAttachVolume_outcome|exact H].
  - intros H. eapply outcome_refusal_unchanged; [apply handleDetachVolume_outcome|exact H].
  - intros H. eapply outcome_refusal_unchanged; [apply handleCreateSnapshot_outcome|exact H].
  - intros H. eapply outcome_refusal_unchanged; [apply handleDeleteVolume_outcome|exact H].
Qed.

Lemma success_is_persisted_witness :
  persisted afterCreate ∧ persisted afterCheckpoint.
Proof.
  split.
  - apply (success_is_persisted devServer None (Router.PostVolumes (DecodeOk app1Request))
             calmEnv emptyStore). by vm_compute.
  - apply (success_is_persisted devServer None (Router.PostCheckpoints (DecodeOk checkpointAll))
             calmEnv afterCreate). by vm_compute.
Defined.

Lemma client_error_changes_nothing_witness :
  (handleDeleteVolume (authServer demoTokens) (Some "service:mallory") "vol-4d3c9b1e"
     calmEnv afterCreate).1 = afterCreate.
Proof.
  apply (client_error_changes_nothing (authServer demoTokens) (Some "service:mallory")
           (Router.DeleteVolumeByID "vol-4d3c9b1e") calmEnv afterCreate); by vm_compute.
Defined.

(** ** The router *)

Section known_caller.
Context (srv : Server) (ctx : option string).
Hypothesis Hctx : hasTokens srv = true → is_Some ctx.

Local Ltac known_caller :=
  destruct ctx as [caller|], (hasTokens srv) eqn:Htok; simpl;
  try (by destruct Hctx as [? [=]]).

Local Ltac not_401 :=
  repeat case_match; simplify_eq/=;
  unfold StatusOK, StatusCreated, StatusNoContent, StatusBadRequest, StatusUnauthorized,
    StatusForbidden, StatusNotFound, StatusInternalServerError in *; lia.

Lemma dispatch_knows_caller r env st :
  status (Router.dispatch srv ctx r env st).2 ≠ StatusUnauthorized.
Proof.
  destruct r; cbn [Router.dispatch snd].
  - unfold handleCreateVolume. known_caller; not_401.
  - unfold handleListVolumes. known_caller; not_401.
  - unfold handleCreateCheckpoint.
    assert (hasTokens srv && negb (principalFromContext ctx).2 = false) as Hgate
      by (known_caller; done).
    destruct (principalFromContext ctx) as [principal ok]; simpl in Hgate. rewrite Hgate.
    destruct body as [req| |]; [|not_401..]. cbv zeta.
    match goal with
    | |- context [collectSnapshots srv principal env 0 ?vids [] st] =>
        pose proof (collectSnapshots_error_status srv principal env vids 0 [] st) as Herr;
        destruct (collectSnapshots srv principal env 0 vids [] st) as [st1 [resp|ids]]
    end; simpl in *.
    + destruct (Herr resp eq_refl) as [->|[->| ->]]; not_401.
    + not_401.
  - unfold handleListCheckpoints. known_caller; not_401.
  - unfold handleGetVolume, GetVolume. known_caller; not_401.
  - unfold handleAttachVolume, GetVolume. known_caller; not_401.
  - unfold handleDetachVolume, GetVolume. known_caller; not_401.
  - unfold handleCreateSnapshot, GetVolume. known_caller; not_401.
  - unfold handleListSnapshots, GetVolume. known_caller; not_401.
  - unfold handleDeleteVolume, GetVolume. known_caller; not_401.
Qed.

End known_caller.

(** X10: through the router a 401 comes from the middleware alone: the
    server has a token provider, the Authorization header carries no
    bearer token that the provider knows, and the store is not touched.
    The handlers' own answer (token required) is never written. *)
Theorem unauthorized_only_from_middleware (srv : Server) (req : Router.Request) (env : Env)
    (st : FileStore) (resp : Response) :
  (Router.ServeHTTP srv req env st).2 = Router.WResponse resp →
  status resp = StatusUnauthorized →
  (Router.ServeHTTP srv req env st).1 = st ∧
  ∃ tp, tokens srv = Some tp ∧
    if Router.HasPrefix (Router.Authorization req) "Bearer " then
      tp !! Router.TrimSpace (Router.TrimPrefix (Router.Authorization req) "Bearer ") = None ∧
      payload resp = PError "unauthorized" "invalid token"
    else payload resp = PError "unauthorized" "missing bearer token".
Proof.
  unfold Router.ServeHTTP. destruct (Router.route req) as [|r]; [done|].
  unfold hasTokens, Router.requireAuth. destruct srv as [[tp|]]; simpl.
  - destruct (Router.HasPrefix _ _); simpl.
    + destruct (tp !! _) as [principal|] eqn:Htoken; simpl.
      * intros Hresp Hstatus. exfalso.
        apply (dispatch_knows_caller (authServer tp) (Some principal) ltac:(by eauto) r env st).
        destruct (Router.dispatch _ _ _ _ _) as [st' resp']. simpl in *. congruence.
      * intros [= <-] _. eauto.
    + intros [= <-] _. eauto.
  - intros Hresp Hstatus. exfalso.
    apply (dispatch_knows_caller devServer None ltac:(done) r env st).
    unfold devServer.
    destruct (Router.dispatch _ _ _ _ _) as [st' resp']. simpl in *. congruence.
Qed.

Lemma unauthorized_only_from_middleware_witness :
  (Router.ServeHTTP (authServer demoTokens)
     {| Router.Authorization := "Bearer stolen";
        Router.route := Router.V1 (Router.DeleteVolumeByID "vol-4d3c9b1e") |}
     calmEnv afterCreate).1 = afterCreate.
Proof.
  eapply proj1, (unauthorized_only_from_middleware (authServer demoTokens)
    {| Router.Authorization := "Bearer stolen";
       Router.route := Router.V1 (Router.DeleteVolumeByID "vol-4d3c9b1e") |}
    calmEnv afterCreate); [by vm_compute|done].
Defined.

Lemma substring_all (s : string) : String.substring 0 (String.length s) s = s.
Proof. induction s as [|a s IH]; simpl; [done|by rewrite IH]. Qed.

Lemma TrimPrefix_Bearer (x : string) :
  Router.HasPrefix ("Bearer " +:+ x) "Bearer " = true ∧
  Router.TrimPrefix ("Bearer " +:+ x) "Bearer " = x.
Proof.
  unfold Router.TrimPrefix, Router.HasPrefix. cbv [String.append]. simpl.
  split; [by destruct x|]. destruct x as [|a x]; [done|]. simpl.
  by rewrite substring_all.
Qed.

Lemma list_ascii_of_string_append (s t : string) :
  String.list_ascii_of_string (s +:+ t) =
  String.list_ascii_of_string s ++ String.list_ascii_of_string t.
Proof. induction s as [|a s IH]; cbv [String.append]; simpl; [done|]. f_equal. apply IH. Qed.

Lemma all_chars_Forall (p : Ascii.ascii → bool) (s : string) :
  all_chars p s = true ↔ Forall (λ a, p a = true) (String.list_ascii_of_string s).
Proof.
  induction s as [|a s IH]; simpl; [by split; [constructor|]|].
  rewrite Forall_cons, <- IH, andb_true_iff. done.
Qed.

Lemma graphic_no_space (a : Ascii.ascii) :
  graphic a = true →
  Router.asciiSpace a = false ∧
  (∀ b, Router.spaceRune2 a b = false ∧ Router.spaceRune2 b a = false) ∧
  (∀ b c, Router.spaceRune3 a b c = false ∧ Router.spaceRune3 c b a = false).
Proof.
  unfold graphic, Router.asciiSpace, Router.spaceRune2, Router.spaceRune3. cbv zeta.
  intros [H1 H2]%andb_true_iff. apply N.leb_le in H1, H2.
  generalize dependent (Ascii.N_of_ascii a). intros n H1 H2.
  assert (∀ k, (n <? 128)%N = true → (128 <=? k)%N = true → (n =? k)%N = false) as Hhigh
    by (intros k ?%N.ltb_lt ?%N.leb_le; apply N.eqb_neq; lia).
  assert ((n <? 128)%N = true) as Hn by (apply N.ltb_lt; lia).
  split; [|split; intros b; [|intros c]; split].
  - destruct (N.leb_spec 9 n), (N.leb_spec n 13), (N.eqb_spec n 32); simpl; try done; lia.
  - by rewrite (Hhigh 194%N).
  - by rewrite (Hhigh 133%N), (Hhigh 160%N), andb_false_r.
  - by rewrite (Hhigh 225%N), (Hhigh 226%N), (Hhigh 227%N).
  - rewrite (Hhigh 128%N), (Hhigh 168%N), (Hhigh 169%N), (Hhigh 175%N), (Hhigh 159%N) by done.
    assert ((128 <=? n)%N = false) as -> by (apply N.leb_gt; lia).
    simpl. by rewrite !andb_false_r.
Qed.

Lemma trimLeft_spaces (p rest : list Ascii.ascii) :
  Forall (λ a, Router.asciiSpace a = true) p →
  Router.trimLeft (p ++ rest) = Router.trimLeft rest.
Proof. induction 1 as [|a p Ha _ IH]; simpl; [done|]. by rewrite Ha. Qed.

Lemma trimRightRev_spaces (p rest : list Ascii.ascii) :
  Forall (λ a, Router.asciiSpace a = true) p →
  Router.trimRightRev (p ++ rest) = Router.trimRightRev rest.
Proof. induction 1 as [|a p Ha _ IH]; simpl; [done|]. by rewrite Ha. Qed.

Lemma trimLeft_graphic (a : Ascii.ascii) (rest : list Ascii.ascii) :
  graphic a = true → Router.trimLeft (a :: rest) = a :: rest.
Proof.
  intros (Ha & H2 & H3)%graphic_no_space. simpl. rewrite Ha.
  destruct rest as [|b [|c rest]]; [done| |].
  - by rewrite (proj1 (H2 b)).
  - by rewrite (proj1 (H2 b)), (proj1 (H3 b c)).
Qed.

Lemma trimRightRev_graphic (a : Ascii.ascii) (rest : list Ascii.ascii) :
  graphic a = true → Router.trimRightRev (a :: rest) = a :: rest.
Proof.
  intros (Ha & H2 & H3)%graphic_no_space. simpl. rewrite Ha.
  destruct rest as [|b [|c rest]]; [done| |].
  - by rewrite (proj2 (H2 b)).
  - by rewrite (proj2 (H2 b)), (proj2 (H3 b c)).
Qed.

Lemma TrimSpace_padded (pad token pad' : string) :
  all_chars Router.asciiSpace pad = true →
  all_chars graphic token = true →
  all_chars Router.asciiSpace pad' = true →
  Router.TrimSpace (pad +:+ token +:+ pad') = token.
Proof.
  rewrite !all_chars_Forall. intros Hpad Htoken Hpad'. unfold Router.TrimSpace.
  rewrite !list_ascii_of_string_append, trimLeft_spaces by done.
  rewrite <- (String.string_of_list_ascii_of_string token) at 2.
  f_equal.
  destruct (String.list_ascii_of_string token) as [|a t] eqn:Ht.
  - simpl. rewrite <- (app_nil_r (String.list_ascii_of_string pad')), trimLeft_spaces by done.
    done.
  - simpl app. rewrite trimLeft_graphic by by inversion Htoken.
    change (a :: t ++ ?l) with ((a :: t) ++ l).
    rewrite reverse_app, trimRightRev_spaces by by apply Forall_reverse.
    destruct (reverse (a :: t)) as [|z t'] eqn:Hrev.
    + by apply (f_equal reverse) in Hrev; rewrite reverse_involutive in Hrev.
    + rewrite trimRightRev_graphic; [by rewrite <- Hrev, reverse_involutive|].
      assert (z ∈ a :: t) as Hz by (apply elem_of_reverse; rewrite Hrev; left).
      exact (proj1 (Forall_forall _ _) Htoken z Hz).
Qed.

(** X11: the middleware accepts a bearer token with white space around
    it: for a token of printable characters that the provider knows, a
    header made of the word Bearer, one space, any run of ASCII white space,
    the token, and again any run of ASCII white space is served as the
    token's principal. *)
Theorem bearer_token_padding (tp : TokenProvider) (pad token pad' principal : string)
    (r : Router.ApiRoute) (env : Env) (st : FileStore) :
  tp !! token = Some principal →
  all_chars graphic token = true →
  all_chars Router.asciiSpace pad = true →
  all_chars Router.asciiSpace pad' = true →
  Router.ServeHTTP (authServer tp)
    {| Router.Authorization := "Bearer " +:+ pad +:+ token +:+ pad';
       Router.route := Router.V1 r |} env st
  = ((Router.dispatch (authServer tp) (Some principal) r env st).1,
     Router.WResponse (Router.dispatch (authServer tp) (Some principal) r env st).2).
Proof.
  intros Hknown Htoken Hpad Hpad'.
  unfold Router.ServeHTTP, Router.requireAuth, authServer, hasTokens.
  cbn [tokens Router.route Router.Authorization].
  destruct (TrimPrefix_Bearer (pad +:+ token +:+ pad')) as [-> ->]. cbn [negb].
  rewrite TrimSpace_padded, Hknown by done.
  by destruct (Router.dispatch _ _ _ _ _).
Qed.

Lemma bearer_token_padding_witness :
  (Router.ServeHTTP (authServer demoTokens)
     {| Router.Authorization := "Bearer   secrettoken123 ";
        Router.route := Router.V1 Router.GetVolumes |} calmEnv afterCreate).1 = afterCreate.
Proof.
  pose proof (bearer_token_padding demoTokens "  " "secrettoken123" " " "service:app1"
    Router.GetVolumes calmEnv afterCreate) as H.
  cbv [String.append] in H. rewrite H by (by vm_compute). done.
Defined.

(** ** Token providers and the TLS settings *)

Lemma foldM_insert_keys {A} (dec : json → option A) (l : list (string * json)) :
  ∀ m0 m : gmap string A,
    foldM (λ m kv, x ← dec kv.2; Some (<[kv.1 := x]> m)) m0 l = Some m →
    ∀ k, is_Some (m !! k) ↔ is_Some (m0 !! k) ∨ k ∈ l.*1.
Proof.
  induction l as [|[k0 j] l IH]; simpl; intros m0 m.
  - intros [= <-] k. rewrite elem_of_nil. tauto.
  - destruct (dec j) as [x|]; simpl; [|done]. intros Hm k.
    rewrite (IH _ _ Hm k), elem_of_cons, lookup_insert_is_Some. 
    destruct (decide (k0 = k)) as [->|]; intuition congruence.
Qed.

(** X12: a token provider that [NewStaticProvider] returns is never
    empty: the file held a JSON object, the provider knows exactly the
    keys of that object as tokens, and there is at least one.  So [main]
    either runs without authentication (no token file named), stops, or
    runs with at least one token. *)
Theorem main_tokens_nonempty (tokenFile : string) (content : Auth.TokenFile)
    (p : Auth.StaticProvider) :
  Config.main_tokens tokenFile content = Config.Tokens p →
  tokenFile ≠ "" ∧ (0 < Auth.Size p)%nat ∧
  ∃ members, content = Auth.TokensJSON (JObj members) ∧
    ∀ token, is_Some (Auth.StaticProvider_Principal p token) ↔ token ∈ members.*1.
Proof.
  unfold Config.main_tokens, Auth.NewStaticProvider, Auth.unmarshalTokens.
  destruct (String.eqb_spec tokenFile ""); [done|].
  destruct content as [msg| |doc]; [done..|].
  destruct doc as [| | | | | |members]; simpl; try done.
  destruct (foldM _ _ _) as [raw|] eqn:Hraw; simpl; [|done].
  case_bool_decide as Hsize; [done|]. intros [= <-].
  split; [done|]. split; [unfold Auth.Size; simpl; lia|].
  exists members. split; [done|]. intros token.
  unfold Auth.StaticProvider_Principal. simpl.
  rewrite (foldM_insert_keys _ _ _ _ Hraw token), lookup_empty, is_Some_alt. tauto.
Qed.

Lemma main_tokens_nonempty_witness :
  ∃ members, Auth.TokensJSON (JObj [("secrettoken123", JStr "service:app1")])
             = Auth.TokensJSON (JObj members).
Proof.
  destruct (main_tokens_nonempty "tokens.json"
              (Auth.TokensJSON (JObj [("secrettoken123", JStr "service:app1")]))
              {| Auth.byToken := {[ "secrettoken123" := "service:app1" ]} |})
    as (_ & _ & members & Hdoc & _); [by vm_compute|].
  by exists members.
Defined.

(** X13: the token file round trip: the JSON object that lists a
    non-empty table of tokens is loaded as a provider that resolves
    exactly that table, and an empty table is refused. *)
Theorem NewStaticProvider_roundtrip (table : gmap string string) :
  Auth.NewStaticProvider (Auth.TokensJSON (enc_map JStr table)) =
    if decide (table = ∅) then inr "token file contained no entries"
    else inl {| Auth.byToken := table |}.
Proof.
  pose proof (dec_enc_map (dec_string "") JStr table (λ _ _ _, eq_refl)) as Hdec.
  unfold Auth.NewStaticProvider, Auth.unmarshalTokens.
  unfold dec_map, enc_map in *. simpl in *.
  destruct (foldM _ _ _) as [raw|]; simpl in *; [|done].
  injection Hdec as ->.
  destruct (decide (table = ∅)) as [->|Hne].
  - by rewrite bool_decide_eq_true_2 by apply map_size_empty.
  - rewrite bool_decide_eq_false_2; [done|]. by rewrite map_size_empty_iff.
Qed.

(** X14: [NewInMemory] copies the mapping it is given: the provider
    resolves a token to the principal the mapping gives it, and to
    nothing when the mapping has no entry for it. *)
Theorem NewInMemory_Principal (mapping : gmap string string) (token : string) :
  Auth.InMemoryProvider_Principal (Auth.NewInMemory mapping) token = mapping !! token.
Proof.
  unfold Auth.InMemoryProvider_Principal, Auth.NewInMemory. simpl. f_equal.
  apply (map_fold_weak_ind (λ r m, r = m)); [done|].
  by intros k v m r _ ->.
Qed.

(** X15: the transport that [buildTLSConfig] selects.  The server speaks
    plain HTTP exactly when neither a certificate nor a key is named, and
    then a client CA bundle that is named is not looked at; a TLS
    configuration needs both paths and a key pair that loads, has TLS 1.2
    as its minimum version, and demands a verified client certificate
    exactly when a client CA bundle is named. *)
Theorem buildTLSConfig_modes (certPath keyPath clientCAPath : string)
    (keyPair caFile : option string) (caFound : bool) :
  let setup := Config.buildTLSConfig certPath keyPath clientCAPath keyPair caFile caFound in
  (setup = Config.PlainHTTP ↔ certPath = "" ∧ keyPath = "") ∧
  ∀ cfg, setup = Config.TLS cfg →
    certPath ≠ "" ∧ keyPath ≠ "" ∧ keyPair = None ∧
    Config.MinVersion cfg = "VersionTLS12" ∧
    Config.withClientCAs cfg = Config.RequireAndVerifyClientCert cfg ∧
    (Config.RequireAndVerifyClientCert cfg = true ↔ clientCAPath ≠ "") ∧
    (clientCAPath ≠ "" → caFile = None ∧ caFound = true).
Proof.
  unfold Config.buildTLSConfig.
  destruct (String.eqb_spec certPath ""), (String.eqb_spec keyPath ""),
    (String.eqb_spec clientCAPath ""), keyPair, caFile, caFound; simpl;
    (split; [split; [try done; tauto|try done; intros [? ?]; congruence]|]);
    intros cfg Hcfg; try done; injection Hcfg as <-; simpl;
    repeat split; try done; try congruence.
Qed.

(** ** Listing and reading *)

(** X16: what list-volumes discloses.  With a token provider the
    answer holds exactly the stored volumes whose owner is the caller;
    without one it holds every stored volume. *)
Theorem handleListVolumes_isolation (srv : Server) (ctx : option string) (st : FileStore) :
  (hasTokens srv = true → is_Some ctx) →
  ∃ vs, handleListVolumes srv ctx st = respondJSON StatusOK (PVolumes vs) ∧
    ∀ v, v ∈ vs ↔
      (∃ id, volumes st !! id = Some v) ∧
      (hasTokens srv = true → Some (OwnerPrincipal v) = ctx).
Proof.
  intros Hctx. unfold handleListVolumes.
  destruct ctx as [caller|], (hasTokens srv) eqn:Htok; simpl;
    try (by destruct Hctx as [? [=]]); eexists; (split; [done|]); intros v.
  - unfold ListVolumesByOwner. rewrite list_elem_of_filter, list_elem_of_fmap.
    split.
    + intros [<- [[id v'] [-> Hin%elem_of_map_to_list]]]. split; [eauto|done].
    + intros [[id Hv] Hown]. split; [by injection (Hown eq_refl)|].
      exists (id, v). by rewrite elem_of_map_to_list.
  - unfold ListVolumes. rewrite list_elem_of_fmap. split.
    + intros [[id v'] [-> Hin%elem_of_map_to_list]]. split; [eauto|done].
    + intros [[id Hv] _]. exists (id, v). by rewrite elem_of_map_to_list.
  - unfold ListVolumes. rewrite list_elem_of_fmap. split.
    + intros [[id v'] [-> Hin%elem_of_map_to_list]]. split; [eauto|done].
    + intros [[id Hv] _]. exists (id, v). by rewrite elem_of_map_to_list.
Qed.

(** X17: add-snapshot followed by list-snapshots.  When the add is
    answered 201, the same caller's listing of that volume is answered 200
    with the earlier history followed by the new snapshot, whose note is
    the one of the request (empty for an empty body). *)
Theorem snapshot_then_list (srv : Server) (ctx : option string) (id : string)
    (body : Decoded createSnapshotRequest) (env : Env) (st : FileStore) :
  status (handleCreateSnapshot srv ctx id body env st).2 = StatusCreated →
  handleListSnapshots srv ctx id (handleCreateSnapshot srv ctx id body env st).1
    = respondJSON StatusOK
        (PSnapshots (ListSnapshots id st ++ [newSnapshot id (snapshotNote body) env])).
Proof.
  unfold handleCreateSnapshot, handleListSnapshots, GetVolume.
  destruct (principalFromContext ctx) as [principal ok]. cbv zeta.
  destruct (hasTokens srv && negb ok) eqn:Hgate; [done|].
  destruct (volumes st !! id) as [vol|] eqn:Hvol; [|done].
  destruct (hasTokens srv && negb (String.eqb (OwnerPrincipal vol) principal)) eqn:Hown;
    [done|].
  unfold AddSnapshot. rewrite Hvol. unfold flushLocked.
  destruct body as [req| |]; [| |done];
    (destruct (io env 0); [done|]); simpl; intros _;
    rewrite Hvol, Hown; unfold ListSnapshots; simpl; by rewrite lookup_insert_eq.
Qed.

(** ** Attach followed by detach *)

Lemma handleAttachVolume_ok srv ctx id body env st :
  status (handleAttachVolume srv ctx id body env st).2 = StatusOK →
  ∃ vol session,
    volumes st !! id = Some vol ∧ Principal session = OwnerPrincipal vol ∧
    (handleAttachVolume srv ctx id body env st).1
      = (PutVolume (now env 1) None (attached session vol) st).1.
Proof.
  unfold handleAttachVolume, GetVolume. destruct body as [req| |]; [|done..].
  destruct (principalFromContext ctx) as [principal ok]. cbv zeta.
  destruct (hasTokens srv && negb ok); [done|].
  destruct (volumes st !! id) as [vol|]; [|done].
  cbv zeta.
  assert (∀ p, p = OwnerPrincipal vol →
               Principal {| SessionID := if String.eqb (att_SessionID req) ""
                                         then "sess-" +:+ shortID (uuid env 0)
                                         else att_SessionID req;
                            Principal := p;
                            ConsumerEndpoint := att_ConsumerEndpoint req;
                            AttachedAt := now env 0 |} = OwnerPrincipal vol) as Hp by done.
  destruct (String.eqb (att_Principal req) "");
    [destruct (hasTokens srv); [|done]|];
    match goal with
    | |- context [String.eqb ?p (OwnerPrincipal vol)] =>
        destruct (String.eqb_spec p (OwnerPrincipal vol)) as [Heq|]; cbn [negb]; [|done];
        match goal with
        | |- context [PutVolume ?n ?i ?v st] =>
            replace (let '(st0, r) := PutVolume n i v st in _)
              with ((PutVolume n i v st).1, putResponse StatusOK (PutVolume n i v st).2)
              by (by destruct (PutVolume n i v st) as [? []]);
            cbn [fst snd]; rewrite PutVolume_result;
            destruct i as [msg|]; [done|]; intros _;
            eexists vol, _; split; [done|]; split; [exact (Hp p Heq)|done]
        end
    end.
Qed.

(** X18: attach followed by detach is a round trip.  For an available
    volume without a session, stored under its own id with a creation
    time, an attach answered 200 followed by a detach answered 200 leaves
    the volume map as it was, except that the record's updated_at is the
    time of the detach. *)
Theorem attach_then_detach (srv : Server) (ctx ctx' : option string) (id : string)
    (req : Decoded attachRequest) (body : Decoded detachRequest) (env env' : Env)
    (st : FileStore) (vol : Volume) :
  volumes st !! id = Some vol →
  VolumeID vol = id →
  AttachState vol = "available" → State (MountHandle vol) = "available" →
  AttachSession vol = None →
  IsZero (CreatedAt vol) = false →
  let st1 := (handleAttachVolume srv ctx id req env st).1 in
  let st2 := (handleDetachVolume srv ctx' id body env' st1).1 in
  status (handleAttachVolume srv ctx id req env st).2 = StatusOK →
  status (handleDetachVolume srv ctx' id body env' st1).2 = StatusOK →
  volumes st2 = <[id := set_UpdatedAt (now env' 0) vol]> (volumes st) ∧
  snaps st2 = snaps st ∧ cp st2 = cp st.
Proof.
  intros Hvol Hid Hstate Hmount Hsession Hcreated st1 st2 Hattach Hdetach.
  destruct (handleAttachVolume_ok _ _ _ _ _ _ Hattach)
    as (vol0 & session & Hvol0 & _ & Hst1).
  assert (vol0 = vol) as -> by congruence.
  apply handleDetachVolume_ok_iff in Hdetach as (Hbody & Hio & vol1 & Hvol1 & Hauth).
  subst st2.
  rewrite (handleDetachVolume_authorised _ _ _ _ _ _ _ Hvol1 Hbody Hauth). cbv zeta. simpl.
  destruct (PutVolume_mem (now env' 0) (io env' 0) (detached vol1) st1) as (-> & -> & ->).
  subst st1. rewrite Hst1 in *. clear Hst1 Hattach.
  set (vol' := stamped (now env 1) (attached session vol) st) in *.
  set (st1 := (PutVolume (now env 1) None (attached session vol) st).1) in *.
  assert (volumes st1 = <[id := vol']> (volumes st)) as Hv.
  { subst st1 vol'.
    destruct (PutVolume_mem (now env 1) None (attached session vol) st) as (-> & _).
    f_equal. by destruct vol. }
  assert (snaps st1 = snaps st ∧ cp st1 = cp st) as [-> ->].
  { subst st1.
    by destruct (PutVolume_mem (now env 1) None (attached session vol) st) as (_ & -> & ->). }
  split; [|done].
  rewrite Hv, lookup_insert_eq in Hvol1. injection Hvol1 as <-.
  assert (VolumeID (detached vol') = id) as Hid' by (subst vol'; unfold stamped; by destruct vol).
  rewrite Hid'. unfold stamped at 1. rewrite Hid', !Hv, lookup_insert_eq, insert_insert_eq.
  f_equal. subst vol'. rewrite stamped_CreatedAt.
  assert (VolumeID (attached session vol) = id) as -> by by destruct vol.
  rewrite Hvol, Hcreated, Hcreated.
  unfold stamped.
  destruct vol as [? ? ? ? ? ? [? ? ?] ? ? ? ?]; simpl in *. by subst.
Qed.

(** ** Edge cases of create and of create-checkpoint *)

(** X19: create does not check that the generated id is free.  When the
    first eight characters of the UUID give an id that is already stored,
    the request is still answered 201 and the new record replaces the
    stored one, whoever owned it; of the old record only created_at (when
    it is set) survives, and the number of volumes does not grow. *)
Theorem handleCreateVolume_collision (srv : Server) (ctx : option string)
    (req : createVolumeRequest) (env : Env) (st : FileStore) (old : Volume) :
  create_accepted srv ctx req →
  io env 0 = None →
  volumes st !! ("vol-" +:+ shortID (uuid env 0)) = Some old →
  let id := "vol-" +:+ shortID (uuid env 0) in
  let v := set_UpdatedAt (now env 0)
             (set_CreatedAt (if IsZero (CreatedAt old) then now env 0 else CreatedAt old)
                (createdVolume req (create_owner srv ctx req) (uuid env 0))) in
  (handleCreateVolume srv ctx (DecodeOk req) env st).2 = respondJSON StatusCreated (PVolume v) ∧
  volumes (handleCreateVolume srv ctx (DecodeOk req) env st).1 = <[id := v]> (volumes st) ∧
  size (volumes (handleCreateVolume srv ctx (DecodeOk req) env st).1) = size (volumes st).
Proof.
  intros Hacc Hio Hold id v.
  rewrite (handleCreateVolume_accepted _ _ _ _ _ Hacc). cbv zeta. cbn [fst snd].
  rewrite PutVolume_result, Hio.
  destruct (PutVolume_mem (now env 0) None
              (createdVolume req (create_owner srv ctx req) (uuid env 0)) st) as (-> & _).
  assert (stamped (now env 0) (createdVolume req (create_owner srv ctx req) (uuid env 0)) st
          = v) as ->.
  { unfold stamped, createdVolume. cbv zeta. cbn [VolumeID]. by rewrite Hold. }
  assert (VolumeID (createdVolume req (create_owner srv ctx req) (uuid env 0)) = id) as ->
    by done.
  split; [done|]. split; [done|].
  by apply map_size_insert_Some.
Qed.

Lemma collectSnapshots_app srv principal env pre rest :
  ∀ k acc st,
    collectSnapshots srv principal env k (pre ++ rest) acc st =
      match collectSnapshots srv principal env k pre acc st with
      | (st', inl resp) => (st', inl resp)
      | (st', inr ids) => collectSnapshots srv principal env (k + length pre) rest ids st'
      end.
Proof.
  induction pre as [|vid pre IH]; intros k acc st; simpl.
  - by rewrite Nat.add_0_r.
  - destruct (GetVolume vid st) as [vol|err]; [|done].
    destruct (_ && _); [done|].
    destruct (LatestSnapshot vid st).
    + rewrite IH. by rewrite Nat.add_succ_r.
    + destruct (AddSnapshot _ _ _ _) as [st1 [created|err]]; [|done].
      rewrite IH. by rewrite Nat.add_succ_r.
Qed.

(** X20: create-checkpoint is not atomic.  When the request lists an
    unknown volume after volumes that are accepted, it is answered 400
    invalid_volume and no manifest is stored, but the volumes listed
    before the unknown one that had no snapshot have each received their
    automatic snapshot, and keep it. *)
Theorem handleCreateCheckpoint_not_atomic (srv : Server) (ctx : option string)
    (req : createCheckpointRequest) (env : Env) (st : FileStore)
    (pre rest : list string) (bad : string) :
  (hasTokens srv = true → is_Some ctx) →
  (∀ n, io env n = None) →
  cpreq_VolumeIDs req = pre ++ bad :: rest →
  checkpoint_accepted srv (principalFromContext ctx).1 st pre →
  volumes st !! bad = None →
  let st' := (handleCreateCheckpoint srv ctx (DecodeOk req) env st).1 in
  (handleCreateCheckpoint srv ctx (DecodeOk req) env st).2
    = respondError StatusBadRequest "invalid_volume" ("unknown volume " +:+ bad) ∧
  cp st' = cp st ∧ volumes st' = volumes st ∧
  ∀ vid, history_after pre vid (ListSnapshots vid st) (ListSnapshots vid st').
Proof.
  intros Hctx Hio Hreq Hpre Hbad st'. subst st'.
  rewrite (handleCreateCheckpoint_accepted _ _ _ _ _ Hctx).
  assert (checkpointVolumes srv ctx req st = pre ++ bad :: rest) as ->.
  { unfold checkpointVolumes. rewrite Hreq. by destruct pre. }
  cbv zeta. rewrite collectSnapshots_app.
  destruct (collectSnapshots_spec srv (principalFromContext ctx).1 env pre 0 [] st Hpre Hio)
    as (st1 & -> & Hvols & Hcp & Hhist).
  simpl. unfold GetVolume. rewrite Hvols, Hbad. done.
Qed.

(** ** Which requests are turned away, and why *)

Lemma collectSnapshots_dev_status srv principal env vids :
  hasTokens srv = false →
  ∀ k acc st resp,
    (collectSnapshots srv principal env k vids acc st).2 = inl resp →
    status resp = StatusBadRequest ∨ status resp = StatusInternalServerError.
Proof.
  intros Hdev. induction vids as [|vid vids IH]; intros k acc st resp; simpl; [done|].
  rewrite Hdev. simpl.
  unfold GetVolume. destruct (volumes st !! vid) as [vol|]; [|intros [= <-]; by left].
  destruct (LatestSnapshot vid st); [apply IH|].
  destruct (AddSnapshot _ _ _ _) as [st1 [created|err]]; simpl;
    [apply IH|intros [= <-]; by right].
Qed.

Local Ltac statuses :=
  repeat case_match; simplify_eq/=;
  unfold StatusOK, StatusCreated, StatusNoContent, StatusBadRequest, StatusUnauthorized,
    StatusForbidden, StatusNotFound, StatusInternalServerError in *;
  try done; try lia.

(** X21: without a token provider the only handler that ever answers
    403 is attach (when the principal of the body is not the owner):
    create, get, detach, delete, the snapshot and the checkpoint handlers
    serve every caller. *)
Theorem dev_mode_forbidden_only_attach (srv : Server) (ctx : option string)
    (r : Router.ApiRoute) (env : Env) (st : FileStore) :
  tokens srv = None →
  status (Router.dispatch srv ctx r env st).2 = StatusForbidden →
  ∃ id req vol, r = Router.PostAttach id (DecodeOk req) ∧ volumes st !! id = Some vol ∧
    att_Principal req ≠ "" ∧ att_Principal req ≠ OwnerPrincipal vol ∧
    (Router.dispatch srv ctx r env st).1 = st.
Proof.
  intros Hdev. assert (hasTokens srv = false) as Htok by (unfold hasTokens; by rewrite Hdev).
  destruct r; cbn [Router.dispatch snd fst].
  - unfold handleCreateVolume. rewrite Htok. statuses.
  - unfold handleListVolumes. rewrite Htok. statuses.
  - unfold handleCreateCheckpoint. rewrite Htok.
    destruct (principalFromContext ctx) as [principal ok]. simpl.
    destruct body as [req| |]; [|statuses..]. cbv zeta.
    match goal with
    | |- context [collectSnapshots srv principal env 0 ?vids [] st] =>
        pose proof (collectSnapshots_dev_status srv principal env vids Htok 0 [] st) as Herr;
        destruct (collectSnapshots srv principal env 0 vids [] st) as [st1 [resp|ids]]
    end; simpl in *.
    + destruct (Herr resp eq_refl) as [->| ->]; statuses.
    + statuses.
  - unfold handleListCheckpoints. rewrite Htok. statuses.
  - unfold handleGetVolume, GetVolume. rewrite Htok. statuses.
  - unfold handleAttachVolume, GetVolume. rewrite Htok.
    destruct body as [req| |]; [|statuses..].
    destruct (principalFromContext ctx) as [principal ok]. simpl.
    destruct (volumes st !! volumeID) as [vol|] eqn:Hvol; [|statuses].
    destruct (String.eqb_spec (att_Principal req) ""); [statuses|].
    destruct (String.eqb_spec (att_Principal req) (OwnerPrincipal vol)); simpl.
    + statuses.
    + intros _. by exists volumeID, req, vol.
  - unfold handleDetachVolume, GetVolume. rewrite Htok. statuses.
  - unfold handleCreateSnapshot, GetVolume. rewrite Htok. statuses.
  - unfold handleListSnapshots, GetVolume. rewrite Htok. statuses.
  - unfold handleDeleteVolume, GetVolume. rewrite Htok. statuses.
Qed.

(** X22: a 404 is only ever the answer of a route that names a volume,
    only when no volume is stored under that id, and the store is left as
    it was.  In a request that runs on its own the not-found error of
    [AddSnapshot] and of [DeleteVolume] behind the ownership check is
    never what the client sees: the handler has looked the volume up
    before. *)
Theorem not_found_only_for_unknown_id (srv : Server) (ctx : option string)
    (r : Router.ApiRoute) (env : Env) (st : FileStore) :
  status (Router.dispatch srv ctx r env st).2 = StatusNotFound →
  ∃ id, id_of_route r = Some id ∧ volumes st !! id = None ∧
        Router.dispatch srv ctx r env st = (st, notFound).
Proof.
  destruct r; cbn [Router.dispatch snd fst id_of_route].
  - unfold handleCreateVolume. statuses.
  - unfold handleListVolumes. statuses.
  - unfold handleCreateCheckpoint.
    destruct (principalFromContext ctx) as [principal ok].
    destruct (hasTokens srv && negb ok); [statuses|].
    destruct body as [req| |]; [|statuses..]. cbv zeta.
    match goal with
    | |- context [collectSnapshots srv principal env 0 ?vids [] st] =>
        pose proof (collectSnapshots_error_status srv principal env vids 0 [] st) as Herr;
        destruct (collectSnapshots srv principal env 0 vids [] st) as [st1 [resp|ids]]
    end; simpl in *.
    + destruct (Herr resp eq_refl) as [->|[->| ->]]; statuses.
    + statuses.
  - unfold handleListCheckpoints. statuses.
  - unfold handleGetVolume, GetVolume.
    destruct (volumes st !! volumeID) eqn:Hvol; [statuses|]. intros _. by exists volumeID.
  - unfold handleAttachVolume, GetVolume.
    destruct (volumes st !! volumeID) eqn:Hvol; [statuses|].
    intros Hs. exists volumeID. split; [done|]. split; [done|]. revert Hs. statuses.
  - unfold handleDetachVolume, GetVolume.
    destruct (volumes st !! volumeID) eqn:Hvol; [statuses|].
    intros Hs. exists volumeID. split; [done|]. split; [done|]. revert Hs. statuses.
  - unfold handleCreateSnapshot, GetVolume, AddSnapshot.
    destruct (volumes st !! volumeID) eqn:Hvol; [unfold flushLocked; statuses|].
    intros Hs. exists volumeID. split; [done|]. split; [done|]. revert Hs. statuses.
  - unfold handleListSnapshots, GetVolume.
    destruct (volumes st !! volumeID) eqn:Hvol; [statuses|].
    intros Hs. exists volumeID. split; [done|]. split; [done|]. revert Hs. statuses.
  - unfold handleDeleteVolume, GetVolume, DeleteVolume.
    destruct (volumes st !! volumeID) eqn:Hvol; [unfold flushLocked; statuses|].
    intros Hs. exists volumeID. split; [done|]. split; [done|]. revert Hs. statuses.
Qed.

(** ** State files that lack some of the maps *)

(** X23: a state file need not hold all three maps.  A document with
    only the volumes (unknown members and members that are null
    included) is loaded as these volumes with no snapshot history and no
    checkpoint: the maps that the decoder leaves nil are replaced by empty
    ones. *)
Theorem load_volumes_only (vs : gmap string Volume) (other : json) :
  (∀ id v, vs !! id = Some v → - 2 ^ 63 ≤ QuotaBytes v < 2 ^ 63) →
  let doc := JObj [("version", other); ("volumes", enc_map enc_Volume vs);
                   ("snapshots", JNull)] in
  NewFileStore (FileJSON doc)
    = Ok {| volumes := vs; snaps := ∅; cp := ∅; file := FileJSON doc |}.
Proof.
  intros Hq doc. unfold NewFileStore, load, doc. cbn [file].
  unfold dec_fileState, dec_struct. top_members.
  rewrite (dec_enc_map (dec_Volume zeroVolume) enc_Volume)
    by (intros; eapply dec_enc_Volume, Hq; eauto).
  by top_members.
Qed.

Lemma load_volumes_only_witness :
  ∃ st, NewFileStore (FileJSON (JObj [("version", JNum 1);
                                      ("volumes", enc_map enc_Volume (volumes afterCreate));
                                      ("snapshots", JNull)])) = Ok st ∧
        volumes st = volumes afterCreate ∧ snaps st = ∅ ∧ cp st = ∅.
Proof.
  assert (quotas_int64 afterCreate) as Hq
    by (unfold quotas_int64; refine (bool_decide_unpack _ _); vm_compute; exact I).
  eexists. split; [exact (load_volumes_only (volumes afterCreate) (JNum 1) Hq)|done].
Defined.

(** ** The properties above on the sample requests *)

Lemma VolumeIDForSnapshot_finds_witness :
  VolumeIDForSnapshot "snap-4d3c9b1e" afterCheckpoint = Some "vol-4d3c9b1e".
Proof.
  apply (proj2 (VolumeIDForSnapshot_finds "snap-4d3c9b1e" afterCheckpoint)).
  - apply (unique_histories_single afterCheckpoint "vol-4d3c9b1e"). by vm_compute.
  - exists (autoSnapshot calmEnv 0 "vol-4d3c9b1e"). split; [|by vm_compute].
    assert (ListSnapshots "vol-4d3c9b1e" afterCheckpoint
            = [autoSnapshot calmEnv 0 "vol-4d3c9b1e"]) as -> by by vm_compute.
    by left.
Defined.

Lemma buildTLSConfig_modes_witness :
  Config.buildTLSConfig "" "" "clients.pem" None None true = Config.PlainHTTP ∧
  Config.RequireAndVerifyClientCert
    {| Config.MinVersion := "VersionTLS12"; Config.withClientCAs := true;
       Config.RequireAndVerifyClientCert := true |} = true.
Proof.
  split.
  - by apply (proj1 (buildTLSConfig_modes "" "" "clients.pem" None None true)).
  - by apply (proj2 (buildTLSConfig_modes "server.pem" "server.key" "clients.pem"
                       None None true) _ eq_refl).
Defined.

Lemma handleListVolumes_isolation_witness :
  ∃ vs, handleListVolumes (authServer demoTokens) (Some "service:mallory") afterCreate
          = respondJSON StatusOK (PVolumes vs) ∧
    ∀ v, v ∈ vs ↔
      (∃ id, volumes afterCreate !! id = Some v) ∧
      (hasTokens (authServer demoTokens) = true →
       Some (OwnerPrincipal v) = Some "service:mallory").
Proof.
  apply (handleListVolumes_isolation (authServer demoTokens) (Some "service:mallory")
           afterCreate).
  intros _. by exists "service:mallory".
Defined.

Lemma snapshot_then_list_witness :
  handleListSnapshots devServer None "vol-4d3c9b1e"
    (handleCreateSnapshot devServer None "vol-4d3c9b1e" DecodeEOF calmEnv afterCreate).1
  = respondJSON StatusOK
      (PSnapshots (ListSnapshots "vol-4d3c9b1e" afterCreate
                   ++ [newSnapshot "vol-4d3c9b1e" "" calmEnv])).
Proof.
  apply (snapshot_then_list devServer None "vol-4d3c9b1e" DecodeEOF calmEnv afterCreate).
  by vm_compute.
Defined.

Lemma attach_then_detach_witness :
  ∃ vol, volumes afterCreate !! "vol-4d3c9b1e" = Some vol ∧
    volumes afterDetach = <["vol-4d3c9b1e" := set_UpdatedAt 1700 vol]> (volumes afterCreate).
Proof.
  eexists. split; [by vm_compute|].
  eapply proj1.
  eapply (attach_then_detach devServer None None "vol-4d3c9b1e" attachBody DecodeEOF
            calmEnv calmEnv afterCreate); by vm_compute.
Defined.

Lemma handleCreateVolume_collision_witness :
  size (volumes (handleCreateVolume devServer None (DecodeOk app1Request) calmEnv
                   afterCreate).1) = size (volumes afterCreate).
Proof.
  eapply proj2, proj2.
  eapply (handleCreateVolume_collision devServer None app1Request calmEnv afterCreate);
    by vm_compute.
Defined.

Lemma handleCreateCheckpoint_not_atomic_witness :
  let req := {| cpreq_VolumeIDs := ["vol-4d3c9b1e"; "vol-ffffffff"]; cpreq_Note := "" |} in
  (handleCreateCheckpoint devServer None (DecodeOk req) calmEnv afterCreate).2
    = respondError StatusBadRequest "invalid_volume" "unknown volume vol-ffffffff" ∧
  length (ListSnapshots "vol-4d3c9b1e" afterCreate) = 0%nat ∧
  length (ListSnapshots "vol-4d3c9b1e"
            (handleCreateCheckpoint devServer None (DecodeOk req) calmEnv afterCreate).1)
    = 1%nat.
Proof.
  intros req. split; [|by vm_compute].
  eapply proj1.
  apply (handleCreateCheckpoint_not_atomic devServer None req calmEnv afterCreate
           ["vol-4d3c9b1e"] [] "vol-ffffffff"); try done.
  intros vid ->%list_elem_of_singleton. eexists. split; [by vm_compute|done].
Defined.

Lemma dev_mode_forbidden_only_attach_witness :
  let req := {| att_Principal := "service:mallory"; att_SessionID := "";
                att_ConsumerEndpoint := "" |} in
  (handleAttachVolume devServer None "vol-4d3c9b1e" (DecodeOk req) calmEnv afterCreate).1
    = afterCreate.
Proof.
  intros req.
  destruct (dev_mode_forbidden_only_attach devServer None
              (Router.PostAttach "vol-4d3c9b1e" (DecodeOk req)) calmEnv afterCreate)
    as (id & req' & vol & _ & _ & _ & _ & Hsame); [done|by vm_compute|exact Hsame].
Defined.

Lemma not_found_only_for_unknown_id_witness :
  volumes afterCreate !! "vol-ffffffff" = None.
Proof.
  destruct (not_found_only_for_unknown_id devServer None
              (Router.DeleteVolumeByID "vol-ffffffff") calmEnv afterCreate)
    as (id & [= <-] & Hnone & _); [by vm_compute|exact Hnone].
Defined.
